(** * dharma.talk: the incremental talks scraper and the development proxy

    A shallow embedding of [db/dharmaseed_scrape_talks.py], of the retry
    loop of [db/dharmaseed_scrape_teachers.py] and of [server.py], with the
    properties of the incremental fetch-and-merge routine and of the
    forwarding proxy; then of the item loop, the teacher records and the
    files of [db/dharmaseed_scrape_teachers.py], and of
    [db/generate_redirects.py].

    Python values that come out of [json.load] and [Response.json] are
    modelled by the type [json].  Effects (the snapshot files, the remote
    API, [print], [time.sleep]) are threaded through a state-and-exception
    monad over a [world].  The model keeps to the annotated types of the
    source and to the answers and failures listed with [file_content],
    [response], [sleep] and [write_json]; what each of them leaves out is
    said there. *)

From Stdlib Require Import QArith Ascii DecimalString DecimalZ DecimalPos.
From stdpp Require Import gmap strings list sorting.

Local Open Scope string_scope.
Local Open Scope list_scope.
Local Open Scope Z_scope.

(** ** JSON values, as Python sees them after [json.load] *)

#[local] Unset Elimination Schemes.
Inductive json :=
  | JNull                                   (* None *)
  | JBool (b : bool)
  | JInt (z : Z)
  | JFloat (bits : Z)                       (* a double, by its 64 bits; never computed on *)
  | JStr (s : string)
  | JList (l : list json)
  | JObj (kvs : list (string * json)).      (* a dict, in insertion order *)
#[local] Set Elimination Schemes.

(** [Dict]: a Python dict with string keys. *)
Abbreviation Dict := (list (string * json)).

(** Python truthiness ([if x:], [not x]). *)
Definition py_truthy (v : json) : bool :=
  match v with
  | JNull => false
  | JBool b => b
  | JInt z => negb (z =? 0)
  | JFloat bits => negb (bits =? 0) && negb (bits =? 2 ^ 63)
  | JStr s => negb (String.eqb s "")
  | JList l => match l with [] => false | _ => true end
  | JObj kvs => match kvs with [] => false | _ => true end
  end.

(** [d.get(key)] as an option. *)
Fixpoint dict_lookup (key : string) (d : Dict) : option json :=
  match d with
  | [] => None
  | (k, v) :: d' => if String.eqb k key then Some v else dict_lookup key d'
  end.

(** [d.get(key, default)]. *)
Definition py_get (d : Dict) (key : string) (default : json) : json :=
  match dict_lookup key d with
  | Some v => v
  | None => default
  end.

(** ** Exceptions and outcomes *)

Inductive request_error :=
  | ConnectionError
  | Timeout
  | HTTPError (status : Z)
  | InvalidJSON.          (* requests.exceptions.JSONDecodeError, a RequestException
                             since requests 2.27 *)

Inductive exn :=
  | KeyError (key : string)
  | JSONDecodeError
  | UnicodeDecodeError
  | TypeError
  | AttributeError
  | ValueError
  | ZeroDivisionError
  | RecursionError
  | RequestException (e : request_error).

(** Input that is JSON and on which the parser gives up all the same: an
    int literal beyond the digit limit of [int] raises ValueError, nesting
    beyond the recursion limit raises RecursionError.  Neither is a
    JSONDecodeError. *)
Inductive parser_error :=
  | IntTooLong
  | NestedTooDeep.

Definition parser_exn (e : parser_error) : exn :=
  match e with
  | IntTooLong => ValueError
  | NestedTooDeep => RecursionError
  end.

(** A computation returns, raises, or leaves the annotated types of the
    source ([Talk.id : int], [List[int]], [Set[int]], [audio_url : str]):
    [OutOfModel] marks the inputs on which Python goes on with values of
    another type; the model says nothing about them. *)
Inductive outcome (A : Type) :=
  | Ok (a : A)
  | Raise (e : exn)
  | OutOfModel.
Arguments Ok {A} a.
Arguments Raise {A} e.
Arguments OutOfModel {A}.

Definition outcome_bind {A B} (o : outcome A) (f : A -> outcome B) : outcome B :=
  match o with
  | Ok a => f a
  | Raise e => Raise e
  | OutOfModel => OutOfModel
  end.

(** [d[key]]. *)
Definition py_getitem (d : Dict) (key : string) : outcome json :=
  match dict_lookup key d with
  | Some v => Ok v
  | None => Raise (KeyError key)
  end.

(** An ID where the source needs an [int] (set element, sort key). *)
Definition as_int (v : json) : outcome Z :=
  match v with
  | JInt z => Ok z
  | _ => OutOfModel
  end.

(** [t['id']] as an int. *)
Definition talk_id_of (t : Dict) : outcome Z :=
  outcome_bind (py_getitem t "id") as_int.

(** ** The world: files, the remote API, and the trace of effects *)

(** What [open(filename, 'r', encoding='utf-8')] followed by [json.load]
    makes of a file: bytes that are not UTF-8 (UnicodeDecodeError), text
    that is not JSON (JSONDecodeError), JSON that parses to a value, or
    JSON on which the parser gives up.  A file that parses is represented
    by the value [json.load] returns for it; [json.dump(talks, f, indent=2,
    ensure_ascii=False)] is a function of that value, so two files written
    by [save_talks_to_json] with the same value have the same bytes. *)
Inductive file_content :=
  | NotUtf8
  | NotJson
  | JsonText (v : json)
  | Unparsed (e : parser_error).

Inductive url :=
  | TalksEndpoint                                   (* {API_BASE}/talks/ *)
  | TalkDetail (talk_id : Z)                        (* {TALKS_ENDPOINT}{talk_id}/ *)
  | ItemDetail (endpoint : string) (item_id : Z).   (* {base_url}/{item_id}/ *)

(** What [SESSION.get(url, timeout=30)] gives: an exception of requests, or
    a response with a status code and a body: [Some v] when [r.json()]
    returns [v], [None] when the body is not JSON and [r.json()] raises the
    JSONDecodeError of requests.  A body on which the parser gives up with
    ValueError or RecursionError (see [parser_error]) is not among these
    answers: such an exception is no RequestException, and the properties
    below speak of the answers listed here. *)
Inductive response :=
  | NetFail (e : request_error)
  | Http (status : Z) (body : option json).

Inductive message :=
  | MsgLoadWarning (e : exn)
  | MsgLoaded (n : nat)
  | MsgFetchingIds
  | MsgFoundIds (n : nat)
  | MsgNewToFetch (n : nat)
  | MsgLimiting (limit : Z)
  | MsgNoNew
  | MsgFetchingDetails (n : nat)
  | MsgRateLimited (wait_time : Z)
  | MsgFetchFailed (u : url) (e : request_error)
  | MsgProgress (done total all : nat)
  | MsgCheckpoint (n : nat)
  | MsgCompleted (fetched total : nat)
  | MsgFailed (n : nat)
  | MsgSaved (n : nat) (filename : string)
  | MsgRemoved (filename : string)
  | MsgTitle
  | MsgRule
  | MsgLimit (limit : option Z)
  | MsgDelay (delay : Q)
  | MsgOutput (filename : string)
  | MsgSaveInterval (n : Z)
  | MsgBlank
  | MsgSummary
  | MsgTotal (n : nat)
  | MsgDateRange (lo hi : string)
  | MsgUniqueTeachers (n : nat).

Inductive event :=
  | EvGet (u : url)
  | EvSleep (seconds : Q)
  | EvPrint (m : message)
  | EvWrite (filename : string) (v : json)
  | EvRemove (filename : string)
  | EvFetchDetails (talk_id : Z).   (* entry of fetch_talk_details; not an effect *)

(** The remote API answers the [n]-th request of the run as a function of
    [n] and of the URL, which covers every deterministic server against
    this sequential client. *)
Record world := World {
  files : gmap string file_content;
  remote : nat -> url -> response;
  requests_made : nat;
  trace : list event
}.

Definition M (A : Type) : Type := world -> outcome A * world.

Definition ret {A} (a : A) : M A := fun w => (Ok a, w).

Definition bind {A B} (m : M A) (f : A -> M B) : M B :=
  fun w =>
    match m w with
    | (Ok a, w') => f a w'
    | (Raise e, w') => (Raise e, w')
    | (OutOfModel, w') => (OutOfModel, w')
    end.

Definition raise {A} (e : exn) : M A := fun w => (Raise e, w).

Definition lift {A} (o : outcome A) : M A := fun w => (o, w).

#[global] Instance M_ret : MRet M := @ret.
#[global] Instance M_bind : MBind M := fun A B f m => bind m f.

Definition emit (e : event) : M unit :=
  fun w => (Ok tt, World (files w) (remote w) (requests_made w) (trace w ++ [e])).

Definition print (m : message) : M unit := emit (EvPrint m).

(** [time.sleep(secs)]: raises ValueError on a negative length.  The
    length is a finite number of seconds; the OverflowError of a length
    beyond the clock (some 9.2e9 seconds) is left out. *)
Definition sleep (secs : Q) : M unit :=
  if (Qnum secs <? 0) then raise ValueError else emit (EvSleep secs).

(** [SESSION.get(url, timeout=30)]. *)
Definition http_get (u : url) : M response :=
  fun w => (Ok (remote w (requests_made w) u),
            World (files w) (remote w) (S (requests_made w)) (trace w ++ [EvGet u])).

Definition read_file (filename : string) : M (option file_content) :=
  fun w => (Ok (files w !! filename), w).

(** [with open(filename, 'w', encoding='utf-8') as f: json.dump(v, f, ...)]
    when the dump completes.  The event records the value handed to the
    dump.  A dump that fails half-way (a str that UTF-8 cannot encode)
    leaves a truncated file behind and is left out. *)
Definition write_json (filename : string) (v : json) : M unit :=
  fun w => (Ok tt, World (<[filename := JsonText v]> (files w)) (remote w)
                         (requests_made w) (trace w ++ [EvWrite filename v])).

Definition remove_file (filename : string) : M unit :=
  fun w => (Ok tt, World (delete filename (files w)) (remote w)
                         (requests_made w) (trace w ++ [EvRemove filename])).

(** [r.raise_for_status()] raises for 4xx and 5xx. *)
Definition is_error_status (status : Z) : bool :=
  (400 <=? status) && (status <? 600).

#[global] Instance outcome_ret : MRet outcome := @Ok.
#[global] Instance outcome_mbind : MBind outcome := fun A B f o => outcome_bind o f.

(** ** db/dharmaseed_scrape_talks.py *)

Definition BASE : string := "https://dharmaseed.org".

Module Talk.
(** The dataclass [Talk]; Python does not enforce the field types. *)
Record t := Build {
  id : json;
  title : json;
  teacher_id : json;
  description : json;
  rec_date : json;
  duration_in_minutes : json;
  venue_id : json;
  retreat_id : json;
  language_id : json;
  recording_type : json;
  audio_url : json
}.
End Talk.

(** [dataclasses.asdict]. *)
Definition asdict (talk : Talk.t) : Dict :=
  [ ("id", Talk.id talk);
    ("title", Talk.title talk);
    ("teacher_id", Talk.teacher_id talk);
    ("description", Talk.description talk);
    ("rec_date", Talk.rec_date talk);
    ("duration_in_minutes", Talk.duration_in_minutes talk);
    ("venue_id", Talk.venue_id talk);
    ("retreat_id", Talk.retreat_id talk);
    ("language_id", Talk.language_id talk);
    ("recording_type", Talk.recording_type talk);
    ("audio_url", Talk.audio_url talk) ].

(** What a set takes as an element: any JSON value but a list or a dict. *)
Definition hashable (v : json) : bool :=
  match v with
  | JList _ | JObj _ => false
  | _ => true
  end.

(** [{t['id'] for t in talks}], together with [talks] as a list of dicts.
    The comprehension runs left to right, so the first offending element
    decides the exception; an ID that is hashable and no int goes into the
    set, which then is no [Set[int]]. *)
Fixpoint scan_talks (talks : list json) : outcome (list Dict * gset Z) :=
  match talks with
  | [] => Ok ([], ∅)
  | JObj d :: rest =>
      match dict_lookup "id" d with
      | None => Raise (KeyError "id")
      | Some (JInt z) =>
          '(ds, ids) ← scan_talks rest;
          Ok (d :: ds, {[ z ]} ∪ ids)
      | Some v =>
          if hashable v then _ ← scan_talks rest; OutOfModel
          else Raise TypeError    (* unhashable *)
      end
  | _ :: _ => Raise TypeError     (* t['id'] on a value that is not a dict *)
  end.

(** What the [with] block of [load_existing_talks] does with the value
    [json.load] returned. *)
Definition scan_snapshot (v : json) : outcome (list Dict * gset Z) :=
  match v with
  | JList talks => scan_talks talks
  | JObj [] | JStr "" => OutOfModel     (* returns the empty non-list itself *)
  | JObj (_ :: _) | JStr _ => Raise TypeError   (* 'key'['id'] *)
  | JNull | JBool _ | JInt _ | JFloat _ => Raise TypeError   (* not iterable *)
  end.

Definition load_existing_talks (filename : string) : M (list Dict * gset Z) :=
  content ← read_file filename;
  match content with
  | None => mret ([], ∅)
  | Some NotUtf8 => raise UnicodeDecodeError
  | Some NotJson =>
      print (MsgLoadWarning JSONDecodeError);;
      mret ([], ∅)
  | Some (JsonText v) =>
      match scan_snapshot v with
      | Raise (KeyError k) =>
          print (MsgLoadWarning (KeyError k));;
          mret ([], ∅)
      | o => lift o
      end
  | Some (Unparsed e) => raise (parser_exn e)
  end.

(** The listed IDs, which the source takes to be ints. *)
Fixpoint int_list (items : list json) : outcome (list Z) :=
  match items with
  | [] => Ok []
  | JInt z :: rest => zs ← int_list rest; Ok (z :: zs)
  | _ :: _ => OutOfModel
  end.

Definition fetch_talk_ids : M (list Z) :=
  print MsgFetchingIds;;
  r ← http_get TalksEndpoint;
  match r with
  | NetFail e => raise (RequestException e)
  | Http status body =>
      if is_error_status status then raise (RequestException (HTTPError status))
      else
        match body with
        | None => raise (RequestException InvalidJSON)
        | Some (JObj data) =>
            match py_get data "items" (JList []) with
            | JList items =>
                ids ← lift (int_list items);
                print (MsgFoundIds (length ids));;
                mret ids
            | _ => lift OutOfModel
            end
        | Some _ => raise AttributeError     (* data.get on a non-dict *)
        end
  end.

(** The body of [for attempt in range(max_retries)], shared by
    [fetch_talk_details] and [fetch_item_details]; falling out of the loop
    returns [None]. *)
Fixpoint retry_loop (u : url) (max_retries : Z) (attempts : list nat) : M json :=
  match attempts with
  | [] => mret JNull
  | attempt :: rest =>
      let on_request_exception (e : request_error) : M json :=
        (if Z.of_nat attempt =? max_retries - 1
         then print (MsgFetchFailed u e)
         else sleep 2);;
        retry_loop u max_retries rest in
      r ← http_get u;
      match r with
      | NetFail e => on_request_exception e
      | Http status body =>
          if status =? 429 then
            let wait_time := (Z.of_nat attempt + 1) * 5 in
            print (MsgRateLimited wait_time);;
            sleep (inject_Z wait_time);;
            retry_loop u max_retries rest
          else if is_error_status status then on_request_exception (HTTPError status)
          else
            match body with
            | Some v => mret v
            | None => on_request_exception InvalidJSON
            end
      end
  end.

Definition fetch_talk_details (talk_id : Z) (max_retries : Z) : M json :=
  emit (EvFetchDetails talk_id);;
  retry_loop (TalkDetail talk_id) max_retries (seq 0 (Z.to_nat max_retries)).

(** db/dharmaseed_scrape_teachers.py, the same loop on another URL. *)
Definition fetch_item_details (endpoint : string) (item_id : Z) (max_retries : Z) : M json :=
  retry_loop (ItemDetail endpoint item_id) max_retries (seq 0 (Z.to_nat max_retries)).

Definition parse_talk (data : Dict) : outcome Talk.t :=
  let tid := py_get data "id" (JInt 0) in
  audio_url ←
    (if py_truthy (py_get data "audio_url" JNull) then
       match py_getitem data "audio_url" with
       | Ok (JStr s) => Ok (JStr (BASE +:+ s))
       | Ok _ => OutOfModel          (* str() of a value that is not a str *)
       | Raise e => Raise e
       | OutOfModel => OutOfModel
       end
     else Ok (JStr ""));
  Ok (Talk.Build
        tid
        (py_get data "title" (JStr ""))
        (py_get data "teacher_id" (JInt 0))
        (py_get data "description" (JStr ""))
        (py_get data "rec_date" (JStr ""))
        (py_get data "duration_in_minutes" (JInt 0))
        (py_get data "venue_id" JNull)
        (py_get data "retreat_id" JNull)
        (py_get data "language_id" (JInt 1))
        (py_get data "recording_type" (JStr ""))
        audio_url).

(** [talks.sort(key=lambda t: t['id'], reverse=True)]: the keys are
    computed first, the sort is stable. *)
Fixpoint keyed (talks : list Dict) : outcome (list (Z * Dict)) :=
  match talks with
  | [] => Ok []
  | t :: rest =>
      k ← talk_id_of t;
      ks ← keyed rest;
      Ok ((k, t) :: ks)
  end.

Fixpoint insert_desc (x : Z * Dict) (l : list (Z * Dict)) : list (Z * Dict) :=
  match l with
  | [] => [x]
  | y :: l' => if y.1 <=? x.1 then x :: l else y :: insert_desc x l'
  end.

Definition sort_desc (l : list (Z * Dict)) : list (Z * Dict) :=
  foldr insert_desc [] l.

Definition sort_by_id_desc (talks : list Dict) : outcome (list Dict) :=
  ks ← keyed talks;
  Ok (map snd (sort_desc ks)).

Definition save_talks_to_json (talks : list Dict) (filename : string) : M unit :=
  write_json filename (JList (map JObj talks));;
  print (MsgSaved (length talks) filename).

(** [xs[:n]] for an int [n]. *)
Definition py_slice_to {A} (n : Z) (xs : list A) : list A :=
  if 0 <=? n then take (Z.to_nat n) xs
  else take (Z.to_nat (Z.of_nat (length xs) + n)) xs.

Section FetchLoop.
Variables (filename : string) (delay_s : Q) (save_interval : Z).
Variable existing_talks : list Dict.
Variable total : nat.       (* len(new_ids) *)

(** The periodic save inside the loop, after iteration [i]. *)
Definition checkpoint (i : nat) (new_talks : list Dict) : M unit :=
  if save_interval =? 0 then raise ZeroDivisionError
  else if Z.of_nat (S i) mod save_interval =? 0 then
    all_talks ← lift (sort_by_id_desc (existing_talks ++ new_talks));
    save_talks_to_json all_talks filename;;
    print (MsgCheckpoint (length all_talks))
  else mret tt.

(** One iteration of [for i, talk_id in enumerate(new_ids)]. *)
Definition fetch_step (i : nat) (talk_id : Z) (new_talks : list Dict) (failed_count : nat)
  : M (list Dict * nat) :=
  result ← fetch_talk_details talk_id 5;
  '(new_talks, failed_count) ←
    (if py_truthy result then
       match result with
       | JObj data =>
           talk ← lift (parse_talk data);
           mret (new_talks ++ [asdict talk], failed_count)
       | _ => raise AttributeError       (* data.get on a non-dict *)
       end
     else mret (new_talks, S failed_count));
  (if Z.of_nat (S i) mod 10 =? 0
   then print (MsgProgress (S i) total (length existing_talks + length new_talks))
   else mret tt);;
  checkpoint i new_talks;;
  sleep delay_s;;
  mret (new_talks, failed_count).

Fixpoint fetch_loop (i : nat) (ids : list Z) (new_talks : list Dict) (failed_count : nat)
  : M (list Dict * nat) :=
  match ids with
  | [] => mret (new_talks, failed_count)
  | talk_id :: rest =>
      '(new_talks, failed_count) ← fetch_step i talk_id new_talks failed_count;
      fetch_loop (S i) rest new_talks failed_count
  end.
End FetchLoop.

(** [if limit and limit < len(new_ids): new_ids = new_ids[:limit]]. *)
Definition limit_applies (limit : option Z) (n : nat) : bool :=
  match limit with
  | None => false
  | Some l => negb (l =? 0) && (l <? Z.of_nat n)
  end.

Definition fetch_talks_incremental
    (filename : string) (limit : option Z) (delay_s : Q) (save_interval : Z)
  : M (list Dict) :=
  '(existing_talks, existing_ids) ← load_existing_talks filename;
  print (MsgLoaded (length existing_talks));;
  all_ids ← fetch_talk_ids;
  let new_ids := filter (fun tid => tid ∉ existing_ids) all_ids in
  print (MsgNewToFetch (length new_ids));;
  new_ids ←
    (if limit_applies limit (length new_ids) then
       print (MsgLimiting (default 0 limit));;
       mret (py_slice_to (default 0 limit) new_ids)
     else mret new_ids);
  match new_ids with
  | [] =>
      print MsgNoNew;;
      mret existing_talks
  | _ :: _ =>
      print (MsgFetchingDetails (length new_ids));;
      '(new_talks, failed_count) ←
        fetch_loop filename delay_s save_interval existing_talks (length new_ids)
                   0 new_ids [] 0;
      print (MsgCompleted (length new_talks) (length new_ids));;
      (if (0 <? failed_count)%nat then print (MsgFailed failed_count) else mret tt);;
      lift (sort_by_id_desc (existing_talks ++ new_talks))
  end.

(** The parsed command line. *)
Record Args := {
  arg_limit : Z;
  arg_delay : Q;
  arg_output : string;
  arg_save_interval : Z;
  arg_fresh : bool
}.

(** [limit = args.limit if args.limit > 0 else None]. *)
Definition cli_limit (args : Args) : option Z :=
  if arg_limit args >? 0 then Some (arg_limit args) else None.

(** [[t['rec_date'] for t in talks if t.get('rec_date')]], as strings. *)
Fixpoint summary_dates (talks : list Dict) : outcome (list string) :=
  match talks with
  | [] => Ok []
  | t :: rest =>
      if py_truthy (py_get t "rec_date" JNull) then
        match py_get t "rec_date" JNull with
        | JStr s => ds ← summary_dates rest; Ok (s :: ds)
        | _ => OutOfModel
        end
      else summary_dates rest
  end.

(** [min(dates)] and [max(dates)]: the first least and the first greatest. *)
Definition str_min (d : string) (ds : list string) : string :=
  fold_left (fun m s => if String.ltb s m then s else m) ds d.
Definition str_max (d : string) (ds : list string) : string :=
  fold_left (fun m s => if String.ltb m s then s else m) ds d.

(** [set(t['teacher_id'] for t in talks)]. *)
Fixpoint summary_teachers (talks : list Dict) : outcome (gset Z) :=
  match talks with
  | [] => Ok ∅
  | t :: rest =>
      v ← py_getitem t "teacher_id";
      match v with
      | JInt z => s ← summary_teachers rest; Ok ({[ z ]} ∪ s)
      | JList _ | JObj _ => Raise TypeError
      | _ => OutOfModel
      end
  end.

Definition print_summary (talks : list Dict) : M unit :=
  print MsgBlank;;
  print MsgSummary;;
  print (MsgTotal (length talks));;
  match talks with
  | [] => mret tt
  | _ :: _ =>
      dates ← lift (summary_dates talks);
      match dates with
      | [] => mret tt
      | d :: ds => print (MsgDateRange (str_min d ds) (str_max d ds))
      end;;
      teachers ← lift (summary_teachers talks);
      print (MsgUniqueTeachers (size teachers))
  end.

(** [if args.fresh and os.path.exists(args.output): os.remove(...)]. *)
Definition fresh_start (args : Args) : M unit :=
  if arg_fresh args then
    content ← read_file (arg_output args);
    match content with
    | Some _ =>
        remove_file (arg_output args);;
        print (MsgRemoved (arg_output args))
    | None => mret tt
    end
  else mret tt.

(** [main] up to and including the final save. *)
Definition run_and_save (args : Args) : M (list Dict) :=
  fresh_start args;;
  let limit := cli_limit args in
  print MsgTitle;;
  print MsgRule;;
  print (MsgLimit limit);;
  print (MsgDelay (arg_delay args));;
  print (MsgOutput (arg_output args));;
  print (MsgSaveInterval (arg_save_interval args));;
  print MsgBlank;;
  talks ← fetch_talks_incremental (arg_output args) limit (arg_delay args)
                                  (arg_save_interval args);
  save_talks_to_json talks (arg_output args);;
  mret talks.

Definition main (args : Args) : M unit :=
  talks ← run_and_save args;
  print_summary talks.

(** ** server.py *)

Module Server.

Definition DHARMASEED_BASE : string := "https://www.dharmaseed.org".

Abbreviation bytes := (list Byte.byte).

(** [int(self.headers.get('Content-Length', 0))]: the header is absent,
    or [int] raises ValueError with some text, or it gives an int. *)
Inductive content_length :=
  | CLAbsent
  | CLInvalid (error_text : string)
  | CLValue (n : Z).

(** The local request, as the handler reads it. *)
Record request := {
  path : string;
  req_content_length : content_length;
  req_content_type : option string;
  rfile : bytes
}.

(** The [urllib.request.Request] handed to [urlopen]. *)
Record upstream_request := {
  target_url : string;
  data : option bytes;
  up_content_type : option string
}.

(** What [urllib.request.urlopen(req, timeout=30)] does. *)
Inductive urlopen_result :=
  | Responded (content_type : option string) (body : bytes)
  | RaisedHTTPError (code : Z) (reason : string)
  | RaisedOther (text : string).

Inductive header_value :=
  | HStr (s : string)
  | HInt (n : nat).

(** What the handler does with the local connection. *)
Inductive handler_result :=
  | Response (status : Z) (headers : list (string * header_value)) (body : bytes)
  | SendError (code : Z) (message : string)        (* self.send_error(code, message) *)
  | ServeStatic (p : string).                       (* super().do_GET() *)

(** [s[n:]]. *)
Fixpoint py_slice_from (n : nat) (s : string) : string :=
  match n, s with
  | O, _ => s
  | S n', String _ s' => py_slice_from n' s'
  | S _, EmptyString => EmptyString
  end.

(** The request [proxy_request] builds once Content-Length is read as
    [content_length]: the body if any, and its Content-Type. *)
Definition upstream_of (self : request) (target : string) (content_length : Z)
  : upstream_request :=
  let body :=
    if content_length >? 0
    then Some (take (Z.to_nat content_length) (rfile self))
    else None in
  let ctype :=
    match body with
    | Some (_ :: _) =>
        Some (default "application/x-www-form-urlencoded" (req_content_type self))
    | _ => None
    end in
  {| target_url := target; data := body; up_content_type := ctype |}.

Section Handler.
Variable urlopen : upstream_request -> urlopen_result.

(** The result, and the lines printed. *)
Definition proxy_request (self : request) (target : string)
  : handler_result * list string :=
  match req_content_length self with
  | CLInvalid text => (SendError 500 text, ["Proxy error: " +:+ text])
  | cl =>
      let content_length := match cl with CLValue n => n | _ => 0 end in
      match urlopen (upstream_of self target content_length) with
      | Responded content_type data =>
          (Response 200
             [ ("Content-Type", HStr (default "application/octet-stream" content_type));
               ("Content-Length", HInt (length data));
               ("Access-Control-Allow-Origin", HStr "*") ]
             data, [])
      | RaisedHTTPError code reason => (SendError code reason, [])
      | RaisedOther text => (SendError 500 text, ["Proxy error: " +:+ text])
      end
  end.

Definition do_GET (self : request) : handler_result * list string :=
  if String.prefix "/feeds/" (path self) then
    proxy_request self (DHARMASEED_BASE +:+ path self)
  else if String.prefix "/api/" (path self) then
    let api_path := py_slice_from 5 (path self) in
    proxy_request self (DHARMASEED_BASE +:+ "/api/1/" +:+ api_path)
  else (ServeStatic (path self), []).

Definition do_POST (self : request) : handler_result * list string :=
  if String.prefix "/api/" (path self) then
    let api_path := py_slice_from 5 (path self) in
    proxy_request self (DHARMASEED_BASE +:+ "/api/1/" +:+ api_path)
  else (SendError 404 "Not Found", []).

End Handler.



(** [needle in haystack] on str. *)
Fixpoint py_in (needle haystack : string) : bool :=
  String.prefix needle haystack ||
  match haystack with
  | EmptyString => false
  | String _ rest => py_in needle rest
  end.

(** [log_message(format, *args)], as a function of [str(args[0])] (the
    request line when a request is logged): the line printed, if any. *)
Definition log_message (first_arg : string) : option string :=
  let path := first_arg in
  if py_in "/feeds/" path then Some ("[RSS] " +:+ path)
  else if py_in "/api/" path then Some ("[API] " +:+ path)
  else if negb (existsb (fun x => py_in x path)
                        [".js"; ".css"; ".json"; ".svg"; ".png"; ".ico"])
  then Some ("[Static] " +:+ path)
  else None.

End Server.

(** ** Observations on a trace *)

Definition detail_call (e : event) : option Z :=
  match e with EvFetchDetails talk_id => Some talk_id | _ => None end.
Definition write_of (e : event) : option (string * json) :=
  match e with EvWrite f v => Some (f, v) | _ => None end.
Definition sleep_of (e : event) : option Q :=
  match e with EvSleep s => Some s | _ => None end.

(** The IDs [fetch_talk_details] was called with, in call order. *)
Definition detail_calls (tr : list event) : list Z := omap detail_call tr.
(** The values handed to [json.dump], with their files: the snapshots
    written, checkpoints and final saves alike. *)
Definition writes (tr : list event) : list (string * json) := omap write_of tr.
(** The lengths slept. *)
Definition sleeps (tr : list event) : list Q := omap sleep_of tr.

(** The IDs of a list of records: [t.get('id')] of each. *)
Definition talk_ids (talks : list Dict) : list (option json) :=
  map (dict_lookup "id") talks.

(** The ID of record number [z] as [talk_ids] shows it. *)
Definition id_json (z : Z) : option json := Some (JInt z).

(** The events of [n] rate-limited attempts on [u], from attempt [a]. *)
Definition backoff_events (u : url) (a n : nat) : list event :=
  flat_map (fun k => [ EvGet u;
                       EvPrint (MsgRateLimited ((Z.of_nat k + 1) * 5));
                       EvSleep (inject_Z ((Z.of_nat k + 1) * 5)) ])
           (seq a n).

(** The waits of [n] rate-limited attempts: 5, 10, 15, ... seconds. *)
Definition backoff_waits (n : nat) : list Q :=
  map (fun k => inject_Z ((Z.of_nat k + 1) * 5)) (seq 0 n).

(** The next request, if it is for the listing, is answered with [all_ids]. *)
Definition listing_at (w : world) (all_ids : list Z) : Prop :=
  exists status data items,
    remote w (requests_made w) TalksEndpoint = Http status (Some (JObj data)) /\
    is_error_status status = false /\
    py_get data "items" (JList []) = JList items /\
    int_list items = Ok all_ids.

(** ** Relations between the world before and after a computation *)

(** Nothing but prints, sleeps and requests happened. *)
Definition quiet (w w' : world) : Prop :=
  remote w' = remote w /\ files w' = files w /\
  writes (trace w') = writes (trace w) /\
  detail_calls (trace w') = detail_calls (trace w).

(** Nothing but prints and sleeps happened. *)
Definition offline (w w' : world) : Prop :=
  quiet w w' /\ requests_made w' = requests_made w.

(** The remote is the same and every snapshot written satisfies [P]. *)
Definition writes_only (P : string * json -> Prop) (w w' : world) : Prop :=
  remote w' = remote w /\
  exists ws, writes (trace w') = writes (trace w) ++ ws /\ Forall P ws.

(** [m] relates the world it starts in to the world it ends in by [R],
    whatever its outcome. *)
Definition respects {A} (R : relation world) (m : M A) : Prop :=
  forall w r w', m w = (r, w') -> R w w'.

(** A snapshot of records with pairwise distinct IDs, written to [f]. *)
Definition unique_snapshot (f : string) (fv : string * json) : Prop :=
  fv.1 = f /\ exists talks, fv.2 = JList (map JObj talks) /\ NoDup (talk_ids talks).

(** The file, if it is a JSON array of records, has pairwise distinct IDs. *)
Definition unique_ids_file (c : option file_content) : Prop :=
  forall talks, c = Some (JsonText (JList (map JObj talks))) -> NoDup (talk_ids talks).

(** Every accepted, truthy record the detail endpoint answers with carries
    the ID it was asked for (a record without ['id'] counts as ID 0, as
    [parse_talk] has it). *)
Definition faithful_details (rem : nat -> url -> response) : Prop :=
  forall n talk_id status d,
    rem n (TalkDetail talk_id) = Http status (Some (JObj d)) ->
    status <> 429 -> is_error_status status = false -> py_truthy (JObj d) = true ->
    py_get d "id" (JInt 0) = JInt talk_id.

(** The listing, whenever it is asked, lists pairwise distinct IDs. *)
Definition listing_nodup (rem : nat -> url -> response) : Prop :=
  forall n status data items ids,
    rem n TalksEndpoint = Http status (Some (JObj data)) ->
    py_get data "items" (JList []) = JList items ->
    int_list items = Ok ids -> NoDup ids.

(** C4 as the specification words it: whenever the number of successful
    fetches of the loop run on [ids] is a positive multiple of
    [save_interval], the file holds the sorted merge of the existing and
    the new talks. *)
Definition checkpoint_after_successes (filename : string) (delay_s : Q)
    (save_interval : Z) (existing_talks : list Dict) (ids : list Z) (w : world) : Prop :=
  forall N failed w1,
    fetch_loop filename delay_s save_interval existing_talks (length ids) 0 ids [] 0 w
    = (Ok (N, failed), w1) ->
    N <> [] -> Z.of_nat (length N) mod save_interval = 0 ->
    exists all_talks,
      sort_by_id_desc (existing_talks ++ N) = Ok all_talks /\
      files w1 !! filename = Some (JsonText (JList (map JObj all_talks))).

(** Every accepted, truthy answer of the detail endpoint is a record with
    an int ID that [parse_talk] accepts (its audio_url, if any, is a str). *)
Definition well_formed_details (rem : nat -> url -> response) : Prop :=
  forall n talk_id status v,
    rem n (TalkDetail talk_id) = Http status (Some v) ->
    status <> 429 -> is_error_status status = false -> py_truthy v = true ->
    exists d talk z,
      v = JObj d /\ parse_talk d = Ok talk /\ dict_lookup "id" d = Some (JInt z).

(** A record whose ID is an int. *)
Definition int_id (t : Dict) : Prop := exists z, dict_lookup "id" t = id_json z.

(** The sort key of a record, for stating that a list is sorted. *)
Definition id_key (t : Dict) : Z :=
  match talk_id_of t with Ok z => z | _ => 0 end.

(** Sorted by ID, newest (greatest) first. *)
Definition sorted_by_id_desc (talks : list Dict) : Prop :=
  StronglySorted (fun a b => id_key b <= id_key a) talks.

(** A record as [fetch_talks_incremental] makes them. *)
Definition parsed_record (t : Dict) : Prop :=
  exists data talk, parse_talk data = Ok talk /\ t = asdict talk.

(** The new IDs the loop is run on. *)
Definition limited (limit : option Z) (new_ids : list Z) : list Z :=
  if limit_applies limit (length new_ids)
  then py_slice_to (default 0 limit) new_ids
  else new_ids.

(** The world after a checkpoint that saved [all_talks] to [filename]. *)
Definition checkpointed (filename : string) (all_talks : list Dict) (w : world) : world :=
  World (<[filename := JsonText (JList (map JObj all_talks))]> (files w)) (remote w)
        (requests_made w)
        (trace w ++ [ EvWrite filename (JList (map JObj all_talks));
                      EvPrint (MsgSaved (length all_talks) filename);
                      EvPrint (MsgCheckpoint (length all_talks)) ]).

(** What an iteration does to the list of new talks: a falsy answer is
    a failure, a truthy one is parsed and appended. *)
Inductive step_result (v : json) (new_talks : list Dict) (failed_count : nat)
  : list Dict -> nat -> Prop :=
  | step_failed :
      py_truthy v = false ->
      step_result v new_talks failed_count new_talks (S failed_count)
  | step_fetched data talk :
      py_truthy v = true -> v = JObj data -> parse_talk data = Ok talk ->
      step_result v new_talks failed_count (new_talks ++ [asdict talk]) failed_count.

(** ** Further observations *)

Definition get_of (e : event) : option url :=
  match e with EvGet u => Some u | _ => None end.
Definition print_of (e : event) : option message :=
  match e with EvPrint m => Some m | _ => None end.

(** The URLs requested, in order. *)
Definition gets (tr : list event) : list url := omap get_of tr.
(** The lines printed, in order. *)
Definition prints (tr : list event) : list message := omap print_of tr.

(** The request exception an answer makes the [try] block of
    [fetch_talk_details] raise, if any: a failure of the transport, a 4xx
    or 5xx status other than 429, or a body that is not JSON. *)
Definition rejection (r : response) : option request_error :=
  match r with
  | NetFail e => Some e
  | Http status body =>
      if status =? 429 then None
      else if is_error_status status then Some (HTTPError status)
      else match body with None => Some InvalidJSON | Some _ => None end
  end.

(** The request exception an answer makes [fetch_talk_ids] raise, if any:
    a failure of the transport, a 4xx or 5xx status (429 included), or a
    body that is not JSON. *)
Definition listing_failure (r : response) : option request_error :=
  match r with
  | NetFail e => Some e
  | Http status body =>
      if is_error_status status then Some (HTTPError status)
      else match body with None => Some InvalidJSON | Some _ => None end
  end.

(** The keys of a stored talk, in the order [asdict] writes them. *)
Definition talk_keys : list string :=
  [ "id"; "title"; "teacher_id"; "description"; "rec_date"; "duration_in_minutes";
    "venue_id"; "retreat_id"; "language_id"; "recording_type"; "audio_url" ].

(** [t['id'] == z]. *)
Definition has_id (z : Z) (t : Dict) : bool :=
  match dict_lookup "id" t with Some (JInt z') => z' =? z | _ => false end.

(** The records of [talks] whose ID is [z], in order. *)
Definition with_id (z : Z) (talks : list Dict) : list Dict :=
  filter (fun t => has_id z t = true) talks.

(** Every file but [out] is as it was. *)
Definition elsewhere (out : string) (w w' : world) : Prop :=
  forall f, f <> out -> files w' !! f = files w !! f.

(** The events of [n] rejected attempts on [u] that are not the last of
    the budget, followed by the last one, rejected with [e]. *)
Definition rejected_events (u : url) (n : nat) (e : request_error) : list event :=
  concat (replicate n [ EvGet u; EvSleep 2 ]) ++ [ EvGet u; EvPrint (MsgFetchFailed u e) ].

(** [m] raises only exceptions that satisfy [P]. *)
Definition raises_only {A} (P : exn -> Prop) (m : M A) : Prop :=
  forall w e w', m w = (Raise e, w') -> P e.

(** The exceptions of a fetch: of the load (UnicodeDecodeError, TypeError,
    and ValueError or RecursionError when the parser gives up), of the
    listing (a request exception, AttributeError) and of the loop
    (AttributeError, ZeroDivisionError, ValueError). *)
Definition fetch_exn (e : exn) : Prop :=
  e = UnicodeDecodeError \/ e = TypeError \/ e = AttributeError \/
  e = ZeroDivisionError \/ e = ValueError \/ e = RecursionError \/
  exists re, e = RequestException re.

(** A record with an ['id'] key. *)
Definition has_id_key (t : Dict) : Prop := is_Some (dict_lookup "id" t).

(** A snapshot written to [f] that holds the records [E] and, besides
    them, only records [parse_talk] made. *)
Definition keeps_snapshot (f : string) (E : list Dict) (fv : string * json) : Prop :=
  fv.1 = f /\
  exists talks N,
    fv.2 = JList (map JObj talks) /\ talks ≡ₚ E ++ N /\ Forall parsed_record N.

(** ** Answers in turn *)

(** The remote is the same and has been asked as many times: a request,
    and so a whole retry loop, fares the same in two such worlds. *)
Definition same_remote (w1 w2 : world) : Prop :=
  remote w1 = remote w2 /\ requests_made w1 = requests_made w2.

(** [m] has the same outcome in two such worlds, and leaves them such:
    it looks at the remote only. *)
Definition remote_only {A} (m : M A) : Prop :=
  forall w1 w2, same_remote w1 w2 ->
    (m w1).1 = (m w2).1 /\ same_remote (m w1).2 (m w2).2.

(** What [fetch] returns for each ID of [ids] in turn, on the remote [rem]
    that has answered [n] requests so far; the list stops where [fetch]
    does not return. *)
Fixpoint results_in_turn (fetch : Z -> M json) (rem : nat -> url -> response)
    (n : nat) (ids : list Z) : list json :=
  match ids with
  | [] => []
  | x :: rest =>
      match fetch x (World ∅ rem n []) with
      | (Ok v, w') => v :: results_in_turn fetch rem (requests_made w') rest
      | _ => []
      end
  end.

(** The answers of [fetch_talk_details] to the loop of
    [fetch_talks_incremental]. *)
Definition detail_results : (nat -> url -> response) -> nat -> list Z -> list json :=
  results_in_turn (fun talk_id => fetch_talk_details talk_id 5).

(** The answers of [fetch_item_details] to the loop of [fetch_all_items]. *)
Definition item_results (endpoint : string)
  : (nat -> url -> response) -> nat -> list Z -> list json :=
  results_in_turn (fun item_id => fetch_item_details endpoint item_id 5).

(** [None], or the JSON body of an answer of the remote for [u] with a
    status that is accepted. *)
Definition accepted_answer (rem : nat -> url -> response) (u : url) (v : json) : Prop :=
  v = JNull \/
  exists n status, rem n u = Http status (Some v) /\
                   status <> 429 /\ is_error_status status = false.

(** The record the loop appends for an answer of [fetch_talk_details]:
    [asdict(parse_talk(v))] for a truthy one, none for a falsy one. *)
Definition record_of (v : json) : option Dict :=
  if py_truthy v then
    match v with
    | JObj data =>
        match parse_talk data with
        | Ok talk => Some (asdict talk)
        | _ => None
        end
    | _ => None
    end
  else None.

(** A snapshot written to [f] that holds the records [kept], and maybe
    more. *)
Definition holds_records (f : string) (kept : list Dict) (fv : string * json) : Prop :=
  fv.1 = f /\
  exists talks more, fv.2 = JList (map JObj talks) /\ talks ≡ₚ kept ++ more.

(** What a piece of a run does to the file [f]: every list it saves holds
    the records [kept], and when it saves nothing the files are as they
    were. *)
Definition saves_keep (f : string) (kept : list Dict) (w w' : world) : Prop :=
  exists ws,
    writes (trace w') = writes (trace w) ++ ws /\
    Forall (holds_records f kept) ws /\
    (ws = [] -> files w' = files w).




(** ** The URLs of the requests

    [TALKS_ENDPOINT] and the f-strings of [fetch_talk_details] (talks
    scraper), [ENDPOINTS] and [fetch_item_details] (teachers scraper). *)

(** [str(n)] of an int, as an f-string writes it; the int is one that
    [json.load] or [len] returns, within the digits the conversion
    allows. *)
Definition py_str_int (z : Z) : string := NilZero.string_of_int (Z.to_int z).

Definition API_BASE : string := BASE +:+ "/api/1".
Definition TALKS_ENDPOINT : string := API_BASE +:+ "/talks/".

Definition ENDPOINTS : list (string * string) :=
  [ ("teachers", API_BASE +:+ "/teachers/");
    ("talks", API_BASE +:+ "/talks/");
    ("retreats", API_BASE +:+ "/retreats/");
    ("venues", API_BASE +:+ "/venues/") ].

(** [ENDPOINTS.get(endpoint, default)]. *)
Fixpoint endpoints_get (table : list (string * string)) (endpoint default : string)
  : string :=
  match table with
  | [] => default
  | (k, v) :: rest => if String.eqb k endpoint then v else endpoints_get rest endpoint default
  end.

(** [s.rstrip('/')]. *)
Fixpoint py_rstrip_slash (s : string) : string :=
  match s with
  | EmptyString => EmptyString
  | String c rest =>
      match py_rstrip_slash rest with
      | EmptyString => if Ascii.eqb c "/"%char then EmptyString else String c EmptyString
      | r => String c r
      end
  end.

(** The URL a request is made to, as the scrapers build it. *)
Definition url_string (u : url) : string :=
  match u with
  | TalksEndpoint => TALKS_ENDPOINT
  | TalkDetail talk_id => TALKS_ENDPOINT +:+ py_str_int talk_id +:+ "/"
  | ItemDetail endpoint item_id =>
      let base_url := py_rstrip_slash (endpoints_get ENDPOINTS endpoint endpoint) in
      base_url +:+ "/" +:+ py_str_int item_id +:+ "/"
  end.

(** ** Strings, character by character *)

Fixpoint string_map (f : ascii -> ascii) (s : string) : string :=
  match s with
  | EmptyString => EmptyString
  | String c rest => String (f c) (string_map f rest)
  end.

Fixpoint string_filter (p : ascii -> bool) (s : string) : string :=
  match s with
  | EmptyString => EmptyString
  | String c rest => if p c then String c (string_filter p rest) else string_filter p rest
  end.

Fixpoint string_forallb (p : ascii -> bool) (s : string) : bool :=
  match s with
  | EmptyString => true
  | String c rest => p c && string_forallb p rest
  end.

(** ** db/dharmaseed_scrape_teachers.py: photo URLs, teachers and the file *)

Module Teachers.

Definition MEDIA_BASE : string := "https://media.dharmaseed.org".

(** [f"{v}"] for the values whose text is fixed by their JSON type: the
    text of a float and of a container is left out. *)
Definition py_format (v : json) : outcome string :=
  match v with
  | JInt z => Ok (py_str_int z)
  | JStr s => Ok s
  | JNull => Ok "None"
  | JBool true => Ok "True"
  | JBool false => Ok "False"
  | JFloat _ | JList _ | JObj _ => OutOfModel
  end.

(** What follows the last dot of [s], if [s] has a dot. *)
Fixpoint after_last_dot (s : string) : option string :=
  match s with
  | EmptyString => None
  | String c rest =>
      match after_last_dot rest with
      | Some r => Some r
      | None => if Ascii.eqb c "."%char then Some rest else None
      end
  end.

(** [s.split('.')[-1]]. *)
Definition py_split_dot_last (s : string) : string := default s (after_last_dot s).

Definition build_photo_url (teacher_id photo_field : json) : outcome string :=
  if py_truthy photo_field then
    match photo_field with
    | JStr s =>
        tid ← py_format teacher_id;
        Ok (MEDIA_BASE +:+ "/uploads/photos/teacher_" +:+ tid +:+ "_125_0."
            +:+ py_split_dot_last s)
    | _ => Raise AttributeError          (* no [split] on a value that is not a str *)
    end
  else Ok "".

Module Teacher.
Record t := Build {
  id : json;
  name : json;
  url : json;
  photo_url : json;
  bio : json;
  donation_url : json;
  talk_count : json;
  last_talk_date : json
}.
End Teacher.

(** [dataclasses.asdict] on a [Teacher]. *)
Definition asdict (teacher : Teacher.t) : Dict :=
  [ ("id", Teacher.id teacher);
    ("name", Teacher.name teacher);
    ("url", Teacher.url teacher);
    ("photo_url", Teacher.photo_url teacher);
    ("bio", Teacher.bio teacher);
    ("donation_url", Teacher.donation_url teacher);
    ("talk_count", Teacher.talk_count teacher);
    ("last_talk_date", Teacher.last_talk_date teacher) ].

Definition parse_teacher (data : Dict) (talk_count last_talk_date : json)
  : outcome Teacher.t :=
  let tid := py_get data "id" (JInt 0) in
  let photo_field := py_get data "photo" (JStr "") in
  tid_text ← py_format tid;
  photo_url ← build_photo_url tid photo_field;
  Ok (Teacher.Build
        tid
        (py_get data "name" (JStr ""))
        (JStr (BASE +:+ "/teacher/" +:+ tid_text +:+ "/"))
        (JStr photo_url)
        (py_get data "bio" (JStr ""))
        (py_get data "donation_url" (JStr ""))
        talk_count
        last_talk_date).

(** [d[key] = v] on a dict in insertion order: a key that is there keeps
    its place. *)
Fixpoint py_setitem (d : Dict) (key : string) (v : json) : Dict :=
  match d with
  | [] => [(key, v)]
  | (k, x) :: d' =>
      if String.eqb k key then (k, v) :: d' else (k, x) :: py_setitem d' key v
  end.

(** The dict [db] that [save_to_json] dumps, [items] being the
    [asdict(item)] of the data. *)
Definition db (items : list Dict) (source_type : string) : Dict :=
  py_setitem
    (py_setitem [ ("source", JStr BASE) ] "api"
                (JStr (endpoints_get ENDPOINTS source_type "")))
    source_type (JList (map JObj items)).

(** [save_to_json], which returns the line it prints. *)
Definition save_to_json {T} (asdict_item : T -> Dict) (data : list T)
    (filename source_type : string) : M string :=
  write_json filename (JObj (db (map asdict_item data) source_type));;
  mret ("OK: " +:+ py_str_int (Z.of_nat (length data)) +:+ " " +:+ source_type
        +:+ " -> " +:+ filename).

(** [ids[:limit]] under [if limit:]. *)
Definition limit_ids (limit : option Z) (ids : list Z) : list Z :=
  match limit with
  | None => ids
  | Some l => if l =? 0 then ids else py_slice_to l ids
  end.

(** The loop of [fetch_all_items]; [out] collects the lines the function
    prints itself. *)
Fixpoint fetch_all_items_loop (endpoint : string) (delay_s : Q) (total : nat)
    (i : nat) (ids : list Z) (items : list json) (out : list string)
  : M (list json * list string) :=
  match ids with
  | [] => mret (items, out)
  | item_id :: rest =>
      result ← fetch_item_details endpoint item_id 5;
      let items := if py_truthy result then items ++ [result] else items in
      let out :=
        if Z.of_nat (S i) mod 50 =? 0
        then out ++ [ "  Progress: " +:+ py_str_int (Z.of_nat (S i)) +:+ "/"
                      +:+ py_str_int (Z.of_nat total) ]
        else out in
      sleep delay_s;;
      fetch_all_items_loop endpoint delay_s total (S i) rest items out
  end.

(** [fetch_all_items] from the point where [fetch_item_ids] has returned
    [ids]: the items, and the lines printed. *)
Definition fetch_all_items (endpoint : string) (ids : list Z) (limit : option Z)
    (delay_s : Q) : M (list json * list string) :=
  let ids := limit_ids limit ids in
  let total := length ids in
  '(items, out) ←
    fetch_all_items_loop endpoint delay_s total 0 ids []
      [ "Fetching " +:+ py_str_int (Z.of_nat total) +:+ " " +:+ endpoint +:+ "..." ];
  mret (items,
        out ++ [ "  Completed: " +:+ py_str_int (Z.of_nat (length items)) +:+ "/"
                 +:+ py_str_int (Z.of_nat total) +:+ " fetched successfully" ]).

End Teachers.

(** ** db/dharmaseed_scrape_teachers.py: the cached talk counts *)

Module TeachersCache.
Import Teachers.

(** [int(s)] on an optional minus sign followed by digits; the other texts
    [int] accepts (a plus sign, blanks, underscores) and the texts beyond
    the length limit of the conversion are left out. *)
Definition py_int (s : string) : outcome Z :=
  if String.eqb s "" || String.eqb s "-" then Raise ValueError
  else if (4300 <? String.length s)%nat then OutOfModel
  else
    match NilZero.int_of_string s with
    | Some d => Ok (Z.of_int d)
    | None => OutOfModel
    end.

(** The entry [count_talks_per_teacher] keeps for a teacher with talks. *)
Definition count_entry (count : Z) (last_talk_date : string) : json :=
  JObj [ ("count", JInt count); ("last_talk_date", JStr last_talk_date) ].

(** The dict [talk_counts_data] that [count_talks_per_teacher] dumps;
    [json.dump] writes the int keys of [results] as their text. *)
Definition talk_counts_data (results : list (Z * json)) (total_talks : Z) : Dict :=
  [ ("source", JStr BASE);
    ("method", JStr "RSS feeds");
    ("total_talks", JInt total_talks);
    ("talk_counts", JObj (map (fun kv => (py_str_int kv.1, kv.2)) results)) ].

(** [{int(k): v for k, v in items}]. *)
Fixpoint int_keys (items : list (string * json)) (acc : gmap Z json)
  : outcome (gmap Z json) :=
  match items with
  | [] => Ok acc
  | (k, v) :: rest =>
      z ← py_int k;
      int_keys rest (<[z := v]> acc)
  end.

(** [load_talk_counts]: the counts, and the line printed if any. *)
Definition load_talk_counts : M (gmap Z json * list string) :=
  content ← read_file "dharmaseed_talk_counts.json";
  match content with
  | None => mret (∅, [ "  No cached talk counts found, will fetch fresh data" ])
  | Some NotUtf8 => raise UnicodeDecodeError
  | Some NotJson => raise JSONDecodeError
  | Some (JsonText (JObj data)) =>
      match py_get data "talk_counts" (JObj []) with
      | JObj items =>
          counts ← lift (int_keys items ∅);
          mret (counts, [])
      | _ => raise AttributeError               (* .items() *)
      end
  | Some (JsonText _) => raise AttributeError   (* data.get *)
  | Some (Unparsed e) => raise (parser_exn e)
  end.

(** [talk_counts.get(key, 0)] for the ID of an item. *)
Definition counts_get (talk_counts : gmap Z json) (key : json) : outcome json :=
  match key with
  | JInt z => Ok (default (JInt 0) (talk_counts !! z))
  | JStr _ | JNull => Ok (JInt 0)
  | JList _ | JObj _ => Raise TypeError         (* unhashable *)
  | JBool _ | JFloat _ => OutOfModel            (* equal to an int key or not *)
  end.

(** [[parse_teacher(item, talk_counts.get(item.get("id", 0), 0)) for item
    in items]] of [fetch_teachers]. *)
Fixpoint parse_teachers (items : list json) (talk_counts : gmap Z json)
  : outcome (list Teacher.t) :=
  match items with
  | [] => Ok []
  | JObj data :: rest =>
      talk_count ← counts_get talk_counts (py_get data "id" (JInt 0));
      teacher ← parse_teacher data talk_count (JStr "");
      teachers ← parse_teachers rest talk_counts;
      Ok (teacher :: teachers)
  | _ :: _ => Raise AttributeError              (* item.get *)
  end.
End TeachersCache.

(** ** db/generate_redirects.py *)

Module Redirects.
Import Teachers.

Definition is_ascii (c : ascii) : bool := (nat_of_ascii c <? 128)%nat.
Definition is_upper (c : ascii) : bool :=
  (65 <=? nat_of_ascii c)%nat && (nat_of_ascii c <=? 90)%nat.
(** [a-z0-9]. *)
Definition is_lower_alnum (c : ascii) : bool :=
  ((97 <=? nat_of_ascii c)%nat && (nat_of_ascii c <=? 122)%nat) ||
  ((48 <=? nat_of_ascii c)%nat && (nat_of_ascii c <=? 57)%nat).
(** [\s] on ASCII: tab to carriage return, the four separators, space. *)
Definition is_space (c : ascii) : bool :=
  ((9 <=? nat_of_ascii c)%nat && (nat_of_ascii c <=? 13)%nat) ||
  ((28 <=? nat_of_ascii c)%nat && (nat_of_ascii c <=? 32)%nat).

Definition lower (c : ascii) : ascii :=
  if is_upper c then ascii_of_nat (nat_of_ascii c + 32) else c.

(** [slugify] on an ASCII name; a name with other characters is left out
    ([str.lower] is not modelled on them). *)
Definition slugify (name : string) : outcome string :=
  if string_forallb is_ascii name then
    let slug := string_map lower name in
    let slug := string_filter (fun c => is_lower_alnum c || is_space c) slug in
    let slug := string_filter (fun c => negb (is_space c)) slug in
    Ok slug
  else OutOfModel.

(** [v == 0]. *)
Definition py_eq_zero (v : json) : bool :=
  match v with
  | JInt z => z =? 0
  | JBool b => negb b
  | JFloat bits => (bits =? 0) || (bits =? 2 ^ 63)
  | _ => false
  end.

Definition redirect_line (slug tid : string) : string :=
  "/" +:+ slug +:+ "  /#teacher/" +:+ tid +:+ "  302".

(** One iteration of [for t in teachers]. *)
Definition redirect_step (t : json) (used_slugs : gmap string json)
    (redirects : list string) : outcome (gmap string json * list string) :=
  match t with
  | JObj d =>
      if py_eq_zero (py_get d "talk_count" (JInt 0)) then Ok (used_slugs, redirects)
      else
        let name := py_get d "name" (JStr "") in
        let tid := py_get d "id" JNull in
        if negb (py_truthy name) || negb (py_truthy tid) then Ok (used_slugs, redirects)
        else
          match name with
          | JStr n =>
              slug ← slugify n;
              if String.eqb slug "" then Ok (used_slugs, redirects)
              else
                tid_text ← py_format tid;
                let slug :=
                  if bool_decide (is_Some (used_slugs !! slug))
                  then slug +:+ tid_text else slug in
                Ok (<[slug := tid]> used_slugs, redirects ++ [redirect_line slug tid_text])
          | _ => Raise AttributeError       (* name.lower() *)
          end
  | _ => Raise AttributeError               (* t.get *)
  end.

Fixpoint redirect_loop (teachers : list json) (used_slugs : gmap string json)
    (redirects : list string) : outcome (gmap string json * list string) :=
  match teachers with
  | [] => Ok (used_slugs, redirects)
  | t :: rest =>
      '(used_slugs, redirects) ← redirect_step t used_slugs redirects;
      redirect_loop rest used_slugs redirects
  end.

(** [redirects.sort()]. *)
Fixpoint insert_str (x : string) (l : list string) : list string :=
  match l with
  | [] => [x]
  | y :: l' => if String.leb x y then x :: l else y :: insert_str x l'
  end.
Definition sort_str (l : list string) : list string := foldr insert_str [] l.

Definition newline : string := String (ascii_of_nat 10) EmptyString.

(** The text written to [_redirects]. *)
Definition redirects_text (redirects : list string) : string :=
  "# Teacher vanity URLs - auto-generated" +:+ newline +:+
  "# Format: /slug -> /#teacher/id" +:+ newline +:+ newline +:+
  foldr (fun r text => r +:+ newline +:+ text) "" redirects.

(** The teacher [d] is passed over: it has no talks, no name, no ID, or a
    name without a letter or digit. *)
Definition skipped (d : Dict) : Prop :=
  py_eq_zero (py_get d "talk_count" (JInt 0)) = true \/
  py_truthy (py_get d "name" (JStr "")) = false \/
  py_truthy (py_get d "id" JNull) = false \/
  exists n, py_get d "name" (JStr "") = JStr n /\ slugify n = Ok "".

(** [line] redirects the slug of the teacher [d], or that slug followed by
    the ID, to the page of [d]. *)
Definition redirect_of (d : Dict) (line : string) : Prop :=
  py_eq_zero (py_get d "talk_count" (JInt 0)) = false /\
  py_truthy (py_get d "id" JNull) = true /\
  exists n slug tid_text,
    py_get d "name" (JStr "") = JStr n /\ slugify n = Ok slug /\ slug <> "" /\
    py_format (py_get d "id" JNull) = Ok tid_text /\
    (line = redirect_line slug tid_text \/
     line = redirect_line (slug +:+ tid_text) tid_text).

(** What the loop makes of one element of [teachers]. *)
Definition teacher_outcome (t : json) (o : option string) : Prop :=
  exists d, t = JObj d /\
    match o with
    | None => skipped d
    | Some line => redirect_of d line
    end.

(** [generate_redirects] from the point where [json.load] has returned
    [data]: the sorted redirects, the text written and the lines printed. *)
Definition generate_redirects (redirects_path : string) (data : json)
  : outcome (list string * string * list string) :=
  match data with
  | JObj d =>
      teachers ←
        match py_get d "teachers" (JList []) with
        | JList teachers => Ok teachers
        | JStr "" | JObj [] => Ok []
        | JStr _ | JObj (_ :: _) => Raise AttributeError    (* t.get on a str *)
        | JNull | JBool _ | JInt _ | JFloat _ => Raise TypeError    (* not iterable *)
        end;
      '(_, redirects) ← redirect_loop teachers ∅ [];
      let redirects := sort_str redirects in
      Ok (redirects, redirects_text redirects,
          [ "Generated " +:+ py_str_int (Z.of_nat (length redirects))
            +:+ " redirects -> " +:+ redirects_path;
            newline +:+ "Examples:" ]
          ++ map (fun r => "  " +:+ r) (take 5 redirects))
  | _ => Raise AttributeError                (* data.get *)
  end.
End Redirects.

(** ** Example inputs *)

Module Examples.
Import Server.

(** An upstream that answers the talks listing, refuses a feed and
    cannot be reached for anything else. *)
Definition upstream (up : upstream_request) : urlopen_result :=
  if String.eqb (target_url up) "https://www.dharmaseed.org/api/1/talks/"
  then Responded (Some "application/json") [Byte.x7b; Byte.x7d]
  else if String.prefix "https://www.dharmaseed.org/feeds/" (target_url up)
  then RaisedHTTPError 404 "Not Found"
  else RaisedOther "timed out".

Definition get_feed : request :=
  {| path := "/feeds/teacher/5/"; req_content_length := CLAbsent;
     req_content_type := None; rfile := [] |}.

(** A talk as the detail endpoint describes it. *)
Definition payload (i : Z) : json :=
  JObj [ ("id", JInt i); ("title", JStr "Metta");
         ("teacher_id", JInt 96); ("rec_date", JStr "2019-10-27");
         ("audio_url", JStr "/talks/1/a.mp3") ].

Definition listing (ids : list Z) : response :=
  Http 200 (Some (JObj [ ("edition", JStr "e"); ("items", JList (map JInt ids)) ])).

Definition snapshot_file : string := "dharmaseed_talks.json".

(** A remote that rate-limits the first three requests. *)
Definition rate_limited (n : nat) (u : url) : response :=
  if (n <? 3)%nat then Http 429 None
  else match u with
       | TalksEndpoint => listing [7]
       | TalkDetail i | ItemDetail _ i => Http 200 (Some (payload i))
       end.
Definition w_rate_limited : world := World ∅ rate_limited 0 [].

(** Snapshot files of three kinds. *)
Definition unreachable (n : nat) (u : url) : response := NetFail ConnectionError.
Definition w_absent : world := World ∅ unreachable 0 [].
Definition w_missing_id : world :=
  World {[ snapshot_file :=
             JsonText (JList [ JObj [("id", JInt 3)]; JObj [("title", JStr "x")] ]) ]}
        unreachable 0 [].

(** The record [parse_talk] and [asdict] make of [payload i]. *)
Definition fetched (i : Z) : Dict :=
  [ ("id", JInt i); ("title", JStr "Metta"); ("teacher_id", JInt 96);
    ("description", JStr ""); ("rec_date", JStr "2019-10-27");
    ("duration_in_minutes", JInt 0); ("venue_id", JNull); ("retreat_id", JNull);
    ("language_id", JInt 1); ("recording_type", JStr "");
    ("audio_url", JStr "https://dharmaseed.org/talks/1/a.mp3") ].

(** A remote that lists the talks 7, 3, 9 and 5 and serves each of them. *)
Definition serving (n : nat) (u : url) : response :=
  match u with
  | TalksEndpoint => listing [7; 3; 9; 5]
  | TalkDetail i => Http 200 (Some (payload i))
  | ItemDetail _ _ => Http 404 None
  end.

(** A snapshot that holds talk 3 already. *)
Definition w_snapshot : world :=
  World {[ snapshot_file := JsonText (JList [ JObj (fetched 3) ]) ]} serving 0 [].

(** A remote on which talk 1 is gone and every other talk is served. *)
Definition talk_1_gone (n : nat) (u : url) : response :=
  match u with
  | TalksEndpoint => listing [1; 2; 3]
  | TalkDetail 1 => Http 404 None
  | TalkDetail i => Http 200 (Some (payload i))
  | ItemDetail _ _ => Http 404 None
  end.
Definition w_talk_1_gone : world := World ∅ talk_1_gone 0 [].

(** A remote that lists talk 7 twice. *)
Definition listing_twice (n : nat) (u : url) : response :=
  match u with
  | TalksEndpoint => listing [7; 7]
  | TalkDetail i => Http 200 (Some (payload i))
  | ItemDetail _ _ => Http 404 None
  end.
Definition w_listing_twice : world := World ∅ listing_twice 0 [].

Definition default_args : Args :=
  {| arg_limit := 100; arg_delay := 3 # 10; arg_output := snapshot_file;
     arg_save_interval := 100; arg_fresh := false |}.

(** [--fresh] with the other defaults. *)
Definition fresh_args : Args :=
  {| arg_limit := 100; arg_delay := 3 # 10; arg_output := snapshot_file;
     arg_save_interval := 100; arg_fresh := true |}.
(** A POST whose Content-Length is not a number. *)
Definition post_bad_length : request :=
  {| path := "/api/talks/";
     req_content_length := CLInvalid "invalid literal for int() with base 10: 'abc'";
     req_content_type := None; rfile := [] |}.
(** A snapshot whose one record has an ID and nothing else. *)
Definition w_bare_record : world :=
  World {[ snapshot_file := JsonText (JList [ JObj [("id", JInt 3)] ]) ]} serving 0 [].
(** Three teachers as the teachers scraper stores them: one without
    talks, and two whose names give the same slug. *)
Definition teachers : list Teachers.Teacher.t :=
  [ Teachers.Teacher.Build (JInt 86) (JStr "James Baraz")
      (JStr "https://dharmaseed.org/teacher/86/") (JStr "") (JStr "") (JStr "")
      (JInt 3) (JStr "2019-10-27");
    Teachers.Teacher.Build (JInt 5) (JStr "Zed")
      (JStr "https://dharmaseed.org/teacher/5/") (JStr "") (JStr "") (JStr "")
      (JInt 0) (JStr "");
    Teachers.Teacher.Build (JInt 7) (JStr "james-baraz")
      (JStr "https://dharmaseed.org/teacher/7/") (JStr "") (JStr "") (JStr "")
      (JInt 1) (JStr "2020-01-05") ].

(** The dict the teachers scraper dumps for them. *)
Definition teachers_file : Dict :=
  Teachers.db (map Teachers.asdict teachers) "teachers".
(** The cache of talk counts as [count_talks_per_teacher] writes it for
    one teacher with three talks. *)
Definition w_counts_cached : world :=
  World {[ "dharmaseed_talk_counts.json" :=
             JsonText (JObj (TeachersCache.talk_counts_data
                               [ (86, TeachersCache.count_entry 3 "2019-10-27") ] 3)) ]}
        unreachable 0 [].
End Examples.

(** * Properties *)

(** ** The forwarding proxy *)

Module ServerFacts.
Import Server.

Lemma py_slice_from_app (p s : string) :
  py_slice_from (String.length p) (p +:+ s) = s.
Proof. induction p as [|c p IH]; [by destruct s|]. exact IH. Qed.

Lemma prefix_app (p s : string) : String.prefix p (p +:+ s) = true.
Proof.
  induction p as [|c p IH]; [by destruct s|].
  change (String c p +:+ s) with (String c (p +:+ s)). simpl.
  by destruct (Ascii.ascii_dec c c).
Qed.





(** C9. Failure mapping of the proxy: once the request is forwarded (its
    Content-Length, if any, reads as an int), an HTTPError of the remote
    call with code [s] and reason [r] becomes [send_error(s, r)]; any
    other exception becomes [send_error(500, text)] with the text of the
    exception; a remote success becomes a 200 response with the remote
    Content-Type, the remote body unchanged and
    [Access-Control-Allow-Origin: *]. *)
Theorem proxy_failure_mapping (urlopen : upstream_request -> urlopen_result)
    (self : request) (target : string) (n : Z) :
  req_content_length self = CLAbsent /\ n = 0 \/ req_content_length self = CLValue n ->
  let up := upstream_of self target n in
  target_url up = target /\
  (forall s r, urlopen up = RaisedHTTPError s r ->
     (proxy_request urlopen self target).1 = SendError s r) /\
  (forall text, urlopen up = RaisedOther text ->
     (proxy_request urlopen self target).1 = SendError 500 text) /\
  (forall ctype body, urlopen up = Responded ctype body ->
     exists headers,
       (proxy_request urlopen self target).1 = Response 200 headers body /\
       headers !! 0%nat
         = Some ("Content-Type", HStr (default "application/octet-stream" ctype)) /\
       (forall c, ctype = Some c -> ("Content-Type", HStr c) ∈ headers) /\
       ("Access-Control-Allow-Origin", HStr "*") ∈ headers).
Proof.
  intros Hcl up.
  assert (Hreq : proxy_request urlopen self target
                 = match urlopen up with
                   | Responded content_type data =>
                       (Response 200
                          [ ("Content-Type",
                             HStr (default "application/octet-stream" content_type));
                            ("Content-Length", HInt (length data));
                            ("Access-Control-Allow-Origin", HStr "*") ]
                          data, [])
                   | RaisedHTTPError code reason => (SendError code reason, [])
                   | RaisedOther text => (SendError 500 text, ["Proxy error: " +:+ text])
                   end).
  { unfold proxy_request, up. by destruct Hcl as [[-> ->]| ->]. }
  split; [done|]. rewrite Hreq. split; [|split].
  - by intros s r ->.
  - by intros text ->.
  - intros ctype body ->. eexists. split; [done|]. split; [done|]. split.
    + intros c ->. apply list_elem_of_here.
    + do 2 apply list_elem_of_further. apply list_elem_of_here.
Qed.

Lemma proxy_failure_mapping_witness :
  (proxy_request Examples.upstream Examples.get_feed
     "https://www.dharmaseed.org/feeds/teacher/5/").1
  = SendError 404 "Not Found".
Proof.
  refine (proj1 (proj2 (proxy_failure_mapping Examples.upstream Examples.get_feed
                   "https://www.dharmaseed.org/feeds/teacher/5/" 0 _)) 404 "Not Found" _).
  - left. split; reflexivity.
  - reflexivity.
Defined.

End ServerFacts.

(** ** The monad *)

Lemma bind_ok {A B} (m : M A) (f : A -> M B) w a w1 :
  m w = (Ok a, w1) -> (m ≫= f) w = f a w1.
Proof. intros H. unfold mbind, M_bind, bind. by rewrite H. Qed.

Lemma bind_raise {A B} (m : M A) (f : A -> M B) w e w1 :
  m w = (Raise e, w1) -> (m ≫= f) w = (Raise e, w1).
Proof. intros H. unfold mbind, M_bind, bind. by rewrite H. Qed.

Lemma bind_oom {A B} (m : M A) (f : A -> M B) w w1 :
  m w = (OutOfModel, w1) -> (m ≫= f) w = (OutOfModel, w1).
Proof. intros H. unfold mbind, M_bind, bind. by rewrite H. Qed.

Lemma bind_inv {A B} (m : M A) (f : A -> M B) w r w' :
  (m ≫= f) w = (r, w') ->
  (exists a w1, m w = (Ok a, w1) /\ f a w1 = (r, w')) \/
  (exists e, m w = (Raise e, w') /\ r = Raise e) \/
  (m w = (OutOfModel, w') /\ r = OutOfModel).
Proof.
  unfold mbind, M_bind, bind. destruct (m w) as [[a|e|] w1]; intros H.
  - left. eauto.
  - right. left. exists e. by inversion H.
  - right. right. by inversion H.
Qed.

Lemma bind_Ok_inv {A B} (m : M A) (f : A -> M B) w b w' :
  (m ≫= f) w = (Ok b, w') ->
  exists a w1, m w = (Ok a, w1) /\ f a w1 = (Ok b, w').
Proof.
  intros [H|[(e & _ & H)|[_ H]]]%bind_inv; [done| |]; discriminate.
Qed.

Lemma bind_mret {A B} (a : A) (f : A -> M B) w : (mret a ≫= f) w = f a w.
Proof. done. Qed.

Lemma bind_lift {A B} (o : outcome A) (f : A -> M B) w :
  (lift o ≫= f) w
  = match o with Ok a => f a w | Raise e => (Raise e, w) | OutOfModel => (OutOfModel, w) end.
Proof. by destruct o. Qed.

Lemma bind_raise_eq {A B} e (f : A -> M B) w : (raise e ≫= f) w = (Raise e, w).
Proof. done. Qed.

Lemma bind_assoc {A B C} (m : M A) (g : A -> M B) (k : B -> M C) w :
  ((m ≫= g) ≫= k) w = (m ≫= fun a => g a ≫= k) w.
Proof. unfold mbind, M_bind, bind. by destruct (m w) as [[]]. Qed.

Lemma emit_eq e w :
  emit e w = (Ok tt, World (files w) (remote w) (requests_made w) (trace w ++ [e])).
Proof. done. Qed.

Lemma print_eq m w :
  print m w
  = (Ok tt, World (files w) (remote w) (requests_made w) (trace w ++ [EvPrint m])).
Proof. done. Qed.

Lemma read_file_eq f w : read_file f w = (Ok (files w !! f), w).
Proof. done. Qed.

Lemma sleep_nonneg z w :
  0 <= z ->
  sleep (inject_Z z) w
  = (Ok tt, World (files w) (remote w) (requests_made w) (trace w ++ [EvSleep (inject_Z z)])).
Proof.
  intros Hz. unfold sleep. simpl.
  by destruct (Z.ltb_spec z 0); [lia|].
Qed.

(** ** Retry and backoff *)

Lemma backoff_events_S u a n :
  backoff_events u a (S n)
  = [ EvGet u; EvPrint (MsgRateLimited ((Z.of_nat a + 1) * 5));
      EvSleep (inject_Z ((Z.of_nat a + 1) * 5)) ] ++ backoff_events u (S a) n.
Proof. done. Qed.

(** [n] answers 429 and then an accepted answer: the loop returns the
    payload of that answer after the [n] waits. *)
Lemma retry_loop_backoff u max_retries n :
  forall a k w status payload,
    (forall j, (j < n)%nat -> exists b, remote w (requests_made w + j)%nat u = Http 429 b) ->
    remote w (requests_made w + n)%nat u = Http status (Some payload) ->
    status <> 429 -> is_error_status status = false ->
    retry_loop u max_retries (seq a (n + S k)) w
    = (Ok payload,
       World (files w) (remote w) (requests_made w + S n)%nat
             (trace w ++ backoff_events u a n ++ [EvGet u])).
Proof.
  induction n as [|n IH]; intros a k w status payload H429 Hok Hne Herr.
  - simpl. unfold mbind, M_bind, bind, http_get.
    rewrite Nat.add_0_r in Hok. rewrite Hok.
    destruct (Z.eqb_spec status 429) as [|_]; [done|]. rewrite Herr.
    unfold mret, M_ret, ret. do 3 f_equal. lia.
  - change (seq a (S n + S k)) with (a :: seq (S a) (n + S k)).
    destruct (H429 0%nat ltac:(lia)) as [b Hb]. rewrite Nat.add_0_r in Hb.
    cbn [retry_loop]. unfold mbind at 1, M_bind at 1, bind at 1, http_get at 1.
    rewrite Hb. change (429 =? 429) with true. cbv iota.
    rewrite (bind_ok _ _ _ _ _ (print_eq _ _)).
    rewrite (bind_ok _ _ _ _ _ (sleep_nonneg ((Z.of_nat a + 1) * 5) _ ltac:(lia))).
    erewrite IH; [|simpl; intros j Hj|simpl|done..].
    + rewrite backoff_events_S. simpl. rewrite <- !app_assoc. simpl.
      do 3 f_equal. lia.
    + destruct (H429 (S j) ltac:(lia)) as [b' Hb'].
      exists b'. rewrite <- Hb'. f_equal. lia.
    + rewrite <- Hok. f_equal. lia.
Qed.

Lemma sleeps_app tr1 tr2 : sleeps (tr1 ++ tr2) = sleeps tr1 ++ sleeps tr2.
Proof. apply omap_app. Qed.

Lemma sleeps_backoff_events u a n :
  sleeps (backoff_events u a n)
  = map (fun k => inject_Z ((Z.of_nat k + 1) * 5)) (seq a n).
Proof.
  revert a. induction n as [|n IH]; intros a; [done|].
  rewrite backoff_events_S, sleeps_app, IH. done.
Qed.

Lemma backoff_waits_lookup n i q :
  backoff_waits n !! i = Some q -> q = inject_Z ((Z.of_nat i + 1) * 5).
Proof.
  unfold backoff_waits. rewrite list_lookup_fmap.
  destruct (seq 0 n !! i) as [k|] eqn:Hk; [|done].
  apply lookup_seq in Hk as [-> _]. simpl. by intros [= <-].
Qed.

(** C5. Retry and backoff: when the remote answers the first [n] requests
    for a talk with 429 ([n] below the retry ceiling) and the next one with
    an accepted status and a JSON payload, [fetch_talk_details] returns
    that payload; it has slept [(attempt+1) * 5] seconds after the 429 of
    each attempt and nothing else, and these waits increase strictly. *)
Theorem retry_backoff (talk_id max_retries : Z) (n : nat) (w : world)
    (status : Z) (payload : json) :
  Z.of_nat n < max_retries ->
  (forall j, (j < n)%nat ->
     exists b, remote w (requests_made w + j)%nat (TalkDetail talk_id) = Http 429 b) ->
  remote w (requests_made w + n)%nat (TalkDetail talk_id) = Http status (Some payload) ->
  status <> 429 -> is_error_status status = false ->
  exists w',
    fetch_talk_details talk_id max_retries w = (Ok payload, w') /\
    trace w' = trace w ++ EvFetchDetails talk_id
                 :: backoff_events (TalkDetail talk_id) 0 n ++ [EvGet (TalkDetail talk_id)] /\
    sleeps (trace w') = sleeps (trace w) ++ backoff_waits n /\
    (forall i j qi qj, (i < j)%nat ->
       backoff_waits n !! i = Some qi -> backoff_waits n !! j = Some qj -> (qi < qj)%Q).
Proof.
  intros Hn H429 Hok Hne Herr.
  unfold fetch_talk_details.
  rewrite (bind_ok _ _ _ _ _ (emit_eq _ _)).
  replace (Z.to_nat max_retries) with (n + S (Z.to_nat max_retries - S n))%nat by lia.
  erewrite retry_loop_backoff; [|exact H429|exact Hok|done..].
  eexists. split; [done|]. simpl. split; [|split].
  - by rewrite <- app_assoc.
  - rewrite <- app_assoc, !sleeps_app, sleeps_backoff_events. simpl.
    by rewrite app_nil_r.
  - intros i j qi qj Hij ->%backoff_waits_lookup ->%backoff_waits_lookup.
    unfold Qlt. simpl. lia.
Qed.

Lemma retry_backoff_witness :
  exists w',
    fetch_talk_details 7 5 Examples.w_rate_limited = (Ok (Examples.payload 7), w') /\
    trace w' = trace Examples.w_rate_limited ++ EvFetchDetails 7
                 :: backoff_events (TalkDetail 7) 0 3 ++ [EvGet (TalkDetail 7)] /\
    sleeps (trace w') = sleeps (trace Examples.w_rate_limited) ++ backoff_waits 3 /\
    (forall i j qi qj, (i < j)%nat ->
       backoff_waits 3 !! i = Some qi -> backoff_waits 3 !! j = Some qj -> (qi < qj)%Q).
Proof.
  apply (retry_backoff 7 5 3 Examples.w_rate_limited 200 (Examples.payload 7)).
  - lia.
  - intros j Hj. exists None.
    do 3 (destruct j as [|j]; [reflexivity|]). lia.
  - reflexivity.
  - discriminate.
  - reflexivity.
Defined.

(** The same for [fetch_item_details] of the teachers scraper. *)
Lemma retry_backoff_items (endpoint : string) (item_id max_retries : Z) (n : nat)
    (w : world) (status : Z) (payload : json) :
  Z.of_nat n < max_retries ->
  (forall j, (j < n)%nat ->
     exists b, remote w (requests_made w + j)%nat (ItemDetail endpoint item_id) = Http 429 b) ->
  remote w (requests_made w + n)%nat (ItemDetail endpoint item_id)
  = Http status (Some payload) ->
  status <> 429 -> is_error_status status = false ->
  exists w',
    fetch_item_details endpoint item_id max_retries w = (Ok payload, w') /\
    sleeps (trace w') = sleeps (trace w) ++ backoff_waits n.
Proof.
  intros Hn H429 Hok Hne Herr. unfold fetch_item_details.
  replace (Z.to_nat max_retries) with (n + S (Z.to_nat max_retries - S n))%nat by lia.
  erewrite retry_loop_backoff; [|exact H429|exact Hok|done..].
  eexists. split; [done|]. simpl.
  rewrite !sleeps_app, sleeps_backoff_events. simpl. by rewrite app_nil_r.
Qed.

(** ** Loading the snapshot *)








(** ** Frames *)

#[global] Instance quiet_preorder : PreOrder quiet.
Proof.
  split.
  - by intros w.
  - intros w1 w2 w3 (?&?&?&?) (?&?&?&?). repeat split; congruence.
Qed.

#[global] Instance offline_preorder : PreOrder offline.
Proof.
  split.
  - by intros w.
  - intros w1 w2 w3 [? ?] [? ?]. split; [by etrans|congruence].
Qed.

#[global] Instance writes_only_preorder P : PreOrder (writes_only P).
Proof.
  split.
  - intros w. split; [done|]. exists []. by rewrite app_nil_r.
  - intros w1 w2 w3 [? (ws1 & E1 & F1)] [? (ws2 & E2 & F2)].
    split; [congruence|]. exists (ws1 ++ ws2).
    rewrite E2, E1, <- app_assoc. split; [done|]. by apply Forall_app.
Qed.

Lemma offline_quiet w w' : offline w w' -> quiet w w'.
Proof. by intros [? _]. Qed.

Lemma quiet_writes_only P w w' : quiet w w' -> writes_only P w w'.
Proof.
  intros (?&?&Hw&?). split; [done|]. exists []. by rewrite app_nil_r.
Qed.

Section Respects.
Context {R : relation world} `{!PreOrder R}.

Lemma respects_ret {A} (a : A) : respects R (mret a).
Proof. intros w r w' [= _ <-]. reflexivity. Qed.

Lemma respects_raise {A} e : respects R (raise (A:=A) e).
Proof. intros w r w' [= _ <-]. reflexivity. Qed.

Lemma respects_lift {A} (o : outcome A) : respects R (lift o).
Proof. intros w r w' [= _ <-]. reflexivity. Qed.

Lemma respects_bind_strong {A B} (m : M A) (f : A -> M B) :
  respects R m ->
  (forall w a w1, m w = (Ok a, w1) -> forall r w', f a w1 = (r, w') -> R w1 w') ->
  respects R (m ≫= f).
Proof.
  intros Hm Hf w r w' [(a & w1 & Ha & Hb)|[(e & Ha & _)|[Ha _]]]%bind_inv.
  - etrans; [by eapply Hm|by eapply Hf].
  - by eapply Hm.
  - by eapply Hm.
Qed.

Lemma respects_bind {A B} (m : M A) (f : A -> M B) :
  respects R m -> (forall a, respects R (f a)) -> respects R (m ≫= f).
Proof.
  intros Hm Hf. apply respects_bind_strong; [done|].
  intros w a w1 _ r w'. apply Hf.
Qed.
End Respects.

Lemma respects_weaken {A} (R R' : relation world) (m : M A) :
  (forall w w', R w w' -> R' w w') -> respects R m -> respects R' m.
Proof. intros HR Hm w r w' H. by eapply HR, Hm. Qed.

Lemma writes_app tr1 tr2 : writes (tr1 ++ tr2) = writes tr1 ++ writes tr2.
Proof. apply omap_app. Qed.

Lemma detail_calls_app tr1 tr2 :
  detail_calls (tr1 ++ tr2) = detail_calls tr1 ++ detail_calls tr2.
Proof. apply omap_app. Qed.

Lemma respects_print m : respects offline (print m).
Proof.
  intros w r w' [= _ <-]. repeat split; simpl.
  - by rewrite writes_app, app_nil_r.
  - by rewrite detail_calls_app, app_nil_r.
Qed.

Lemma respects_sleep s : respects offline (sleep s).
Proof.
  intros w r w'. unfold sleep. destruct (Qnum s <? 0).
  - intros [= _ <-]. reflexivity.
  - intros [= _ <-]. repeat split; simpl.
    + by rewrite writes_app, app_nil_r.
    + by rewrite detail_calls_app, app_nil_r.
Qed.

Lemma respects_read_file f : respects offline (read_file f).
Proof. intros w r w' [= _ <-]. reflexivity. Qed.

Lemma respects_http_get u : respects quiet (http_get u).
Proof.
  intros w r w' [= _ <-]. repeat split; simpl.
  - by rewrite writes_app, app_nil_r.
  - by rewrite detail_calls_app, app_nil_r.
Qed.

Create HintDb frame discriminated.
#[global] Hint Resolve respects_print respects_sleep respects_read_file : frame.
#[global] Hint Extern 1 (respects quiet (print _)) =>
  apply (respects_weaken offline quiet _ offline_quiet), respects_print : frame.
#[global] Hint Extern 1 (respects quiet (sleep _)) =>
  apply (respects_weaken offline quiet _ offline_quiet), respects_sleep : frame.
#[global] Hint Resolve respects_http_get : frame.

(** Straight-line code: split at every bind and branch, close the leaves
    with the lemmas of the primitives. *)
Ltac frame_step :=
  lazymatch goal with
  | |- respects _ (mbind _ _) => apply respects_bind; [|intros ?]
  | |- respects _ (mret _) => apply respects_ret
  | |- respects _ (raise _) => apply respects_raise
  | |- respects _ (lift _) => apply respects_lift
  | |- respects _ (match ?x with _ => _ end) => destruct x
  | |- respects _ _ => solve [eauto with frame]
  end.
Ltac frame := repeat frame_step.

Lemma respects_load filename : respects offline (load_existing_talks filename).
Proof. unfold load_existing_talks. frame. Qed.

Lemma respects_fetch_talk_ids : respects quiet fetch_talk_ids.
Proof. unfold fetch_talk_ids. frame. Qed.

Lemma respects_retry_loop u max_retries attempts :
  respects quiet (retry_loop u max_retries attempts).
Proof.
  induction attempts as [|attempt rest IH]; simpl; [apply respects_ret|].
  frame.
Qed.

(** ** Sorting by ID *)

Lemma insert_desc_perm x l : insert_desc x l ≡ₚ x :: l.
Proof.
  induction l as [|y l IH]; simpl; [done|].
  destruct (y.1 <=? x.1); [done|]. rewrite IH. apply perm_swap.
Qed.

Lemma sort_desc_perm l : sort_desc l ≡ₚ l.
Proof.
  induction l as [|x l IH]; simpl; [done|].
  by rewrite insert_desc_perm, IH.
Qed.

Lemma insert_desc_sorted x l :
  StronglySorted (fun a b : Z * Dict => b.1 <= a.1) l ->
  StronglySorted (fun a b : Z * Dict => b.1 <= a.1) (insert_desc x l).
Proof.
  induction 1 as [|y l Hs IH Hy]; simpl.
  - repeat constructor.
  - destruct (Z.leb_spec y.1 x.1) as [Hle|Hlt].
    + constructor; [by constructor|].
      constructor; [done|]. eapply Forall_impl; [exact Hy|].
      simpl. intros z ?. lia.
    + constructor; [done|].
      rewrite insert_desc_perm. constructor; [lia|done].
Qed.

Lemma sort_desc_sorted l :
  StronglySorted (fun a b : Z * Dict => b.1 <= a.1) (sort_desc l).
Proof.
  induction l as [|x l IH]; simpl; [constructor|].
  by apply insert_desc_sorted.
Qed.

Lemma keyed_inv talks ks :
  keyed talks = Ok ks ->
  map snd ks = talks /\ Forall (fun kt => talk_id_of kt.2 = Ok kt.1) ks.
Proof.
  revert ks. induction talks as [|t talks IH]; intros ks; simpl.
  - intros [= <-]. by split.
  - unfold mbind, outcome_mbind.
    destruct (talk_id_of t) as [k| |] eqn:Hk; simpl; [|done..].
    destruct (keyed talks) as [ks'| |]; simpl; [|done..].
    intros [= <-]. destruct (IH ks' eq_refl) as [<- HF].
    split; [done|]. by constructor.
Qed.

Lemma talk_id_of_lookup t z : talk_id_of t = Ok z -> dict_lookup "id" t = id_json z.
Proof.
  unfold talk_id_of, py_getitem, id_json.
  destruct (dict_lookup "id" t) as [[]|]; simpl; try done. by intros [= ->].
Qed.

Lemma sort_by_id_desc_inv talks sorted :
  sort_by_id_desc talks = Ok sorted ->
  sorted ≡ₚ talks /\ sorted_by_id_desc sorted /\
  Forall (fun t => exists z, dict_lookup "id" t = id_json z) talks.
Proof.
  unfold sort_by_id_desc, mbind, outcome_mbind.
  destruct (keyed talks) as [ks| |] eqn:Hks; simpl; [|done..].
  intros [= <-]. destruct (keyed_inv _ _ Hks) as [<- HF].
  split; [by rewrite sort_desc_perm|]. split.
  - assert (HF' : Forall (fun kt => talk_id_of kt.2 = Ok kt.1) (sort_desc ks))
      by by rewrite sort_desc_perm.
    pose proof (sort_desc_sorted ks) as Hs. unfold sorted_by_id_desc.
    induction Hs as [|x l Hs IH Hx]; simpl; [constructor|].
    apply Forall_cons in HF' as [Hx' HF'].
    constructor; [by apply IH|].
    apply Forall_fmap. rewrite Forall_forall in HF'.
    apply Forall_forall. intros y Hy. simpl.
    rewrite Forall_forall in Hx. specialize (Hx y Hy).
    unfold id_key. by rewrite Hx', (HF' y Hy).
  - apply Forall_fmap. eapply Forall_impl; [exact HF|].
    intros [k t] Hkt. exists k. by apply talk_id_of_lookup.
Qed.

Lemma talk_ids_app l1 l2 : talk_ids (l1 ++ l2) = talk_ids l1 ++ talk_ids l2.
Proof. apply map_app. Qed.

Lemma talk_ids_perm l1 l2 : l1 ≡ₚ l2 -> talk_ids l1 ≡ₚ talk_ids l2.
Proof. intros H. unfold talk_ids. by apply Permutation_map. Qed.

(** ** The primitives of the loop *)

Lemma save_talks_eq talks f w :
  save_talks_to_json talks f w
  = (Ok tt, World (<[f := JsonText (JList (map JObj talks))]> (files w)) (remote w)
                  (requests_made w)
                  (trace w ++ [ EvWrite f (JList (map JObj talks));
                                EvPrint (MsgSaved (length talks) f) ])).
Proof.
  unfold save_talks_to_json, mbind, M_bind, bind, write_json, print, emit. simpl.
  by rewrite <- app_assoc.
Qed.

Lemma retry_loop_result u max_retries attempts :
  forall w v w',
    retry_loop u max_retries attempts w = (Ok v, w') ->
    v = JNull \/
    exists n status, remote w n u = Http status (Some v) /\
                     status <> 429 /\ is_error_status status = false.
Proof.
  induction attempts as [|attempt rest IH]; intros w v w' H.
  - left. by inversion H.
  - cbn [retry_loop] in H.
    apply bind_Ok_inv in H as (r & w1 & Hget & H).
    assert (Hrem1 : remote w1 = remote w) by (by inversion Hget).
    assert (Hr : r = remote w (requests_made w) u) by (by inversion Hget).
    assert (Hexc : forall (c : M unit),
               respects offline c ->
               (c ≫= fun _ => retry_loop u max_retries rest) w1 = (Ok v, w') ->
               v = JNull \/
               exists n status, remote w n u = Http status (Some v) /\
                                status <> 429 /\ is_error_status status = false).
    { intros c Hc (x & w2 & Hx & H2)%bind_Ok_inv.
      apply Hc in Hx as [(Hrem2 & _) _].
      apply IH in H2. by rewrite Hrem2, Hrem1 in H2. }
    destruct r as [e|status body].
    + eapply Hexc; [|exact H]. destruct (_ =? _); auto with frame.
    + destruct (Z.eqb_spec status 429) as [->|Hne].
      * apply bind_Ok_inv in H as (x & w2 & Hx & H).
        apply respects_print in Hx as [(Hrem2 & _) _].
        apply bind_Ok_inv in H as (y & w3 & Hy & H).
        apply respects_sleep in Hy as [(Hrem3 & _) _].
        apply IH in H. by rewrite Hrem3, Hrem2, Hrem1 in H.
      * destruct (is_error_status status) eqn:Herr.
        { eapply Hexc; [|exact H]. destruct (_ =? _); auto with frame. }
        destruct body as [v0|].
        { right. inversion H; subst v0. eauto. }
        eapply Hexc; [|exact H]. destruct (_ =? _); auto with frame.
Qed.

(** On the answers of [response] the retry loop always comes back: a
    request exception is caught, and none of its sleeps is negative. *)
Lemma retry_loop_returns u max_retries attempts :
  forall w, exists v w', retry_loop u max_retries attempts w = (Ok v, w').
Proof.
  induction attempts as [|attempt rest IH]; intros w; [by eexists _, _|].
  cbn [retry_loop].
  assert (Hexc : forall (e : request_error) w1,
             exists v w',
               ((if Z.of_nat attempt =? max_retries - 1
                 then print (MsgFetchFailed u e) else sleep 2);;
                retry_loop u max_retries rest) w1 = (Ok v, w')).
  { intros e w1. destruct (_ =? _).
    - rewrite (bind_ok _ _ _ _ _ (print_eq _ _)). apply IH.
    - rewrite (bind_ok _ _ _ _ _ (sleep_nonneg 2 _ ltac:(lia))). apply IH. }
  unfold mbind at 1, M_bind at 1, bind at 1, http_get at 1.
  destruct (remote w (requests_made w) u) as [e|status body]; [apply Hexc|].
  destruct (status =? 429).
  - rewrite (bind_ok _ _ _ _ _ (print_eq _ _)).
    rewrite (bind_ok _ _ _ _ _ (sleep_nonneg ((Z.of_nat attempt + 1) * 5) _ ltac:(lia))).
    apply IH.
  - destruct (is_error_status status); [apply Hexc|].
    destruct body; [by eexists _, _|apply Hexc].
Qed.

Lemma fetch_talk_details_inv talk_id max_retries w r w' :
  fetch_talk_details talk_id max_retries w = (r, w') ->
  remote w' = remote w /\ files w' = files w /\
  writes (trace w') = writes (trace w) /\
  detail_calls (trace w') = detail_calls (trace w) ++ [talk_id] /\
  exists v, r = Ok v /\
    (v = JNull \/
     exists n status, remote w n (TalkDetail talk_id) = Http status (Some v) /\
                      status <> 429 /\ is_error_status status = false).
Proof.
  unfold fetch_talk_details. rewrite (bind_ok _ _ _ _ _ (emit_eq _ _)).
  intros H.
  destruct (retry_loop_returns (TalkDetail talk_id) max_retries
              (seq 0 (Z.to_nat max_retries))
              (World (files w) (remote w) (requests_made w)
                     (trace w ++ [EvFetchDetails talk_id]))) as (v & w2 & Hv).
  rewrite Hv in H. inversion H; subst r w2.
  pose proof (respects_retry_loop _ _ _ _ _ _ Hv) as (Hr & Hf & Hw & Hc).
  simpl in *. rewrite writes_app in Hw. rewrite detail_calls_app in Hc.
  simpl in *. rewrite app_nil_r in Hw.
  repeat split; try done.
  exists v. split; [done|]. by apply retry_loop_result in Hv.
Qed.

(** ** One iteration of the fetch loop *)

Section LoopFacts.
Variables (filename : string) (delay_s : Q) (save_interval : Z).
Variable existing_talks : list Dict.
Variable total : nat.

#[local] Abbreviation checkpoint' := (checkpoint filename save_interval existing_talks).
#[local] Abbreviation fetch_step' :=
  (fetch_step filename delay_s save_interval existing_talks total).
#[local] Abbreviation fetch_loop' :=
  (fetch_loop filename delay_s save_interval existing_talks total).

Lemma checkpoint_inv i new_talks w r w' :
  checkpoint' i new_talks w = (r, w') ->
  (r <> Ok tt /\ w' = w) \/
  (r = Ok tt /\ save_interval <> 0 /\
   ((Z.of_nat (S i) mod save_interval <> 0 /\ w' = w) \/
    (Z.of_nat (S i) mod save_interval = 0 /\
     exists all_talks,
       sort_by_id_desc (existing_talks ++ new_talks) = Ok all_talks /\
       w' = checkpointed filename all_talks w))).
Proof.
  unfold checkpoint. destruct (Z.eqb_spec save_interval 0) as [->|Hne].
  { intros [= <- <-]. by left. }
  destruct (Z.eqb_spec (Z.of_nat (S i) mod save_interval) 0) as [Hz|Hnz].
  - rewrite bind_lift.
    destruct (sort_by_id_desc (existing_talks ++ new_talks)) as [all| |] eqn:Hs.
    + rewrite (bind_ok _ _ _ _ _ (save_talks_eq _ _ _)).
      rewrite print_eq. simpl. rewrite <- app_assoc. simpl.
      intros [= <- <-]. right. split; [done|]. split; [done|]. right. eauto.
    + intros [= <- <-]. by left.
    + intros [= <- <-]. by left.
  - intros [= <- <-]. right. split; [done|]. split; [done|]. by left.
Qed.

Lemma fetch_step_inv i talk_id new_talks failed_count w r w' :
  fetch_step' i talk_id new_talks failed_count w = (r, w') ->
  exists v w1,
    fetch_talk_details talk_id 5 w = (Ok v, w1) /\
    (((forall x, r <> Ok x) /\ w' = w1) \/
     exists new_talks' failed_count' w2 rc w3,
       step_result v new_talks failed_count new_talks' failed_count' /\
       offline w1 w2 /\
       checkpoint' i new_talks' w2 = (rc, w3) /\
       offline w3 w' /\
       (r = Ok (new_talks', failed_count') /\ rc = Ok tt \/ forall x, r <> Ok x)).
Proof.
  unfold fetch_step. intros H.
  destruct (fetch_talk_details talk_id 5 w) as [r1 w1] eqn:Hd.
  destruct (fetch_talk_details_inv _ _ _ _ _ Hd) as (_ & _ & _ & _ & v & -> & _).
  rewrite (bind_ok _ _ _ _ _ Hd) in H. exists v, w1. split; [done|].
  assert (Hrest : forall nt fc,
    step_result v new_talks failed_count nt fc ->
    ((if Z.of_nat (S i) mod 10 =? 0
      then print (MsgProgress (S i) total (length existing_talks + length nt))
      else mret tt);;
     checkpoint' i nt;; sleep delay_s;; mret (nt, fc)) w1 = (r, w') ->
    exists new_talks' failed_count' w2 rc w3,
       step_result v new_talks failed_count new_talks' failed_count' /\
       offline w1 w2 /\
       checkpoint' i new_talks' w2 = (rc, w3) /\
       offline w3 w' /\
       (r = Ok (new_talks', failed_count') /\ rc = Ok tt \/ forall x, r <> Ok x)).
  { intros nt fc Hstep H1.
    assert (exists w2, offline w1 w2 /\
              (checkpoint' i nt;; sleep delay_s;; mret (nt, fc)) w2 = (r, w'))
      as (w2 & Hoff & H2).
    { destruct (_ =? _).
      - rewrite (bind_ok _ _ _ _ _ (print_eq _ _)) in H1.
        eexists. split; [|exact H1]. by eapply respects_print.
      - exists w1. split; [reflexivity|exact H1]. }
    destruct (checkpoint' i nt w2) as [rc w3] eqn:Hc.
    exists nt, fc, w2, rc, w3. do 3 (split; [done|]).
    destruct rc as [[]|e|].
    - rewrite (bind_ok _ _ _ _ _ Hc) in H2.
      destruct (sleep delay_s w3) as [rs w4] eqn:Hs.
      pose proof (respects_sleep _ _ _ _ Hs) as Hoff3.
      destruct rs as [[]|e|].
      + rewrite (bind_ok _ _ _ _ _ Hs) in H2. inversion H2; subst. auto.
      + rewrite (bind_raise _ _ _ _ _ Hs) in H2. inversion H2; subst.
        split; [done|]. by right.
      + unfold mbind, M_bind, bind in H2. rewrite Hs in H2.
        inversion H2; subst. split; [done|]. by right.
    - rewrite (bind_raise _ _ _ _ _ Hc) in H2. inversion H2; subst.
      split; [reflexivity|]. by right.
    - unfold mbind, M_bind, bind in H2. rewrite Hc in H2.
      inversion H2; subst. split; [reflexivity|]. by right. }
  destruct (py_truthy v) eqn:Htruthy.
  - destruct v as [| | | | |l|data];
      try (left; rewrite bind_raise_eq in H; inversion H; by split).
    rewrite bind_assoc, bind_lift in H.
    destruct (parse_talk data) as [talk|e|] eqn:Hp.
    + right. eapply Hrest; [by eapply step_fetched|]. exact H.
    + left. inversion H; by split.
    + left. inversion H; by split.
  - right. eapply Hrest; [by apply step_failed|]. exact H.
Qed.
End LoopFacts.

(** ** Loading and listing, when they succeed *)

Lemma scan_talks_inv talks ds ids :
  scan_talks talks = Ok (ds, ids) ->
  talks = map JObj ds /\
  exists zs, talk_ids ds = map id_json zs /\ forall z, z ∈ ids <-> z ∈ zs.
Proof.
  revert ds ids. induction talks as [|t talks IH]; intros ds ids; simpl.
  - intros [= <- <-]. split; [done|]. exists []. split; [done|]. set_solver.
  - destruct t as [| | | | | |d]; try done.
    destruct (dict_lookup "id" d) as [[| |z| | | |]|] eqn:Hid; try done;
      unfold mbind, outcome_mbind;
      destruct (scan_talks talks) as [[ds' ids']| |]; simpl; try done.
    intros [= <- <-]. destruct (IH ds' ids' eq_refl) as (-> & zs & Hzs & Hin).
    split; [done|]. exists (z :: zs). split.
    + simpl. by rewrite Hid, Hzs.
    + intros z'. rewrite elem_of_union, elem_of_singleton, elem_of_cons, Hin. done.
Qed.

Lemma scan_talks_ok zs ds :
  talk_ids ds = map id_json zs ->
  scan_talks (map JObj ds) = Ok (ds, list_to_set zs).
Proof.
  revert zs. induction ds as [|d ds IH]; intros [|z zs]; simpl; try done.
  intros [= Hd Hds]. rewrite Hd. by rewrite (IH zs Hds).
Qed.

Lemma load_Ok_inv filename w ds ids w1 :
  load_existing_talks filename w = (Ok (ds, ids), w1) ->
  (ds = [] /\ ids = ∅) \/
  (files w !! filename = Some (JsonText (JList (map JObj ds))) /\
   scan_talks (map JObj ds) = Ok (ds, ids) /\ w1 = w).
Proof.
  unfold load_existing_talks. rewrite (bind_ok _ _ _ _ _ (read_file_eq _ _)).
  destruct (files w !! filename) as [[| |v|pe]|] eqn:Hf.
  - done.
  - rewrite (bind_ok _ _ _ _ _ (print_eq _ _)). intros [= <- <-]. by left.
  - destruct (scan_snapshot v) as [[ds' ids']|e|] eqn:Hs.
    + intros [= <- <- <-]. right.
      destruct v as [| | | |s|talks|kvs]; try done.
      * by destruct s.
      * simpl in Hs. destruct (scan_talks_inv _ _ _ Hs) as [-> _]. done.
      * by destruct kvs.
    + destruct e; try done.
      rewrite (bind_ok _ _ _ _ _ (print_eq _ _)). intros [= <- <-]. by left.
    + done.
  - done.
  - intros [= <- <-]. by left.
Qed.

(** The IDs of the loaded records are the ID set, and nothing else. *)
Lemma load_ids filename w ds ids w1 :
  load_existing_talks filename w = (Ok (ds, ids), w1) ->
  exists zs, talk_ids ds = map id_json zs /\ forall z, z ∈ ids <-> z ∈ zs.
Proof.
  intros [[-> ->]|(_ & Hs & _)]%load_Ok_inv.
  - exists []. split; [done|]. set_solver.
  - by apply scan_talks_inv in Hs as [_ ?].
Qed.

Lemma fetch_talk_ids_eq w all_ids :
  listing_at w all_ids ->
  fetch_talk_ids w
  = (Ok all_ids,
     World (files w) (remote w) (S (requests_made w))
           (trace w ++ [ EvPrint MsgFetchingIds; EvGet TalksEndpoint;
                         EvPrint (MsgFoundIds (length all_ids)) ])).
Proof.
  intros (status & data & items & Hr & Herr & Hitems & Hids).
  unfold fetch_talk_ids. rewrite (bind_ok _ _ _ _ _ (print_eq _ _)).
  unfold mbind at 1, M_bind at 1, bind at 1, http_get at 1. simpl.
  rewrite Hr, Herr, Hitems, bind_lift, Hids.
  rewrite (bind_ok _ _ _ _ _ (print_eq _ _)). simpl.
  by rewrite <- !app_assoc.
Qed.

Lemma fetch_talk_ids_Ok_inv w all_ids w' :
  fetch_talk_ids w = (Ok all_ids, w') -> listing_at w all_ids.
Proof.
  unfold fetch_talk_ids. rewrite (bind_ok _ _ _ _ _ (print_eq _ _)).
  unfold mbind at 1, M_bind at 1, bind at 1, http_get at 1. simpl.
  unfold listing_at.
  destruct (remote w (requests_made w) TalksEndpoint) as [e|status body]; [done|].
  destruct (is_error_status status) eqn:Herr; [done|].
  destruct body as [[| | | | | |data]|]; try done.
  destruct (py_get data "items" (JList [])) as [| | | | |items|] eqn:Hitems; try done.
  rewrite bind_lift. destruct (int_list items) as [ids| |] eqn:Hids; try done.
  rewrite (bind_ok _ _ _ _ _ (print_eq _ _)). intros [= <- _].
  by exists status, data, items.
Qed.

Lemma listing_at_transfer w w' all_ids :
  offline w w' -> listing_at w' all_ids -> listing_at w all_ids.
Proof.
  intros [(Hr & _) Hn]. unfold listing_at. by rewrite Hr, Hn.
Qed.

Lemma parse_talk_id data talk :
  parse_talk data = Ok talk ->
  dict_lookup "id" (asdict talk) = Some (py_get data "id" (JInt 0)).
Proof.
  unfold parse_talk, mbind, outcome_mbind.
  destruct (if py_truthy _ then _ else _) as [a| |]; simpl; try done.
  by intros [= <-].
Qed.

(** ** The fetch loop *)

Section LoopRuns.
Variables (filename : string) (delay_s : Q) (save_interval : Z).
Variable existing_talks : list Dict.
Variable total : nat.

#[local] Abbreviation checkpoint_ := (checkpoint filename save_interval existing_talks).
#[local] Abbreviation fetch_step_ :=
  (fetch_step filename delay_s save_interval existing_talks total).
#[local] Abbreviation fetch_loop_ :=
  (fetch_loop filename delay_s save_interval existing_talks total).

Lemma checkpoint_frame i new_talks w r w' :
  checkpoint_ i new_talks w = (r, w') ->
  remote w' = remote w /\ requests_made w' = requests_made w /\
  detail_calls (trace w') = detail_calls (trace w).
Proof.
  intros [[_ ->]|(_ & _ & [[_ ->]|(_ & all & _ & ->)])]%checkpoint_inv; try done.
  simpl. by rewrite detail_calls_app, app_nil_r.
Qed.

Lemma fetch_step_calls i talk_id new_talks failed_count w r w' :
  fetch_step_ i talk_id new_talks failed_count w = (r, w') ->
  remote w' = remote w /\
  detail_calls (trace w') = detail_calls (trace w) ++ [talk_id].
Proof.
  intros (v & w1 & Hd & H)%fetch_step_inv.
  apply fetch_talk_details_inv in Hd as (Hr1 & _ & _ & Hc1 & _).
  destruct H as [[_ ->]|(nt & fc & w2 & rc & w3 & _ & Ho12 & Hc & Ho3 & _)]; [done|].
  destruct Ho12 as [(Hr2 & _ & _ & Hc2) _].
  destruct Ho3 as [(Hr4 & _ & _ & Hc4) _].
  apply checkpoint_frame in Hc as (Hr3 & _ & Hc3).
  split; congruence.
Qed.

(** A loop that returns has called [fetch_talk_details] once for every ID
    it was given, in order, and has appended parsed records only. *)
Lemma fetch_loop_Ok ids :
  forall i new_talks failed_count w N failed w',
    fetch_loop_ i ids new_talks failed_count w = (Ok (N, failed), w') ->
    remote w' = remote w /\
    detail_calls (trace w') = detail_calls (trace w) ++ ids /\
    exists added, N = new_talks ++ added /\ Forall parsed_record added.
Proof.
  induction ids as [|talk_id rest IH]; intros i nt fc w N failed w' H.
  - inversion H; subst. split; [done|]. split; [by rewrite app_nil_r|].
    exists []. by rewrite app_nil_r.
  - cbn [fetch_loop] in H.
    apply bind_Ok_inv in H as ([nt1 fc1] & w1 & Hstep & H).
    destruct (fetch_step_calls _ _ _ _ _ _ _ Hstep) as [Hr1 Hc1].
    apply IH in H as (Hr & Hc & added & -> & Hadded).
    split; [congruence|]. split.
    { rewrite Hc, Hc1, <- app_assoc. done. }
    apply fetch_step_inv in Hstep as (v & w0 & _ & [[Hno _]|Hstep]).
    { by destruct (Hno (nt1, fc1)). }
    destruct Hstep as (nt' & fc' & _ & _ & _ & Hres & _ & _ & _ & [[[= <- <-] _]|Hno]).
    2:{ by destruct (Hno (nt1, fc1)). }
    destruct Hres as [_|data talk _ _ Hp].
    + by exists added.
    + exists (asdict talk :: added). split; [by rewrite <- app_assoc|].
      constructor; [|done]. by exists data, talk.
Qed.

Lemma fetch_loop_app l1 l2 :
  forall i new_talks failed_count w,
    fetch_loop_ i (l1 ++ l2) new_talks failed_count w
    = ('(nt, fc) ← fetch_loop_ i l1 new_talks failed_count;
       fetch_loop_ (i + length l1) l2 nt fc) w.
Proof.
  induction l1 as [|x l1 IH]; intros i nt fc w.
  - simpl. rewrite bind_mret. by rewrite Nat.add_0_r.
  - cbn [fetch_loop app]. rewrite bind_assoc.
    destruct (fetch_step_ i x nt fc w) as [[[nt1 fc1]|e|] w1] eqn:Hs.
    + rewrite !(bind_ok _ _ _ _ _ Hs), IH.
      by replace (i + length (x :: l1))%nat with (S i + length l1)%nat by (simpl; lia).
    + by rewrite !(bind_raise _ _ _ _ _ Hs).
    + by rewrite !(bind_oom _ _ _ _ Hs).
Qed.

(** After an iteration whose number is a multiple of [save_interval], the
    file holds the sorted merge of the existing and the new talks. *)
Lemma fetch_step_checkpointed i talk_id new_talks failed_count w N failed w' :
  fetch_step_ i talk_id new_talks failed_count w = (Ok (N, failed), w') ->
  Z.of_nat (S i) mod save_interval = 0 ->
  exists all_talks,
    sort_by_id_desc (existing_talks ++ N) = Ok all_talks /\
    files w' !! filename = Some (JsonText (JList (map JObj all_talks))).
Proof.
  intros (v & w1 & _ & [[Hno _]|Hstep])%fetch_step_inv Hmod.
  { by destruct (Hno (N, failed)). }
  destruct Hstep as (nt' & fc' & w2 & rc & w3 & _ & _ & Hc & Ho & [[[= <- <-] ->]|Hno]).
  2:{ by destruct (Hno (N, failed)). }
  apply checkpoint_inv in Hc as [[? _]|(_ & _ & [[? _]|(_ & all & Hs & ->)])]; try done.
  exists all. split; [done|].
  destruct Ho as [(_ & -> & _) _]. simpl. by rewrite lookup_insert_eq.
Qed.
End LoopRuns.

(** ** A run of [fetch_talks_incremental] that returns *)

(** Peel one bind off a run that returned, and record what the peeled
    computation may have done to the world. *)
Tactic Notation "peel" hyp(H) "by" uconstr(frame_lemma) "as" ident(Hrel) :=
  let x := fresh "x" in
  let wn := fresh "w" in
  let Hx := fresh "Hx" in
  apply bind_Ok_inv in H as (x & wn & Hx & H);
  pose proof (frame_lemma _ _ _ Hx) as Hrel.

Lemma respects_limit_print limit (new_ids : list Z) :
  respects offline
    (if limit_applies limit (length new_ids)
     then print (MsgLimiting (default 0 limit));;
          mret (py_slice_to (default 0 limit) new_ids)
     else mret new_ids).
Proof. destruct (limit_applies _ _); frame. Qed.

Lemma limit_print_result limit (new_ids : list Z) w ids w' :
  (if limit_applies limit (length new_ids)
   then print (MsgLimiting (default 0 limit));;
        mret (py_slice_to (default 0 limit) new_ids)
   else mret new_ids) w = (Ok ids, w') ->
  ids = limited limit new_ids.
Proof.
  unfold limited. destruct (limit_applies _ _).
  - rewrite (bind_ok _ _ _ _ _ (print_eq _ _)). by intros [= <- _].
  - by intros [= <- _].
Qed.

Lemma respects_failed_print (failed_count : nat) :
  respects offline
    (if (0 <? failed_count)%nat then print (MsgFailed failed_count) else mret tt).
Proof. destruct (_ <? _)%nat; frame. Qed.

Lemma fetch_talks_incremental_Ok_inv filename limit delay_s save_interval w R w' :
  fetch_talks_incremental filename limit delay_s save_interval w = (Ok R, w') ->
  exists E ids w0 all_ids,
    load_existing_talks filename w = (Ok (E, ids), w0) /\
    listing_at w all_ids /\
    let new_ids := limited limit (filter (fun tid => tid ∉ ids) all_ids) in
    remote w' = remote w /\
    detail_calls (trace w') = detail_calls (trace w) ++ new_ids /\
    ((new_ids = [] /\ R = E) \/
     (new_ids <> [] /\
      exists w3 N failed w4,
        remote w3 = remote w /\
        fetch_loop filename delay_s save_interval E (length new_ids) 0 new_ids [] 0 w3
        = (Ok (N, failed), w4) /\
        sort_by_id_desc (E ++ N) = Ok R)).
Proof.
  unfold fetch_talks_incremental. intros H.
  apply bind_Ok_inv in H as ([E ids] & w0 & Hload & H).
  pose proof (respects_load _ _ _ _ Hload) as Ho0.
  peel H by (respects_print _) as Ho1.
  apply bind_Ok_inv in H as (all_ids & w2 & Hids & H).
  pose proof (respects_fetch_talk_ids _ _ _ Hids) as Hq2.
  apply fetch_talk_ids_Ok_inv in Hids.
  apply (listing_at_transfer w) in Hids; [|by etrans].
  peel H by (respects_print _) as Ho3.
  apply bind_Ok_inv in H as (new_ids & w4 & Hlim & H).
  pose proof (respects_limit_print _ _ _ _ _ Hlim) as Ho4.
  apply limit_print_result in Hlim. subst new_ids.
  exists E, ids, w0, all_ids. split; [done|]. split; [done|]. simpl.
  assert (Hq : quiet w w4).
  { etrans; [apply offline_quiet, Ho0|]. etrans; [apply offline_quiet, Ho1|].
    etrans; [apply Hq2|]. etrans; [apply offline_quiet, Ho3|].
    apply offline_quiet, Ho4. }
  clear Ho0 Ho1 Hq2 Ho3 Ho4.
  destruct (limited limit (filter (fun tid => tid ∉ ids) all_ids)) as [|tid0 new_ids] eqn:Hnew.
  - peel H by (respects_print _) as Ho5. injection H as <- <-.
    destruct Hq as (Hr & _ & _ & Hc). destruct Ho5 as [(Hr5 & _ & _ & Hc5) _].
    split; [congruence|]. split; [rewrite app_nil_r; congruence|]. by left.
  - peel H by (respects_print _) as Ho5.
    apply bind_Ok_inv in H as ([N failed] & w6 & Hloop & H).
    peel H by (respects_print _) as Ho7.
    peel H by (respects_failed_print _) as Ho8.
    unfold lift in H. injection H as Hsort <-.
    destruct (fetch_loop_Ok _ _ _ _ _ _ _ _ _ _ _ _ _ Hloop) as (Hr6 & Hc6 & _).
    destruct Hq as (Hr & _ & _ & Hc). destruct Ho5 as [(Hr5 & _ & _ & Hc5) _].
    destruct Ho7 as [(Hr7 & _ & _ & Hc7) _]. destruct Ho8 as [(Hr8 & _ & _ & Hc8) _].
    split; [congruence|]. split; [congruence|]. right. split; [done|].
    exists w5, N, failed, w6. split; [congruence|]. by split.
Qed.

(** ** IDs of the snapshot *)

Lemma not_in_ids_not_in_snapshot filename w E ids w0 tid :
  load_existing_talks filename w = (Ok (E, ids), w0) ->
  tid ∉ ids -> id_json tid ∉ talk_ids E.
Proof.
  intros (zs & -> & Hin)%load_ids Hnot Hmem.
  apply list_elem_of_fmap in Hmem as (z & [= ->] & Hz). by apply Hnot, Hin.
Qed.

(** ** Unique IDs *)

#[global] Instance id_json_inj : Inj (=) (=) id_json.
Proof. by intros x y [= ->]. Qed.

Section Unique.
Variables (filename : string) (delay_s : Q) (save_interval : Z).
Variable existing_talks : list Dict.
Variable total : nat.

#[local] Abbreviation good := (writes_only (unique_snapshot filename)).

Lemma fetch_step_unique i talk_id new_talks failed_count w r w' seen rest :
  faithful_details (remote w) ->
  NoDup (talk_ids existing_talks ++ map id_json (seen ++ talk_id :: rest)) ->
  talk_ids new_talks `sublist_of` map id_json seen ->
  fetch_step filename delay_s save_interval existing_talks total
    i talk_id new_talks failed_count w = (r, w') ->
  good w w' /\
  forall nt fc, r = Ok (nt, fc) ->
    talk_ids nt `sublist_of` map id_json (seen ++ [talk_id]).
Proof.
  intros Hfaith Hnd Hsub (v & w1 & Hd & H)%fetch_step_inv.
  apply fetch_talk_details_inv in Hd as (Hr1 & Hf1 & Hw1 & _ & v' & [= <-] & Hv).
  assert (Hww1 : good w w1).
  { split; [done|]. exists []. by rewrite app_nil_r. }
  destruct H as [[Hno ->]|(nt' & fc' & w2 & rc & w3 & Hres & Ho12 & Hc & Ho3 & Hr)].
  { split; [done|]. intros nt fc ->. by destruct (Hno (nt, fc)). }
  assert (Hsub' : talk_ids nt' `sublist_of` map id_json (seen ++ [talk_id])).
  { destruct Hres as [_|data talk Htruthy -> Hp].
    - rewrite map_app. by apply sublist_inserts_r.
    - destruct Hv as [Hnull|(n & s & Hrem & Hne & Herr)]; [done|].
      rewrite talk_ids_app, map_app. apply sublist_app; [done|].
      change (talk_ids [asdict talk]) with [dict_lookup "id" (asdict talk)].
      by rewrite (parse_talk_id _ _ Hp), (Hfaith _ _ _ _ Hrem Hne Herr Htruthy). }
  split.
  - etrans; [exact Hww1|].
    etrans; [apply quiet_writes_only, offline_quiet, Ho12|].
    etrans; [|apply quiet_writes_only, offline_quiet, Ho3].
    apply checkpoint_inv in Hc as [[_ ->]|(_ & _ & [[_ ->]|(_ & all & Hs & ->)])];
      try reflexivity.
    split; [done|]. exists [(filename, JList (map JObj all))]. split.
    { simpl. by rewrite writes_app. }
    constructor; [|done]. split; [done|]. exists all. split; [done|].
    apply sort_by_id_desc_inv in Hs as (Hperm & _).
    rewrite (talk_ids_perm _ _ Hperm), talk_ids_app.
    refine (sublist_NoDup _ _ Hnd _). apply sublist_app; [done|].
    etrans; [exact Hsub'|]. rewrite !map_app. apply sublist_app; [done|].
    simpl. apply sublist_skip, sublist_nil_l.
  - intros nt fc ->. destruct Hr as [[[= <- <-] _]|Hno]; [done|].
    by destruct (Hno (nt, fc)).
Qed.

Lemma fetch_loop_unique ids :
  forall seen i new_talks failed_count w r w',
    faithful_details (remote w) ->
    NoDup (talk_ids existing_talks ++ map id_json (seen ++ ids)) ->
    talk_ids new_talks `sublist_of` map id_json seen ->
    fetch_loop filename delay_s save_interval existing_talks total
      i ids new_talks failed_count w = (r, w') ->
    good w w' /\
    forall N fc, r = Ok (N, fc) ->
      talk_ids N `sublist_of` map id_json (seen ++ ids).
Proof.
  induction ids as [|talk_id rest IH]; intros seen i nt fc w r w' Hfaith Hnd Hsub H.
  - injection H as <- <-. split; [reflexivity|].
    intros N fc' [= <- <-]. by rewrite app_nil_r.
  - cbn [fetch_loop] in H.
    apply bind_inv in H as [([nt1 fc1] & w1 & Hstep & H)|[(e & Hstep & ->)|[Hstep ->]]].
    + destruct (fetch_step_unique _ _ _ _ _ _ _ _ _ Hfaith Hnd Hsub Hstep) as [Hw Hs].
      specialize (Hs _ _ eq_refl).
      eapply (IH (seen ++ [talk_id])) in H; [| |by rewrite <- app_assoc|done].
      * destruct H as [Hw2 HN]. split; [by etrans|].
        intros N fc' ->. specialize (HN _ _ eq_refl).
        by rewrite <- app_assoc in HN.
      * destruct Hw as [-> _]. done.
    + destruct (fetch_step_unique _ _ _ _ _ _ _ _ _ Hfaith Hnd Hsub Hstep) as [Hw _].
      split; [done|]. intros; discriminate.
    + destruct (fetch_step_unique _ _ _ _ _ _ _ _ _ Hfaith Hnd Hsub Hstep) as [Hw _].
      split; [done|]. intros; discriminate.
Qed.
End Unique.

(** One stage of a run whose outcome is arbitrary: either the stage fails
    and the run ends in its world, or it returns and the run goes on. *)
Lemma stage {A B} (P : string * json -> Prop) (Φ : B -> Prop)
    (m : M A) (f : A -> M B) w wk r w' :
  writes_only P w wk ->
  (forall r1 w1, m wk = (r1, w1) -> writes_only P wk w1) ->
  (m ≫= f) wk = (r, w') ->
  (forall a w1, m wk = (Ok a, w1) -> writes_only P w w1 -> f a w1 = (r, w') ->
     writes_only P w w' /\ forall x, r = Ok x -> Φ x) ->
  writes_only P w w' /\ forall x, r = Ok x -> Φ x.
Proof.
  intros Hacc Hm [(a & w1 & Ha & Hf)|[(e & Ha & ->)|[Ha ->]]]%bind_inv Hk.
  - eapply Hk; [exact Ha| |exact Hf]. etrans; [exact Hacc|]. by eapply Hm.
  - split; [|done]. etrans; [exact Hacc|]. by eapply Hm.
  - split; [|done]. etrans; [exact Hacc|]. by eapply Hm.
Qed.

Lemma good_of_quiet {A} P (m : M A) wk :
  respects quiet m -> forall r1 w1, m wk = (r1, w1) -> writes_only P wk w1.
Proof. intros Hm r1 w1 H. by eapply quiet_writes_only, Hm. Qed.

Lemma good_of_offline {A} P (m : M A) wk :
  respects offline m -> forall r1 w1, m wk = (r1, w1) -> writes_only P wk w1.
Proof. intros Hm r1 w1 H. by eapply quiet_writes_only, offline_quiet, Hm. Qed.

Tactic Notation "stage" hyp(H) "from" hyp(Hacc) "by" tactic3(t) :=
  refine (stage _ _ _ _ _ _ _ _ Hacc _ H _); [t|clear H Hacc].

Lemma limited_sublist limit (l : list Z) : limited limit l `sublist_of` l.
Proof.
  unfold limited, py_slice_to. destruct (limit_applies _ _); [|done].
  destruct (0 <=? _); apply sublist_take.
Qed.

Lemma new_ids_fresh filename w E ids w0 (limit : option Z) (all_ids : list Z) :
  load_existing_talks filename w = (Ok (E, ids), w0) ->
  NoDup (talk_ids E) -> NoDup all_ids ->
  NoDup (talk_ids E
         ++ map id_json (limited limit (filter (fun tid => tid ∉ ids) all_ids))).
Proof.
  intros Hload HE Hall.
  pose proof (limited_sublist limit (filter (fun tid => tid ∉ ids) all_ids)) as Hsub.
  apply NoDup_app. split; [done|]. split.
  - intros x Hx (tid & -> & Htid)%list_elem_of_fmap.
    apply (sublist_subseteq _ _ Hsub) in Htid.
    apply list_elem_of_filter in Htid as [Hnot _].
    by apply (not_in_ids_not_in_snapshot _ _ _ _ _ _ Hload Hnot).
  - apply (NoDup_fmap_2 id_json).
    refine (sublist_NoDup _ _ _ Hsub). by apply NoDup_filter.
Qed.

Lemma fetch_talks_incremental_unique filename limit delay_s save_interval w r w' :
  faithful_details (remote w) ->
  listing_nodup (remote w) ->
  unique_ids_file (files w !! filename) ->
  fetch_talks_incremental filename limit delay_s save_interval w = (r, w') ->
  writes_only (unique_snapshot filename) w w' /\
  forall R, r = Ok R -> NoDup (talk_ids R).
Proof.
  intros Hfaith Hlist Hfile H. unfold fetch_talks_incremental in H.
  assert (Hacc : writes_only (unique_snapshot filename) w w) by reflexivity.
  stage H from Hacc by (apply good_of_offline, respects_load).
  intros [E ids] w1 Hload Hacc H.
  assert (HE : NoDup (talk_ids E)).
  { apply load_Ok_inv in Hload as [[-> _]|(Hf & _ & _)]; [constructor|by apply Hfile]. }
  stage H from Hacc by (apply good_of_offline, respects_print).
  intros [] w2 _ Hacc H.
  assert (Hrem2 : remote w2 = remote w) by apply Hacc.
  stage H from Hacc by (apply good_of_quiet, respects_fetch_talk_ids).
  intros all_ids w3 Hids Hacc H.
  assert (Hall : NoDup all_ids).
  { apply fetch_talk_ids_Ok_inv in Hids as (s & d & items & Hr & _ & Hi & Hl).
    rewrite Hrem2 in Hr. eauto. }
  stage H from Hacc by (apply good_of_offline, respects_print).
  intros [] w4 _ Hacc H.
  stage H from Hacc by (apply good_of_offline, respects_limit_print).
  intros new_ids w5 ->%limit_print_result Hacc H.
  pose proof (new_ids_fresh _ _ _ _ _ limit _ Hload HE Hall) as Hnd.
  destruct (limited limit (filter (fun tid => tid ∉ ids) all_ids)) as [|tid0 new_ids].
  - stage H from Hacc by (apply good_of_offline, respects_print).
    intros [] w6 _ Hacc [= <- <-]. split; [done|]. by intros R [= <-].
  - stage H from Hacc by (apply good_of_offline, respects_print).
    intros [] w6 _ Hacc H.
    assert (Hrem6 : remote w6 = remote w) by apply Hacc.
    assert (Hloop : forall r1 w7,
      fetch_loop filename delay_s save_interval E (length (tid0 :: new_ids)) 0
        (tid0 :: new_ids) [] 0 w6 = (r1, w7) ->
      writes_only (unique_snapshot filename) w6 w7 /\
      forall N fc, r1 = Ok (N, fc) ->
        talk_ids N `sublist_of` map id_json (tid0 :: new_ids)).
    { intros r1 w7 Hrun.
      eapply (fetch_loop_unique _ _ _ _ _ _ []) in Hrun; [done| |done|constructor].
      by rewrite Hrem6. }
    stage H from Hacc by (intros r1 w7 Hrun; by apply Hloop in Hrun as [? _]).
    intros [N failed] w7 Hrun Hacc H. apply Hloop in Hrun as [_ HN].
    specialize (HN _ _ eq_refl).
    stage H from Hacc by (apply good_of_offline, respects_print).
    intros [] w8 _ Hacc H.
    stage H from Hacc by (apply good_of_offline, respects_failed_print).
    intros [] w9 _ Hacc [= <- <-]. split; [done|].
    intros R (Hperm & _)%sort_by_id_desc_inv.
    rewrite (talk_ids_perm _ _ Hperm), talk_ids_app.
    refine (sublist_NoDup _ _ Hnd _). by apply sublist_app.
Qed.

Lemma fresh_start_inv args w r w1 :
  fresh_start args w = (r, w1) ->
  r = Ok tt /\ remote w1 = remote w /\ requests_made w1 = requests_made w /\
  writes (trace w1) = writes (trace w) /\
  detail_calls (trace w1) = detail_calls (trace w) /\
  (arg_fresh args = false /\ w1 = w \/
   arg_fresh args = true /\ files w1 !! arg_output args = None).
Proof.
  unfold fresh_start. destruct (arg_fresh args).
  - rewrite (bind_ok _ _ _ _ _ (read_file_eq _ _)).
    destruct (files w !! arg_output args) as [c|] eqn:Hc.
    + unfold mbind, M_bind, bind, remove_file, print, emit. simpl.
      intros [= <- <-]. simpl.
      rewrite <- !app_assoc, writes_app, detail_calls_app, !app_nil_r.
      repeat split; try done. right. split; [done|]. apply lookup_delete_eq.
    + intros [= <- <-]. repeat split; try done. right. by split.
  - intros [= <- <-]. repeat split; try done. by left.
Qed.

Lemma respects_print_summary talks : respects quiet (print_summary talks).
Proof. unfold print_summary. frame. Qed.

(** The seven lines [main] prints before it fetches. *)
Lemma banner_eq {A} args (k : M A) w :
  (print MsgTitle;; print MsgRule;; print (MsgLimit (cli_limit args));;
   print (MsgDelay (arg_delay args));; print (MsgOutput (arg_output args));;
   print (MsgSaveInterval (arg_save_interval args));; print MsgBlank;; k) w
  = k (World (files w) (remote w) (requests_made w)
             (trace w ++ [ EvPrint MsgTitle; EvPrint MsgRule;
                           EvPrint (MsgLimit (cli_limit args));
                           EvPrint (MsgDelay (arg_delay args));
                           EvPrint (MsgOutput (arg_output args));
                           EvPrint (MsgSaveInterval (arg_save_interval args));
                           EvPrint MsgBlank ])).
Proof.
  do 7 rewrite (bind_ok _ _ _ _ _ (print_eq _ _)). simpl.
  by rewrite <- !app_assoc.
Qed.

Lemma run_and_save_unique args w r w' :
  faithful_details (remote w) ->
  listing_nodup (remote w) ->
  unique_ids_file (files w !! arg_output args) ->
  run_and_save args w = (r, w') ->
  writes_only (unique_snapshot (arg_output args)) w w'.
Proof.
  intros Hfaith Hlist Hfile H. unfold run_and_save in H.
  destruct (fresh_start args w) as [r0 w1] eqn:Hfresh.
  destruct (fresh_start_inv _ _ _ _ Hfresh) as (-> & Hr1 & _ & Hw1 & _ & Hf1).
  rewrite (bind_ok _ _ _ _ _ Hfresh), banner_eq in H.
  set (w2 := World _ _ _ _) in H.
  assert (Hacc : writes_only (unique_snapshot (arg_output args)) w w2).
  { split; [done|]. exists []. unfold w2. simpl.
    by rewrite writes_app, Hw1, !app_nil_r. }
  assert (Hfile2 : unique_ids_file (files w2 !! arg_output args)).
  { unfold w2. simpl. destruct Hf1 as [[_ ->]|[_ ->]]; [done|]. by intros talks. }
  apply bind_inv in H as [(talks & w3 & Hrun & H)|[(e & Hrun & _)|[Hrun _]]].
  - apply fetch_talks_incremental_unique in Hrun as [Hw3 Hnd];
      [|unfold w2; simpl; by rewrite Hr1..|done].
    specialize (Hnd _ eq_refl).
    rewrite (bind_ok _ _ _ _ _ (save_talks_eq _ _ _)) in H. injection H as _ <-.
    etrans; [exact Hacc|]. etrans; [exact Hw3|].
    split; [done|]. exists [(arg_output args, JList (map JObj talks))]. split.
    + simpl. by rewrite writes_app.
    + constructor; [|done]. split; [done|]. by exists talks.
  - apply fetch_talks_incremental_unique in Hrun as [Hw3 _];
      [|unfold w2; simpl; by rewrite Hr1..|done].
    by etrans.
  - apply fetch_talks_incremental_unique in Hrun as [Hw3 _];
      [|unfold w2; simpl; by rewrite Hr1..|done].
    by etrans.
Qed.

(** C3, the claim as stated fails: when the remote listing names talk 7
    twice, the snapshot [main] saves holds two records with ID 7. *)
Lemma listed_twice_saved_twice :
  writes (trace (main Examples.default_args Examples.w_listing_twice).2)
  = [ (Examples.snapshot_file,
       JList (map JObj [ Examples.fetched 7; Examples.fetched 7 ])) ] /\
  ~ NoDup (talk_ids [ Examples.fetched 7; Examples.fetched 7 ]).
Proof.
  split; [vm_compute; reflexivity|].
  intros [Hnot _]%NoDup_cons. apply Hnot. apply list_elem_of_here.
Qed.

(** C3, amended. When the prior snapshot (if the file is one) has pairwise
    distinct IDs, the remote listing names no ID twice and every record
    the detail endpoint serves carries the ID it was asked for, every
    snapshot [main] writes, at a checkpoint or at the final save, goes to
    the output file and has pairwise distinct IDs. *)
Theorem unique_ids_persisted (args : Args) (w : world) (r : outcome unit) (w' : world) :
  faithful_details (remote w) ->
  listing_nodup (remote w) ->
  unique_ids_file (files w !! arg_output args) ->
  main args w = (r, w') ->
  exists ws,
    writes (trace w') = writes (trace w) ++ ws /\
    Forall (unique_snapshot (arg_output args)) ws.
Proof.
  intros Hfaith Hlist Hfile H. unfold main in H.
  cut (writes_only (unique_snapshot (arg_output args)) w w'); [by intros [_ ?]|].
  apply bind_inv in H as [(talks & w1 & Hrun & H)|[(e & Hrun & _)|[Hrun _]]].
  - etrans; [by eapply run_and_save_unique|].
    by eapply quiet_writes_only, respects_print_summary.
  - by eapply run_and_save_unique.
  - by eapply run_and_save_unique.
Qed.

Lemma unique_ids_persisted_witness :
  exists w' ws,
    writes (trace w') = writes (trace Examples.w_snapshot) ++ ws /\
    Forall (unique_snapshot Examples.snapshot_file) ws.
Proof.
  eexists.
  refine (unique_ids_persisted Examples.default_args Examples.w_snapshot _ _ _ _ _ _).
  - by intros n tid status d [= <- <-] _ _ _.
  - intros n status data items ids [= <- <-] [= <-] [= <-].
    apply (bool_decide_unpack _). reflexivity.
  - intros talks Hfile. vm_compute in Hfile.
    destruct talks as [|t [|t' talks]]; try discriminate.
    injection Hfile as <-. apply NoDup_singleton.
  - vm_compute. reflexivity.
Defined.

(** ** Idempotence *)

Lemma all_int_ids talks :
  Forall (fun t => exists z, dict_lookup "id" t = id_json z) talks ->
  exists zs, talk_ids talks = map id_json zs.
Proof.
  induction 1 as [|t talks [z Hz] _ (zs & IH)]; [by exists []|].
  exists (z :: zs). simpl. by rewrite Hz, IH.
Qed.

(** A run that reached its final save left a snapshot of records with int
    IDs in the output file. *)
Lemma run_and_save_Ok args w talks w' :
  run_and_save args w = (Ok talks, w') ->
  files w' !! arg_output args = Some (JsonText (JList (map JObj talks))) /\
  exists zs, talk_ids talks = map id_json zs.
Proof.
  unfold run_and_save. intros H.
  apply bind_Ok_inv in H as ([] & w1 & _ & H).
  rewrite banner_eq in H.
  apply bind_Ok_inv in H as (R & w2 & Hrun & H).
  rewrite (bind_ok _ _ _ _ _ (save_talks_eq _ _ _)) in H.
  injection H as <- <-. split; [simpl; by rewrite lookup_insert_eq|].
  apply fetch_talks_incremental_Ok_inv in Hrun
    as (E & ids & w0 & all_ids & Hload & _ & _ & _ & Hcases).
  destruct Hcases as [[_ ->]|(_ & w3 & N & failed & w4 & _ & _ & Hsort)].
  - apply load_ids in Hload as (zs & Hzs & _). by exists zs.
  - apply sort_by_id_desc_inv in Hsort as (Hperm & _ & Hall).
    apply all_int_ids. by rewrite Hperm.
Qed.

Lemma load_snapshot_eq filename w talks zs :
  files w !! filename = Some (JsonText (JList (map JObj talks))) ->
  talk_ids talks = map id_json zs ->
  load_existing_talks filename w = (Ok (talks, list_to_set zs), w).
Proof.
  intros Hfile Hids. unfold load_existing_talks.
  rewrite (bind_ok _ _ _ _ _ (read_file_eq _ _)), Hfile. simpl.
  by rewrite (scan_talks_ok _ _ Hids).
Qed.

Lemma filter_nothing_new (zs all_ids : list Z) :
  (forall tid, tid ∈ all_ids -> tid ∈ zs) ->
  filter (fun tid => tid ∉ (list_to_set zs : gset Z)) all_ids = [].
Proof.
  intros Hall. induction all_ids as [|tid all_ids IH]; [done|].
  rewrite filter_cons. destruct (decide _) as [Hnot|_].
  - destruct Hnot. apply elem_of_list_to_set, Hall, list_elem_of_here.
  - apply IH. intros t Ht. by apply Hall, list_elem_of_further.
Qed.

(** With nothing new in the listing, [fetch_talks_incremental] returns the
    records of the file as they are, writes nothing and fetches no detail. *)
Lemma fetch_talks_incremental_nothing_new filename limit delay_s save_interval w
    talks zs all_ids :
  files w !! filename = Some (JsonText (JList (map JObj talks))) ->
  talk_ids talks = map id_json zs ->
  listing_at w all_ids ->
  (forall tid, tid ∈ all_ids -> tid ∈ zs) ->
  exists w',
    fetch_talks_incremental filename limit delay_s save_interval w = (Ok talks, w') /\
    quiet w w'.
Proof.
  intros Hfile Hids Hlist Hall. unfold fetch_talks_incremental.
  rewrite (bind_ok _ _ _ _ _ (load_snapshot_eq _ _ _ _ Hfile Hids)).
  rewrite (bind_ok _ _ _ _ _ (print_eq _ _)).
  assert (Hlist' : listing_at
                     (World (files w) (remote w) (requests_made w)
                            (trace w ++ [EvPrint (MsgLoaded (length talks))]))
                     all_ids) by exact Hlist.
  rewrite (bind_ok _ _ _ _ _ (fetch_talk_ids_eq _ _ Hlist')).
  rewrite (filter_nothing_new _ _ Hall).
  rewrite (bind_ok _ _ _ _ _ (print_eq _ _)).
  assert (Hq : forall tr, quiet w (World (files w) (remote w) (S (requests_made w))
                                         (trace w ++ tr)) <->
                          writes tr = [] /\ detail_calls tr = []).
  { intros tr. unfold quiet. simpl. rewrite writes_app, detail_calls_app. split.
    - intros (_ & _ & Hw & Hc). split.
      + by apply (inj (app (writes (trace w)))); rewrite app_nil_r.
      + by apply (inj (app (detail_calls (trace w)))); rewrite app_nil_r.
    - intros [-> ->]. by rewrite !app_nil_r. }
  destruct (limit_applies limit (length [])) eqn:Hlim.
  - rewrite bind_assoc, (bind_ok _ _ _ _ _ (print_eq _ _)), bind_mret.
    replace (py_slice_to (default 0 limit) []) with (@nil Z)
      by (unfold py_slice_to; by destruct (_ <=? _); rewrite take_nil).
    rewrite (bind_ok _ _ _ _ _ (print_eq _ _)).
    eexists. split; [done|]. simpl. rewrite <- !app_assoc. by apply Hq.
  - rewrite bind_mret, (bind_ok _ _ _ _ _ (print_eq _ _)).
    eexists. split; [done|]. simpl. rewrite <- !app_assoc. by apply Hq.
Qed.

(** C2. Idempotence: after a run that reached its final save, a second
    run on the same output file (without [--fresh]) against a listing
    that names no ID outside that snapshot writes the file once, with the
    value it already held, so its bytes are the same; it calls
    [fetch_talk_details] not once. *)
Theorem idempotent_rerun (args1 args2 : Args) (w0 w1 : world) (talks : list Dict)
    (all_ids : list Z) :
  run_and_save args1 w0 = (Ok talks, w1) ->
  arg_output args2 = arg_output args1 ->
  arg_fresh args2 = false ->
  listing_at w1 all_ids ->
  (forall tid, tid ∈ all_ids -> id_json tid ∈ talk_ids talks) ->
  let w2 := (main args2 w1).2 in
  files w1 !! arg_output args1 = Some (JsonText (JList (map JObj talks))) /\
  files w2 = files w1 /\
  writes (trace w2)
  = writes (trace w1) ++ [ (arg_output args1, JList (map JObj talks)) ] /\
  detail_calls (trace w2) = detail_calls (trace w1).
Proof.
  intros Hrun1 Hout Hfresh Hlist Hall w2.
  destruct (run_and_save_Ok _ _ _ _ Hrun1) as (Hfile & zs & Hzs).
  split; [done|].
  assert (Hall' : forall tid, tid ∈ all_ids -> tid ∈ zs).
  { intros tid Htid. apply Hall in Htid. rewrite Hzs in Htid.
    by apply list_elem_of_fmap in Htid as (z & [= ->] & ?). }
  assert (exists w3, run_and_save args2 w1 = (Ok talks, w3) /\
            files w3 = files w1 /\
            writes (trace w3)
            = writes (trace w1) ++ [ (arg_output args1, JList (map JObj talks)) ] /\
            detail_calls (trace w3) = detail_calls (trace w1))
    as (w3 & Hrun2 & Hf3 & Hw3 & Hc3).
  { unfold run_and_save, fresh_start. rewrite Hfresh, bind_mret, banner_eq, Hout.
    set (wb := World _ _ _ _).
    destruct (fetch_talks_incremental_nothing_new (arg_output args1) (cli_limit args2)
                (arg_delay args2) (arg_save_interval args2) wb talks zs all_ids)
      as (w4 & Hrun & Hrem & Hfiles & Hwrites & Hcalls); [done..|].
    rewrite (bind_ok _ _ _ _ _ Hrun), (bind_ok _ _ _ _ _ (save_talks_eq _ _ _)).
    eexists. split; [done|]. simpl. rewrite Hfiles. unfold wb. simpl.
    split; [by apply insert_id|].
    rewrite writes_app, detail_calls_app, Hwrites, Hcalls. unfold wb. simpl.
    by rewrite writes_app, detail_calls_app, !app_nil_r. }
  unfold w2, main. rewrite (bind_ok _ _ _ _ _ Hrun2).
  destruct (print_summary talks w3) as [r4 w4] eqn:Hsum.
  destruct (respects_print_summary _ _ _ _ Hsum) as (_ & Hf4 & Hw4 & Hc4).
  simpl. split; [congruence|]. split; congruence.
Qed.

Lemma idempotent_rerun_witness :
  exists w1 talks,
    files w1 !! Examples.snapshot_file = Some (JsonText (JList (map JObj talks))) /\
    files (main Examples.default_args w1).2 = files w1 /\
    writes (trace (main Examples.default_args w1).2)
    = writes (trace w1) ++ [ (Examples.snapshot_file, JList (map JObj talks)) ] /\
    detail_calls (trace (main Examples.default_args w1).2) = detail_calls (trace w1).
Proof.
  eexists _, _.
  refine (idempotent_rerun Examples.default_args Examples.default_args
            Examples.w_snapshot _ _ [7; 3; 9; 5] _ _ _ _ _).
  - vm_compute. reflexivity.
  - reflexivity.
  - reflexivity.
  - eexists _, _, _. repeat split; reflexivity.
  - intros tid Htid.
    repeat (apply elem_of_cons in Htid as [->|Htid]);
      [..|by apply elem_of_nil in Htid];
      eauto 6 using list_elem_of_here, list_elem_of_further.
Defined.

(** ** Detail fetches of a run, whatever its outcome *)

Lemma fetch_loop_calls filename delay_s save_interval existing_talks total ids :
  forall i new_talks failed_count w r w',
    fetch_loop filename delay_s save_interval existing_talks total
      i ids new_talks failed_count w = (r, w') ->
    exists j, (j <= length ids)%nat /\
      detail_calls (trace w') = detail_calls (trace w) ++ take j ids /\
      (forall x, r = Ok x -> j = length ids).
Proof.
  induction ids as [|talk_id rest IH]; intros i nt fc w r w' H.
  - injection H as <- <-. exists 0%nat. by rewrite app_nil_r.
  - cbn [fetch_loop] in H.
    apply bind_inv in H as [([nt1 fc1] & w1 & Hstep & H)|[(e & Hstep & ->)|[Hstep ->]]];
      apply fetch_step_calls in Hstep as [_ Hc].
    + apply IH in H as (j & Hj & Hcalls & Hok). exists (S j). split; [simpl; lia|].
      split; [by rewrite Hcalls, Hc, <- app_assoc|].
      intros x Hx. by rewrite (Hok x Hx).
    + exists 1%nat. split; [simpl; lia|]. by split.
    + exists 1%nat. split; [simpl; lia|]. by split.
Qed.

Lemma listing_at_offline w w' all_ids :
  offline w w' -> listing_at w all_ids -> listing_at w' all_ids.
Proof.
  intros [(Hr & _) Hn]. unfold listing_at. by rewrite Hr, Hn.
Qed.

Lemma fetch_talks_incremental_calls filename limit delay_s save_interval w
    E ids w0 all_ids r w' :
  load_existing_talks filename w = (Ok (E, ids), w0) ->
  listing_at w all_ids ->
  fetch_talks_incremental filename limit delay_s save_interval w = (r, w') ->
  let new_ids := limited limit (filter (fun tid => tid ∉ ids) all_ids) in
  exists j, (j <= length new_ids)%nat /\
    detail_calls (trace w') = detail_calls (trace w) ++ take j new_ids /\
    (forall R, r = Ok R -> j = length new_ids).
Proof.
  intros Hload Hlist H new_ids. unfold fetch_talks_incremental in H.
  pose proof (respects_load _ _ _ _ Hload) as Ho0.
  rewrite (bind_ok _ _ _ _ _ Hload) in H.
  destruct (print (MsgLoaded (length E)) w0) as [r1 w1] eqn:Hp1.
  pose proof (respects_print _ _ _ _ Hp1) as Ho1. injection Hp1 as <- Hw1.
  rewrite (bind_ok _ _ _ tt w1) in H by (by rewrite <- Hw1).
  assert (Hlist1 : listing_at w1 all_ids).
  { eapply listing_at_offline; [|exact Hlist]. by etrans. }
  rewrite (bind_ok _ _ _ _ _ (fetch_talk_ids_eq _ _ Hlist1)) in H.
  set (w2 := World _ _ _ _) in H.
  assert (Hq2 : quiet w w2).
  { etrans; [apply offline_quiet; by etrans|].
    eapply respects_fetch_talk_ids, (fetch_talk_ids_eq _ _ Hlist1). }
  destruct (print (MsgNewToFetch (length (filter (fun tid => tid ∉ ids) all_ids))) w2)
    as [r3 w3] eqn:Hp3.
  pose proof (respects_print _ _ _ _ Hp3) as Ho3. injection Hp3 as <- Hw3.
  rewrite (bind_ok _ _ _ tt w3) in H by (by rewrite <- Hw3).
  apply bind_inv in H as [(L & w4 & Hlim & H)|[(e & Hlim & ->)|[Hlim ->]]].
  2,3: exfalso; revert Hlim; destruct (limit_applies _ _);
       [rewrite (bind_ok _ _ _ _ _ (print_eq _ _))|..]; done.
  pose proof (respects_limit_print _ _ _ _ _ Hlim) as Ho4.
  apply limit_print_result in Hlim. fold new_ids in Hlim. subst L.
  assert (Hq4 : quiet w w4).
  { etrans; [exact Hq2|]. apply offline_quiet. by etrans. }
  clear Ho0 Ho1 Hq2 Ho3 Ho4 Hw1 Hw3.
  destruct new_ids as [|tid0 rest].
  - rewrite (bind_ok _ _ _ _ _ (print_eq _ _)) in H. injection H as <- <-.
    exists 0%nat. split; [done|]. split; [|done].
    destruct Hq4 as (_ & _ & _ & Hc). simpl.
    by rewrite detail_calls_app, Hc, !app_nil_r.
  - rewrite (bind_ok _ _ _ _ _ (print_eq _ _)) in H.
    set (w5 := World _ _ _ _) in H.
    assert (Hc5 : detail_calls (trace w5) = detail_calls (trace w)).
    { destruct Hq4 as (_ & _ & _ & Hc). unfold w5. simpl.
      by rewrite detail_calls_app, Hc, app_nil_r. }
    apply bind_inv in H as [([N failed] & w6 & Hloop & H)|[(e & Hloop & ->)|[Hloop ->]]];
      apply fetch_loop_calls in Hloop as (j & Hj & Hcalls & Hok);
      rewrite Hc5 in Hcalls.
    + specialize (Hok _ eq_refl). subst j. rewrite firstn_all in Hcalls.
      exists (length (tid0 :: rest)). split; [done|]. rewrite firstn_all.
      split; [|done].
      rewrite (bind_ok _ _ _ _ _ (print_eq _ _)) in H.
      destruct (0 <? failed)%nat.
      * rewrite (bind_ok _ _ _ _ _ (print_eq _ _)) in H. injection H as _ <-.
        simpl. by rewrite !detail_calls_app, Hcalls, !app_nil_r.
      * rewrite bind_mret in H. injection H as _ <-.
        simpl. by rewrite !detail_calls_app, Hcalls, !app_nil_r.
    + exists j. by repeat split.
    + exists j. by repeat split.
Qed.

(** ** Runs that return *)

Lemma keyed_ok talks : Forall int_id talks -> exists ks, keyed talks = Ok ks.
Proof.
  induction 1 as [|t talks [z Hz] _ [ks IH]]; [by exists []|].
  exists ((z, t) :: ks). simpl. unfold talk_id_of, py_getitem.
  rewrite Hz. simpl. by rewrite IH.
Qed.

Lemma sort_by_id_desc_ok talks :
  Forall int_id talks -> exists sorted, sort_by_id_desc talks = Ok sorted.
Proof.
  intros [ks Hks]%keyed_ok. unfold sort_by_id_desc. rewrite Hks. by eexists.
Qed.

Lemma load_int_ids filename w E ids w0 :
  load_existing_talks filename w = (Ok (E, ids), w0) -> Forall int_id E.
Proof.
  intros (zs & Hzs & _)%load_ids. revert zs Hzs.
  induction E as [|t E IH]; intros [|z zs] Hzs; try done.
  injection Hzs as Ht HE. constructor; [by exists z|by eapply IH].
Qed.

Lemma checkpoint_returns filename save_interval existing_talks i new_talks w :
  save_interval <> 0 ->
  Forall int_id (existing_talks ++ new_talks) ->
  exists w', checkpoint filename save_interval existing_talks i new_talks w = (Ok tt, w') /\
             remote w' = remote w.
Proof.
  intros Hne [sorted Hs]%sort_by_id_desc_ok. unfold checkpoint.
  destruct (Z.eqb_spec save_interval 0) as [|_]; [done|].
  destruct (_ =? 0); [|by exists w].
  rewrite bind_lift, Hs, (bind_ok _ _ _ _ _ (save_talks_eq _ _ _)), print_eq.
  by eexists.
Qed.

Lemma sleep_returns delay_s w :
  0 <= Qnum delay_s ->
  exists w', sleep delay_s w = (Ok tt, w') /\ remote w' = remote w.
Proof.
  intros Hd. unfold sleep. destruct (Z.ltb_spec (Qnum delay_s) 0); [lia|].
  by eexists.
Qed.

Lemma fetch_step_returns filename delay_s save_interval existing_talks total
    i talk_id new_talks failed_count w :
  well_formed_details (remote w) ->
  save_interval <> 0 -> 0 <= Qnum delay_s ->
  Forall int_id (existing_talks ++ new_talks) ->
  exists nt fc w',
    fetch_step filename delay_s save_interval existing_talks total
      i talk_id new_talks failed_count w = (Ok (nt, fc), w') /\
    remote w' = remote w /\ Forall int_id (existing_talks ++ nt).
Proof.
  intros Hwf Hne Hd Hint. unfold fetch_step.
  destruct (fetch_talk_details talk_id 5 w) as [r1 w1] eqn:Hdet.
  destruct (fetch_talk_details_inv _ _ _ _ _ Hdet) as (Hr1 & _ & _ & _ & v & -> & Hv).
  rewrite (bind_ok _ _ _ _ _ Hdet).
  assert (exists nt fc,
            (if py_truthy v
             then match v with
                  | JObj data =>
                      talk ← lift (parse_talk data);
                      mret (new_talks ++ [asdict talk], failed_count)
                  | _ => raise AttributeError
                  end
             else mret (new_talks, S failed_count)) w1 = (Ok (nt, fc), w1) /\
            Forall int_id (existing_talks ++ nt)) as (nt & fc & Hbranch & Hint').
  { destruct (py_truthy v) eqn:Htruthy; [|by eexists _, _].
    destruct Hv as [->|(n & status & Hrem & H429 & Herr)]; [done|].
    destruct (Hwf _ _ _ _ Hrem H429 Herr Htruthy) as (d & talk & z & -> & Hp & Hid).
    rewrite bind_lift, Hp. eexists _, _. split; [done|].
    rewrite app_assoc. apply Forall_app. split; [done|].
    constructor; [|done]. exists z.
    rewrite (parse_talk_id _ _ Hp). unfold py_get. by rewrite Hid. }
  rewrite (bind_ok _ _ _ _ _ Hbranch).
  assert (exists w2, (if Z.of_nat (S i) mod 10 =? 0
                      then print (MsgProgress (S i) total
                                    (length existing_talks + length nt))
                      else mret tt) w1 = (Ok tt, w2) /\ remote w2 = remote w1)
    as (w2 & Hprog & Hr2).
  { destruct (_ =? 0); by eexists. }
  rewrite (bind_ok _ _ _ _ _ Hprog).
  destruct (checkpoint_returns filename save_interval existing_talks i nt w2 Hne Hint')
    as (w3 & Hcp & Hr3).
  rewrite (bind_ok _ _ _ _ _ Hcp).
  destruct (sleep_returns delay_s w3 Hd) as (w4 & Hsl & Hr4).
  rewrite (bind_ok _ _ _ _ _ Hsl).
  eexists _, _, _. split; [done|]. split; [congruence|done].
Qed.

Lemma fetch_loop_returns filename delay_s save_interval existing_talks total ids :
  forall i new_talks failed_count w,
    well_formed_details (remote w) ->
    save_interval <> 0 -> 0 <= Qnum delay_s ->
    Forall int_id (existing_talks ++ new_talks) ->
    exists N failed w',
      fetch_loop filename delay_s save_interval existing_talks total
        i ids new_talks failed_count w = (Ok (N, failed), w') /\
      Forall int_id (existing_talks ++ N).
Proof.
  induction ids as [|talk_id rest IH]; intros i nt fc w Hwf Hne Hd Hint.
  - by eexists _, _, _.
  - cbn [fetch_loop].
    destruct (fetch_step_returns filename delay_s save_interval existing_talks total
                i talk_id nt fc w Hwf Hne Hd Hint) as (nt1 & fc1 & w1 & Hstep & Hr & Hint1).
    rewrite (bind_ok _ _ _ _ _ Hstep). apply IH; [by rewrite Hr|done..].
Qed.

(** With a snapshot that loads, a listing that answers, well-formed
    details, a nonzero save interval and a delay that is not negative,
    [fetch_talks_incremental] returns. *)
Lemma fetch_talks_incremental_returns filename limit delay_s save_interval w
    E ids w0 all_ids :
  load_existing_talks filename w = (Ok (E, ids), w0) ->
  listing_at w all_ids ->
  well_formed_details (remote w) ->
  save_interval <> 0 -> 0 <= Qnum delay_s ->
  exists R w', fetch_talks_incremental filename limit delay_s save_interval w = (Ok R, w').
Proof.
  intros Hload Hlist Hwf Hne Hd. unfold fetch_talks_incremental.
  pose proof (respects_load _ _ _ _ Hload) as Ho0.
  rewrite (bind_ok _ _ _ _ _ Hload), (bind_ok _ _ _ _ _ (print_eq _ _)).
  set (w1 := World _ _ _ _).
  assert (Ho1 : offline w w1).
  { etrans; [exact Ho0|]. by eapply respects_print, print_eq. }
  rewrite (bind_ok _ _ _ _ _ (fetch_talk_ids_eq _ _ (listing_at_offline _ _ _ Ho1 Hlist))).
  rewrite (bind_ok _ _ _ _ _ (print_eq _ _)).
  set (w3 := World _ _ _ _).
  assert (Hr3 : remote w3 = remote w) by (simpl; apply Ho0).
  assert (exists w4,
            (if limit_applies limit (length (filter (fun tid => tid ∉ ids) all_ids))
             then print (MsgLimiting (default 0 limit));;
                  mret (py_slice_to (default 0 limit)
                          (filter (fun tid => tid ∉ ids) all_ids))
             else mret (filter (fun tid => tid ∉ ids) all_ids)) w3
            = (Ok (limited limit (filter (fun tid => tid ∉ ids) all_ids)), w4) /\
            remote w4 = remote w) as (w4 & Hlim & Hr4).
  { unfold limited. destruct (limit_applies _ _); [|by eexists].
    rewrite (bind_ok _ _ _ _ _ (print_eq _ _)). by eexists. }
  rewrite (bind_ok _ _ _ _ _ Hlim).
  destruct (limited limit (filter (fun tid => tid ∉ ids) all_ids)) as [|tid0 rest].
  - rewrite (bind_ok _ _ _ _ _ (print_eq _ _)). by eexists _, _.
  - rewrite (bind_ok _ _ _ _ _ (print_eq _ _)).
    set (w5 := World _ _ _ _).
    destruct (fetch_loop_returns filename delay_s save_interval E
                (length (tid0 :: rest)) (tid0 :: rest) 0 [] 0 w5)
      as (N & failed & w6 & Hloop & Hint);
      [unfold w5; simpl; by rewrite Hr4|done..| |].
    { rewrite app_nil_r. by eapply load_int_ids. }
    rewrite (bind_ok _ _ _ _ _ Hloop), (bind_ok _ _ _ _ _ (print_eq _ _)).
    destruct (sort_by_id_desc_ok _ Hint) as [R HR].
    destruct (0 <? failed)%nat.
    + rewrite (bind_ok _ _ _ _ _ (print_eq _ _)). unfold lift. rewrite HR.
      by eexists _, _.
    + rewrite bind_mret. unfold lift. rewrite HR. by eexists _, _.
Qed.

(** ** Checkpoints *)

(** C4, the claim as stated fails: with [save_interval = 2] and the new IDs
    1, 2, 3 of which talk 1 cannot be fetched, the loop ends with two
    successful fetches, and the file holds talk 2 only (the checkpoint
    came after the second attempt). *)
Lemma checkpoint_counts_attempts :
  ~ checkpoint_after_successes Examples.snapshot_file 0 2 [] [1; 2; 3]
      Examples.w_talk_1_gone.
Proof.
  intros H.
  edestruct H as (all_talks & Hsort & Hfile).
  - vm_compute. reflexivity.
  - discriminate.
  - reflexivity.
  - vm_compute in Hsort. injection Hsort as <-.
    vm_compute in Hfile. discriminate.
Qed.

Section LaterSaves.
Variables (filename : string) (delay_s : Q) (save_interval : Z).
Variable existing_talks : list Dict.
Variable total : nat.

Lemma saves_keep_quiet kept w w' : quiet w w' -> saves_keep filename kept w w'.
Proof.
  intros (_ & Hf & Hw & _). exists []. by rewrite app_nil_r.
Qed.

Lemma saves_keep_trans kept w1 w2 w3 :
  saves_keep filename kept w1 w2 -> saves_keep filename kept w2 w3 ->
  saves_keep filename kept w1 w3.
Proof.
  intros (ws1 & Hw1 & Hk1 & Hf1) (ws2 & Hw2 & Hk2 & Hf2).
  exists (ws1 ++ ws2). split; [by rewrite Hw2, Hw1, app_assoc|].
  split; [by apply Forall_app|].
  intros [-> ->]%app_eq_nil. by rewrite Hf2, Hf1.
Qed.

Lemma holds_records_fewer kept more fv :
  holds_records filename (kept ++ more) fv -> holds_records filename kept fv.
Proof.
  intros (Hf & talks & more' & Hv & Hperm). split; [done|].
  exists talks, (more ++ more'). split; [done|]. by rewrite Hperm, app_assoc.
Qed.

Lemma saves_keep_fewer kept more w w' :
  saves_keep filename (kept ++ more) w w' -> saves_keep filename kept w w'.
Proof.
  intros (ws & Hw & Hk & Hf). exists ws. split; [done|]. split; [|done].
  eapply Forall_impl; [exact Hk|]. apply holds_records_fewer.
Qed.

Lemma fetch_step_saves i talk_id new_talks failed_count w r w' :
  fetch_step filename delay_s save_interval existing_talks total
    i talk_id new_talks failed_count w = (r, w') ->
  saves_keep filename (existing_talks ++ new_talks) w w' /\
  forall nt fc, r = Ok (nt, fc) -> exists more, nt = new_talks ++ more.
Proof.
  intros (v & w1 & Hd & H)%fetch_step_inv.
  apply fetch_talk_details_inv in Hd as (Hr1 & Hf1 & Hw1 & _).
  assert (Hk1 : saves_keep filename (existing_talks ++ new_talks) w w1).
  { exists []. by rewrite app_nil_r. }
  destruct H as [[Hno ->]|(nt' & fc' & w2 & rc & w3 & Hres & Ho12 & Hc & Ho3 & Hr)].
  { split; [done|]. intros nt fc ->. by destruct (Hno (nt, fc)). }
  assert (Hmore : exists more, nt' = new_talks ++ more).
  { destruct Hres as [_|data talk _ _ _]; [exists []; by rewrite app_nil_r|by eexists]. }
  split.
  - eapply saves_keep_trans; [exact Hk1|].
    eapply saves_keep_trans; [apply saves_keep_quiet, offline_quiet, Ho12|].
    eapply saves_keep_trans; [|apply saves_keep_quiet, offline_quiet, Ho3].
    apply checkpoint_inv in Hc as [[_ ->]|(_ & _ & [[_ ->]|(_ & all & Hs & ->)])];
      try (apply saves_keep_quiet; reflexivity).
    exists [(filename, JList (map JObj all))]. split.
    { simpl. by rewrite writes_app. }
    split; [|done]. constructor; [|done]. split; [done|].
    destruct Hmore as [more ->]. exists all, more. split; [done|].
    apply sort_by_id_desc_inv in Hs as (Hperm & _). by rewrite Hperm, app_assoc.
  - intros nt fc ->. destruct Hr as [[[= <- <-] _]|Hno]; [done|].
    by destruct (Hno (nt, fc)).
Qed.

Lemma fetch_loop_saves ids :
  forall i new_talks failed_count w r w',
    fetch_loop filename delay_s save_interval existing_talks total
      i ids new_talks failed_count w = (r, w') ->
    saves_keep filename (existing_talks ++ new_talks) w w'.
Proof.
  induction ids as [|talk_id rest IH]; intros i nt fc w r w' H.
  - injection H as <- <-. apply saves_keep_quiet. reflexivity.
  - cbn [fetch_loop] in H.
    apply bind_inv in H as [([nt1 fc1] & w1 & Hstep & H)|[(e & Hstep & ->)|[Hstep ->]]];
      destruct (fetch_step_saves _ _ _ _ _ _ _ Hstep) as [Hk Hmore]; try done.
    destruct (Hmore _ _ eq_refl) as [more ->].
    apply IH in H. eapply saves_keep_trans; [exact Hk|].
    rewrite app_assoc in H. by eapply saves_keep_fewer.
Qed.
End LaterSaves.

Lemma calls_only_new filename limit delay_s save_interval w E ids w0 all_ids r w' :
  load_existing_talks filename w = (Ok (E, ids), w0) ->
  listing_at w all_ids ->
  fetch_talks_incremental filename limit delay_s save_interval w = (r, w') ->
  exists calls,
    detail_calls (trace w') = detail_calls (trace w) ++ calls /\
    calls `sublist_of` all_ids /\
    Forall (fun tid => id_json tid ∉ talk_ids E) calls.
Proof.
  intros Hload Hlist H.
  destruct (fetch_talks_incremental_calls _ _ _ _ _ _ _ _ _ _ _ Hload Hlist H)
    as (j & _ & Hcalls & _).
  eexists. split; [exact Hcalls|].
  assert (Hsub : take j (limited limit (filter (fun tid => tid ∉ ids) all_ids))
                 `sublist_of` filter (fun tid => tid ∉ ids) all_ids).
  { etrans; [apply sublist_take|]. apply limited_sublist. }
  split.
  - etrans; [exact Hsub|]. apply sublist_filter.
  - apply Forall_forall. intros tid Hin.
    eapply not_in_ids_not_in_snapshot; [exact Hload|].
    apply (sublist_subseteq _ _ Hsub) in Hin.
    by apply list_elem_of_filter in Hin as [? _].
Qed.

(** C4, amended. After every [save_interval] detail-fetch attempts
    (iterations of the loop, successful or not), the file holds the merge
    of the existing talks and of the new talks fetched so far, sorted by
    ID, newest first, and the loop goes on from that world.  Whatever
    becomes of the run after that, every list it saves holds the records
    of this checkpoint, and as long as it saves nothing the file holds the
    checkpoint; and a run started on the file of the checkpoint calls
    [fetch_talk_details] for none of the IDs of its records. *)
Theorem checkpoint_cadence (filename : string) (delay_s : Q) (save_interval : Z)
    (existing_talks : list Dict) (total : nat) (l1 l2 : list Z)
    (N1 : list Dict) (failed1 : nat) (w w1 : world) :
  l1 <> [] ->
  Z.of_nat (length l1) mod save_interval = 0 ->
  fetch_loop filename delay_s save_interval existing_talks total 0 l1 [] 0 w
  = (Ok (N1, failed1), w1) ->
  exists all_talks,
    sort_by_id_desc (existing_talks ++ N1) = Ok all_talks /\
    all_talks ≡ₚ existing_talks ++ N1 /\
    sorted_by_id_desc all_talks /\
    files w1 !! filename = Some (JsonText (JList (map JObj all_talks))) /\
    fetch_loop filename delay_s save_interval existing_talks total 0 (l1 ++ l2) [] 0 w
    = fetch_loop filename delay_s save_interval existing_talks total
        (length l1) l2 N1 failed1 w1 /\
    (forall r w',
       fetch_loop filename delay_s save_interval existing_talks total 0 (l1 ++ l2) [] 0 w
       = (r, w') ->
       exists later,
         writes (trace w') = writes (trace w1) ++ later /\
         Forall (holds_records filename all_talks) later /\
         (later = [] ->
          files w' !! filename = Some (JsonText (JList (map JObj all_talks))))) /\
    (forall limit' delay' interval' w2 all_ids r2 w2',
       files w2 !! filename = Some (JsonText (JList (map JObj all_talks))) ->
       listing_at w2 all_ids ->
       fetch_talks_incremental filename limit' delay' interval' w2 = (r2, w2') ->
       exists calls,
         detail_calls (trace w2') = detail_calls (trace w2) ++ calls /\
         calls `sublist_of` all_ids /\
         Forall (fun tid => id_json tid ∉ talk_ids (existing_talks ++ N1)) calls).
Proof.
  intros Hne Hmod Hloop.
  assert (exists all_talks,
            sort_by_id_desc (existing_talks ++ N1) = Ok all_talks /\
            files w1 !! filename = Some (JsonText (JList (map JObj all_talks))))
    as (all_talks & Hsort & Hfile).
  { destruct (exists_last Hne) as (init & x & ->).
    rewrite fetch_loop_app in Hloop.
    apply bind_Ok_inv in Hloop as ([nt fc] & w0 & _ & Hlast).
    cbn [fetch_loop] in Hlast.
    apply bind_Ok_inv in Hlast as ([nt' fc'] & w0' & Hstep & [= -> -> ->]).
    rewrite length_app, Nat.add_comm in Hmod. simpl in Hmod.
    by destruct (fetch_step_checkpointed _ _ _ _ _ _ _ _ _ _ _ _ _ Hstep Hmod)
      as (all_talks & ? & ?); exists all_talks. }
  destruct (sort_by_id_desc_inv _ _ Hsort) as (Hperm & Hsorted & Hint).
  assert (Hcont :
    fetch_loop filename delay_s save_interval existing_talks total 0 (l1 ++ l2) [] 0 w
    = fetch_loop filename delay_s save_interval existing_talks total
        (length l1) l2 N1 failed1 w1).
  { by rewrite fetch_loop_app, (bind_ok _ _ _ _ _ Hloop). }
  exists all_talks. do 5 (split; [done|]). split.
  - intros r w' Hrun. rewrite Hcont in Hrun.
    apply fetch_loop_saves in Hrun as (later & Hw & Hk & Hf).
    exists later. split; [done|]. split.
    + eapply Forall_impl; [exact Hk|]. intros fv (Hfv & talks & more & Hv & Hp).
      split; [done|]. exists talks, more. split; [done|]. by rewrite Hp, Hperm.
    + intros Hnil. by rewrite (Hf Hnil).
  - intros limit' delay' interval' w2 all_ids r2 w2' Hfile2 Hlist Hrun.
    assert (Hint' : Forall (fun t => exists z, dict_lookup "id" t = id_json z) all_talks)
      by by rewrite Hperm.
    destruct (all_int_ids _ Hint') as [zs Hzs].
    pose proof (load_snapshot_eq _ _ _ _ Hfile2 Hzs) as Hload.
    destruct (calls_only_new _ _ _ _ _ _ _ _ _ _ _ Hload Hlist Hrun)
      as (calls & Hcalls & Hsub & Hnew).
    exists calls. split; [done|]. split; [done|].
    eapply Forall_impl; [exact Hnew|]. intros tid Hnot Hin. apply Hnot.
    by rewrite (talk_ids_perm _ _ Hperm).
Qed.

Lemma checkpoint_cadence_witness :
  exists w1 all_talks,
    sort_by_id_desc ([] ++ [ Examples.fetched 2 ]) = Ok all_talks /\
    all_talks ≡ₚ [] ++ [ Examples.fetched 2 ] /\
    sorted_by_id_desc all_talks /\
    files w1 !! Examples.snapshot_file = Some (JsonText (JList (map JObj all_talks))) /\
    fetch_loop Examples.snapshot_file 0 2 [] 3 0 ([1; 2] ++ [3]) [] 0
      Examples.w_talk_1_gone
    = fetch_loop Examples.snapshot_file 0 2 [] 3 (length [1; 2]) [3]
        [ Examples.fetched 2 ] 1 w1 /\
    (forall r w',
       fetch_loop Examples.snapshot_file 0 2 [] 3 0 ([1; 2] ++ [3]) [] 0
         Examples.w_talk_1_gone = (r, w') ->
       exists later,
         writes (trace w') = writes (trace w1) ++ later /\
         Forall (holds_records Examples.snapshot_file all_talks) later /\
         (later = [] ->
          files w' !! Examples.snapshot_file
          = Some (JsonText (JList (map JObj all_talks))))) /\
    (forall limit' delay' interval' w2 all_ids r2 w2',
       files w2 !! Examples.snapshot_file = Some (JsonText (JList (map JObj all_talks))) ->
       listing_at w2 all_ids ->
       fetch_talks_incremental Examples.snapshot_file limit' delay' interval' w2
       = (r2, w2') ->
       exists calls,
         detail_calls (trace w2') = detail_calls (trace w2) ++ calls /\
         calls `sublist_of` all_ids /\
         Forall (fun tid => id_json tid ∉ talk_ids ([] ++ [ Examples.fetched 2 ])) calls).
Proof.
  eexists.
  refine (checkpoint_cadence Examples.snapshot_file 0 2 [] 3 [1; 2] [3]
            [ Examples.fetched 2 ] 1 Examples.w_talk_1_gone _ _ _ _).
  - discriminate.
  - reflexivity.
  - vm_compute. reflexivity.
Defined.

(** ** The cap on new items *)

Lemma limited_cap k (new_ids : list Z) :
  1 <= k -> k < Z.of_nat (length new_ids) ->
  limited (Some k) new_ids = take (Z.to_nat k) new_ids.
Proof.
  intros Hk Hm. unfold limited, limit_applies, py_slice_to. simpl.
  destruct (Z.eqb_spec k 0); [lia|].
  destruct (Z.ltb_spec k (Z.of_nat (length new_ids))); [|lia].
  simpl. by destruct (Z.leb_spec 0 k); [|lia].
Qed.

Lemma limited_none limit (new_ids : list Z) :
  limit = None \/ limit = Some 0 -> limited limit new_ids = new_ids.
Proof. by intros [-> | ->]. Qed.

(** C6. Cap enforcement: with a limit [k >= 1] and more than [k] listed IDs
    that are not in the snapshot, a run calls [fetch_talk_details] for the
    first [k] new IDs in listing order and for nothing else: exactly [k]
    calls when it returns (as it does when the details are well formed,
    the save interval is not zero and the delay is not negative), a prefix
    of them when it raises; none of these IDs is the ID of a record of the
    snapshot. *)
Theorem cap_enforcement (filename : string) (k : Z) (delay_s : Q)
    (save_interval : Z) (w : world) (E : list Dict) (ids : gset Z) (w0 : world)
    (all_ids : list Z) (r : outcome (list Dict)) (w' : world) :
  1 <= k ->
  load_existing_talks filename w = (Ok (E, ids), w0) ->
  listing_at w all_ids ->
  k < Z.of_nat (length (filter (fun tid => tid ∉ ids) all_ids)) ->
  fetch_talks_incremental filename (Some k) delay_s save_interval w = (r, w') ->
  let capped := take (Z.to_nat k) (filter (fun tid => tid ∉ ids) all_ids) in
  length capped = Z.to_nat k /\
  Forall (fun tid => id_json tid ∉ talk_ids E) capped /\
  (exists j, (j <= Z.to_nat k)%nat /\
     detail_calls (trace w') = detail_calls (trace w) ++ take j capped) /\
  (forall R, r = Ok R ->
     detail_calls (trace w') = detail_calls (trace w) ++ capped) /\
  (well_formed_details (remote w) -> save_interval <> 0 -> 0 <= Qnum delay_s ->
   exists R, r = Ok R).
Proof.
  intros Hk Hload Hlist Hm Hrun capped.
  assert (Hlen : length capped = Z.to_nat k).
  { unfold capped. rewrite length_take. lia. }
  destruct (fetch_talks_incremental_calls _ _ _ _ _ _ _ _ _ _ _ Hload Hlist Hrun)
    as (j & Hj & Hcalls & Hok).
  rewrite (limited_cap _ _ Hk Hm) in Hj, Hcalls, Hok. fold capped in Hj, Hcalls, Hok.
  split; [done|]. split; [|split; [|split]].
  - apply Forall_forall. intros tid Htid.
    apply (not_in_ids_not_in_snapshot _ _ _ _ _ _ Hload).
    apply (subseteq_take (Z.to_nat k)) in Htid.
    by apply list_elem_of_filter in Htid as [? _].
  - exists j. split; [lia|done].
  - intros R HR. rewrite (Hok R HR) in Hcalls. by rewrite firstn_all in Hcalls.
  - intros Hwf Hne Hd.
    destruct (fetch_talks_incremental_returns filename (Some k) delay_s save_interval
                w E ids w0 all_ids Hload Hlist Hwf Hne Hd) as (R & w'' & HR).
    rewrite HR in Hrun. injection Hrun as <- _. by exists R.
Qed.

Lemma cap_enforcement_witness :
  exists (r : outcome (list Dict)) w',
    let capped := [7; 9] in
    length capped = 2%nat /\
    Forall (fun tid => id_json tid ∉ talk_ids [ Examples.fetched 3 ]) capped /\
    (exists j, (j <= 2)%nat /\
       detail_calls (trace w')
       = detail_calls (trace Examples.w_snapshot) ++ take j capped) /\
    (forall R, r = Ok R ->
       detail_calls (trace w') = detail_calls (trace Examples.w_snapshot) ++ capped) /\
    (well_formed_details (remote Examples.w_snapshot) -> 100 <> 0 ->
     0 <= Qnum (3 # 10) -> exists R, r = Ok R).
Proof.
  eexists _, _.
  refine (cap_enforcement Examples.snapshot_file 2 (3 # 10) 100 Examples.w_snapshot
            [ Examples.fetched 3 ] {[ 3 ]} Examples.w_snapshot [7; 3; 9; 5] _ _
            _ _ _ _ _).
  - lia.
  - vm_compute. reflexivity.
  - eexists _, _, _. repeat split; reflexivity.
  - vm_compute. reflexivity.
  - vm_compute. reflexivity.
Defined.

(** C10. A limit of zero means no limit: with [limit = None] or
    [limit = 0] the list of new IDs is not truncated, so a run calls
    [fetch_talk_details] for the listed IDs that are not in the snapshot,
    in listing order: for every one of them when it returns (as it does
    when the details are well formed, the save interval is not zero and
    the delay is not negative), for a prefix of them when it raises; and
    the command line turns [--limit 0] into [None]. *)
Theorem zero_limit_is_unlimited (filename : string) (limit : option Z) (delay_s : Q)
    (save_interval : Z) (w : world) (E : list Dict) (ids : gset Z) (w0 : world)
    (all_ids : list Z) (r : outcome (list Dict)) (w' : world) :
  limit = None \/ limit = Some 0 ->
  load_existing_talks filename w = (Ok (E, ids), w0) ->
  listing_at w all_ids ->
  fetch_talks_incremental filename limit delay_s save_interval w = (r, w') ->
  let new_ids := filter (fun tid => tid ∉ ids) all_ids in
  limited limit new_ids = new_ids /\
  (exists j, (j <= length new_ids)%nat /\
     detail_calls (trace w') = detail_calls (trace w) ++ take j new_ids) /\
  (forall R, r = Ok R ->
     detail_calls (trace w') = detail_calls (trace w) ++ new_ids) /\
  (well_formed_details (remote w) -> save_interval <> 0 -> 0 <= Qnum delay_s ->
   exists R, r = Ok R) /\
  (forall args, arg_limit args = 0 -> cli_limit args = None).
Proof.
  intros Hlimit Hload Hlist Hrun new_ids.
  destruct (fetch_talks_incremental_calls _ _ _ _ _ _ _ _ _ _ _ Hload Hlist Hrun)
    as (j & Hj & Hcalls & Hok).
  rewrite (limited_none _ _ Hlimit) in Hj, Hcalls, Hok. fold new_ids in Hj, Hcalls, Hok.
  split; [by apply limited_none|]. split; [|split; [|split]].
  - by exists j.
  - intros R HR. rewrite (Hok R HR) in Hcalls. by rewrite firstn_all in Hcalls.
  - intros Hwf Hne Hd.
    destruct (fetch_talks_incremental_returns filename limit delay_s save_interval
                w E ids w0 all_ids Hload Hlist Hwf Hne Hd) as (R & w'' & HR).
    rewrite HR in Hrun. injection Hrun as <- _. by exists R.
  - intros args Hz. unfold cli_limit. by rewrite Hz.
Qed.

Lemma zero_limit_is_unlimited_witness :
  exists (r : outcome (list Dict)) w',
    let new_ids := [7; 9; 5] in
    limited (Some 0) new_ids = new_ids /\
    (exists j, (j <= length new_ids)%nat /\
       detail_calls (trace w')
       = detail_calls (trace Examples.w_snapshot) ++ take j new_ids) /\
    (forall R, r = Ok R ->
       detail_calls (trace w') = detail_calls (trace Examples.w_snapshot) ++ new_ids) /\
    (well_formed_details (remote Examples.w_snapshot) -> 100 <> 0 ->
     0 <= Qnum (3 # 10) -> exists R, r = Ok R) /\
    (forall args, arg_limit args = 0 -> cli_limit args = None).
Proof.
  eexists _, _.
  refine (zero_limit_is_unlimited Examples.snapshot_file (Some 0) (3 # 10) 100
            Examples.w_snapshot [ Examples.fetched 3 ] {[ 3 ]} Examples.w_snapshot
            [7; 3; 9; 5] _ _ _ _ _ _).
  - by right.
  - vm_compute. reflexivity.
  - eexists _, _, _. repeat split; reflexivity.
  - vm_compute. reflexivity.
Defined.

(** ** No-loss merge *)

(** The retry loop looks at the remote only, so what it answers in turn
    is told by the remote and the number of requests made so far. *)
Lemma remote_only_ret {A} (a : A) : remote_only (mret a : M A).
Proof. by intros w1 w2 H. Qed.

Lemma remote_only_bind {A B} (m : M A) (f : A -> M B) :
  remote_only m -> (forall a, remote_only (f a)) -> remote_only (m ≫= f).
Proof.
  intros Hm Hf w1 w2 H. unfold mbind, M_bind, bind.
  destruct (Hm w1 w2 H) as [Hr Hw].
  destruct (m w1) as [r1 w1'], (m w2) as [r2 w2']. simpl in Hr, Hw. subst r2.
  destruct r1 as [a|e|]; [by apply Hf|done..].
Qed.

Lemma remote_only_print m : remote_only (print m).
Proof. by intros w1 w2 [H1 H2]. Qed.

Lemma remote_only_emit e : remote_only (emit e).
Proof. by intros w1 w2 [H1 H2]. Qed.

Lemma remote_only_sleep s : remote_only (sleep s).
Proof. intros w1 w2 [H1 H2]. unfold sleep. by destruct (_ <? _). Qed.

Lemma remote_only_http_get u : remote_only (http_get u).
Proof.
  intros w1 w2 [H1 H2]. unfold http_get. simpl. rewrite H1, H2. by repeat split.
Qed.

Lemma remote_only_retry_loop u max_retries attempts :
  remote_only (retry_loop u max_retries attempts).
Proof.
  induction attempts as [|attempt rest IH]; [apply remote_only_ret|].
  cbn [retry_loop].
  assert (Hexc : forall e : request_error,
            remote_only ((if Z.of_nat attempt =? max_retries - 1
                          then print (MsgFetchFailed u e) else sleep 2);;
                         retry_loop u max_retries rest)).
  { intros e. apply remote_only_bind; [|done].
    destruct (_ =? _); [apply remote_only_print|apply remote_only_sleep]. }
  apply remote_only_bind; [apply remote_only_http_get|].
  intros [e|status body]; [apply Hexc|].
  destruct (status =? 429).
  - apply remote_only_bind; [apply remote_only_print|]. intros _.
    apply remote_only_bind; [apply remote_only_sleep|done].
  - destruct (is_error_status status); [apply Hexc|].
    destruct body; [apply remote_only_ret|apply Hexc].
Qed.

Lemma remote_only_fetch_talk_details talk_id max_retries :
  remote_only (fetch_talk_details talk_id max_retries).
Proof.
  unfold fetch_talk_details.
  apply remote_only_bind; [apply remote_only_emit|]. intros _.
  apply remote_only_retry_loop.
Qed.

Lemma remote_only_fetch_item_details endpoint item_id max_retries :
  remote_only (fetch_item_details endpoint item_id max_retries).
Proof. apply remote_only_retry_loop. Qed.

Lemma results_in_turn_cons fetch x rest w v w1 :
  remote_only (fetch x) ->
  fetch x w = (Ok v, w1) ->
  results_in_turn fetch (remote w) (requests_made w) (x :: rest)
  = v :: results_in_turn fetch (remote w) (requests_made w1) rest.
Proof.
  intros Hf Hx. simpl.
  destruct (Hf (World ∅ (remote w) (requests_made w) []) w) as [Hr [_ Hn]]; [done|].
  rewrite Hx in Hr, Hn. simpl in Hr, Hn.
  destruct (fetch x (World ∅ (remote w) (requests_made w) [])) as [r0 w0].
  simpl in Hr, Hn. subst r0. by rewrite Hn.
Qed.

Section LoopRecords.
Variables (filename : string) (delay_s : Q) (save_interval : Z).
Variable existing_talks : list Dict.
Variable total : nat.

Lemma fetch_step_record i talk_id new_talks failed_count w nt fc w' :
  fetch_step filename delay_s save_interval existing_talks total
    i talk_id new_talks failed_count w = (Ok (nt, fc), w') ->
  exists v w1,
    fetch_talk_details talk_id 5 w = (Ok v, w1) /\
    accepted_answer (remote w) (TalkDetail talk_id) v /\
    remote w' = remote w /\ requests_made w' = requests_made w1 /\
    (py_truthy v = true -> is_Some (record_of v)) /\
    nt = new_talks ++ option_list (record_of v).
Proof.
  intros (v & w1 & Hd & H)%fetch_step_inv.
  exists v, w1. split; [done|].
  destruct (fetch_talk_details_inv _ _ _ _ _ Hd) as (Hr1 & _ & _ & _ & v' & [= <-] & Hv).
  split; [done|].
  destruct H as [[Hno _]|(nt' & fc' & w2 & rc & w3 & Hres & Ho12 & Hc & Ho3 & Hr)].
  { by destruct (Hno (nt, fc)). }
  destruct Hr as [[[= <- <-] ->]|Hno]; [|by destruct (Hno (nt, fc))].
  destruct Ho12 as [(Hr2 & _) Hn2]. destruct Ho3 as [(Hr4 & _) Hn4].
  apply checkpoint_frame in Hc as (Hr3 & Hn3 & _).
  split; [congruence|]. split; [congruence|].
  unfold record_of.
  destruct Hres as [Hfalsy|data talk Htruthy -> Hp].
  - rewrite Hfalsy. split; [done|]. simpl. by rewrite app_nil_r.
  - rewrite Htruthy, Hp. split; [by eexists|done].
Qed.

Lemma fetch_loop_records ids :
  forall i new_talks failed_count w N failed w',
    fetch_loop filename delay_s save_interval existing_talks total
      i ids new_talks failed_count w = (Ok (N, failed), w') ->
    let answers := detail_results (remote w) (requests_made w) ids in
    Forall2 (fun tid v => accepted_answer (remote w) (TalkDetail tid) v) ids answers /\
    Forall (fun v => py_truthy v = true -> is_Some (record_of v)) answers /\
    N = new_talks ++ omap record_of answers.
Proof.
  induction ids as [|talk_id rest IH]; intros i nt fc w N failed w' H.
  - injection H as <- <- <-. simpl. split; [constructor|]. split; [done|].
    by rewrite app_nil_r.
  - cbn [fetch_loop] in H.
    apply bind_Ok_inv in H as ([nt1 fc1] & w1 & Hstep & H).
    apply fetch_step_record in Hstep
      as (v & w0 & Hd & Hv & Hr1 & Hn1 & Hsome & ->).
    apply IH in H as (Hacc & Hall & ->). cbv zeta.
    unfold detail_results in *.
    rewrite (results_in_turn_cons (fun t => fetch_talk_details t 5) talk_id rest w v w0
               (remote_only_fetch_talk_details talk_id 5) Hd).
    rewrite Hr1, Hn1 in *. split; [by constructor|]. split; [by constructor|].
    rewrite <- app_assoc. f_equal. simpl. by destruct (record_of v).
Qed.
End LoopRecords.

Lemma listing_at_functional w a b : listing_at w a -> listing_at w b -> a = b.
Proof.
  intros (s1 & d1 & i1 & H1 & _ & Hi1 & Ha) (s2 & d2 & i2 & H2 & _ & Hi2 & Hb).
  rewrite H1 in H2. injection H2 as _ <-. rewrite Hi1 in Hi2. injection Hi2 as <-.
  congruence.
Qed.

(** After a load and a listing that succeed, the run is at the choice
    between nothing new and the loop; one request has been made. *)
Lemma fetch_talks_incremental_prefix filename limit delay_s save_interval w
    E ids w0 all_ids :
  load_existing_talks filename w = (Ok (E, ids), w0) ->
  listing_at w all_ids ->
  let new_ids := limited limit (filter (fun tid => tid ∉ ids) all_ids) in
  exists w4,
    quiet w w4 /\ requests_made w4 = S (requests_made w) /\
    fetch_talks_incremental filename limit delay_s save_interval w
    = match new_ids with
      | [] => (print MsgNoNew;; mret E) w4
      | _ :: _ =>
          (print (MsgFetchingDetails (length new_ids));;
           '(new_talks, failed_count) ←
             fetch_loop filename delay_s save_interval E (length new_ids) 0 new_ids [] 0;
           print (MsgCompleted (length new_talks) (length new_ids));;
           (if (0 <? failed_count)%nat then print (MsgFailed failed_count) else mret tt);;
           lift (sort_by_id_desc (E ++ new_talks))) w4
      end.
Proof.
  intros Hload Hlist new_ids. unfold fetch_talks_incremental.
  pose proof (respects_load _ _ _ _ Hload) as Ho0.
  rewrite (bind_ok _ _ _ _ _ Hload).
  destruct (print (MsgLoaded (length E)) w0) as [r1 w1] eqn:Hp1.
  pose proof (respects_print _ _ _ _ Hp1) as Ho1. injection Hp1 as <- Hw1.
  rewrite (bind_ok _ _ _ tt w1) by (by rewrite <- Hw1).
  assert (Hlist1 : listing_at w1 all_ids).
  { eapply listing_at_offline; [|exact Hlist]. by etrans. }
  rewrite (bind_ok _ _ _ _ _ (fetch_talk_ids_eq _ _ Hlist1)).
  set (w2 := World _ _ _ _).
  assert (Hq2 : quiet w w2).
  { etrans; [apply offline_quiet; by etrans|].
    eapply respects_fetch_talk_ids, (fetch_talk_ids_eq _ _ Hlist1). }
  assert (Hn2 : requests_made w2 = S (requests_made w)).
  { simpl. f_equal. destruct Ho0 as [_ <-]. by destruct Ho1 as [_ <-]. }
  destruct (print (MsgNewToFetch (length (filter (fun tid => tid ∉ ids) all_ids))) w2)
    as [r3 w3] eqn:Hp3.
  pose proof (respects_print _ _ _ _ Hp3) as Ho3. injection Hp3 as <- Hw3.
  rewrite (bind_ok _ _ _ tt w3) by (by rewrite <- Hw3).
  fold new_ids.
  assert (exists w4, offline w3 w4 /\
            (if limit_applies limit (length (filter (fun tid => tid ∉ ids) all_ids))
             then print (MsgLimiting (default 0 limit));;
                  mret (py_slice_to (default 0 limit) (filter (fun tid => tid ∉ ids) all_ids))
             else mret (filter (fun tid => tid ∉ ids) all_ids)) w3 = (Ok new_ids, w4))
    as (w4 & Ho4 & Hlim).
  { unfold new_ids, limited. destruct (limit_applies _ _).
    - rewrite (bind_ok _ _ _ _ _ (print_eq _ _)). eexists. split; [|done].
      by eapply respects_print.
    - by exists w3. }
  rewrite (bind_ok _ _ _ _ _ Hlim). exists w4. split; [|split].
  - etrans; [exact Hq2|]. apply offline_quiet. by etrans.
  - destruct Ho4 as [_ ->]. by destruct Ho3 as [_ ->].
  - by destruct new_ids.
Qed.

(** A run that returns: its result is the loaded snapshot and the records
    of the truthy answers, one for one. *)
Lemma fetch_talks_incremental_merge filename limit delay_s save_interval w E ids w0 R w' :
  load_existing_talks filename w = (Ok (E, ids), w0) ->
  fetch_talks_incremental filename limit delay_s save_interval w = (Ok R, w') ->
  exists all_ids,
    listing_at w all_ids /\
    let new_ids := limited limit (filter (fun tid => tid ∉ ids) all_ids) in
    let answers := detail_results (remote w) (S (requests_made w)) new_ids in
    Forall2 (fun tid v => accepted_answer (remote w) (TalkDetail tid) v) new_ids answers /\
    Forall (fun v => py_truthy v = true -> is_Some (record_of v)) answers /\
    R ≡ₚ E ++ omap record_of answers.
Proof.
  intros Hload Hrun.
  destruct (fetch_talks_incremental_Ok_inv _ _ _ _ _ _ _ Hrun)
    as (E' & ids' & w0' & all_ids & Hload' & Hlist & _).
  rewrite Hload in Hload'. injection Hload' as <- <- <-.
  exists all_ids. split; [done|]. cbv zeta.
  destruct (fetch_talks_incremental_prefix filename limit delay_s save_interval
              w E ids w0 all_ids Hload Hlist) as (w4 & Hq & Hn & Heq).
  cbv zeta in Heq. rewrite Heq in Hrun. clear Heq.
  destruct Hq as (Hr4 & _).
  destruct (limited limit (filter (fun tid => tid ∉ ids) all_ids)) as [|tid0 rest] eqn:Hnew.
  - rewrite (bind_ok _ _ _ _ _ (print_eq _ _)) in Hrun. injection Hrun as <- _.
    simpl. split; [constructor|]. split; [done|]. by rewrite app_nil_r.
  - rewrite (bind_ok _ _ _ _ _ (print_eq _ _)) in Hrun.
    apply bind_Ok_inv in Hrun as ([N failed] & w6 & Hloop & Hrun).
    apply fetch_loop_records in Hloop as (Hacc & Hall & ->).
    cbn [remote requests_made] in Hacc, Hall, Hrun. rewrite Hr4, Hn in *.
    split; [done|]. split; [done|].
    apply bind_Ok_inv in Hrun as ([] & w7 & _ & Hrun).
    apply bind_Ok_inv in Hrun as ([] & w8 & _ & Hrun).
    unfold lift in Hrun. injection Hrun as Hsort _.
    by apply sort_by_id_desc_inv in Hsort as [? _].
Qed.

(** C1. No-loss merge: the result of [fetch_talks_incremental] is the
    existing snapshot [E] loaded from the file together with the records
    [N] fetched in this run, nothing dropped and nothing added.  [N] holds,
    in order, one record [asdict(parse_talk(v))] for every truthy answer
    [v] that [fetch_talk_details] gave for the new listed IDs taken in
    turn, each answer being the body of an accepted answer of the remote
    for that ID.  So the IDs of the result are those of [E] and of [N], and
    when the IDs of [E] and of [N] are pairwise distinct and disjoint the
    result has exactly one record per ID. *)
Theorem no_loss_merge (filename : string) (limit : option Z) (delay_s : Q)
    (save_interval : Z) (w : world) (E : list Dict) (ids : gset Z) (w0 : world)
    (R : list Dict) (w' : world) :
  load_existing_talks filename w = (Ok (E, ids), w0) ->
  fetch_talks_incremental filename limit delay_s save_interval w = (Ok R, w') ->
  exists all_ids,
    listing_at w all_ids /\
    let new_ids := limited limit (filter (fun tid => tid ∉ ids) all_ids) in
    let answers := detail_results (remote w) (S (requests_made w)) new_ids in
    let N := omap record_of answers in
    Forall2 (fun tid v => accepted_answer (remote w) (TalkDetail tid) v) new_ids answers /\
    Forall (fun v => py_truthy v = true -> is_Some (record_of v)) answers /\
    R ≡ₚ E ++ N /\
    (forall x, x ∈ talk_ids R <-> x ∈ talk_ids E \/ x ∈ talk_ids N) /\
    (NoDup (talk_ids E) -> NoDup (talk_ids N) ->
     (forall x, x ∈ talk_ids E -> x ∉ talk_ids N) ->
     NoDup (talk_ids R)).
Proof.
  intros Hload Hrun.
  destruct (fetch_talks_incremental_merge _ _ _ _ _ _ _ _ _ _ Hload Hrun)
    as (all_ids & Hlist & Hacc & Hall & Hperm).
  exists all_ids. split; [done|]. cbv zeta. split; [done|]. split; [done|].
  split; [done|].
  apply talk_ids_perm in Hperm. rewrite talk_ids_app in Hperm. split.
  - intros x. by rewrite Hperm, elem_of_app.
  - intros HE HN Hdisj. rewrite Hperm. by apply NoDup_app.
Qed.

Lemma no_loss_merge_witness :
  exists all_ids,
    listing_at Examples.w_snapshot all_ids /\
    let new_ids := limited (Some 2) (filter (fun tid => tid ∉ ({[ 3 ]} : gset Z)) all_ids) in
    let answers := detail_results (remote Examples.w_snapshot)
                     (S (requests_made Examples.w_snapshot)) new_ids in
    let N := omap record_of answers in
    Forall2 (fun tid v => accepted_answer (remote Examples.w_snapshot) (TalkDetail tid) v)
            new_ids answers /\
    Forall (fun v => py_truthy v = true -> is_Some (record_of v)) answers /\
    [ Examples.fetched 9; Examples.fetched 7; Examples.fetched 3 ]
    ≡ₚ [ Examples.fetched 3 ] ++ N /\
    (forall x, x ∈ talk_ids [ Examples.fetched 9; Examples.fetched 7; Examples.fetched 3 ]
               <-> x ∈ talk_ids [ Examples.fetched 3 ] \/ x ∈ talk_ids N) /\
    (NoDup (talk_ids [ Examples.fetched 3 ]) -> NoDup (talk_ids N) ->
     (forall x, x ∈ talk_ids [ Examples.fetched 3 ] -> x ∉ talk_ids N) ->
     NoDup (talk_ids [ Examples.fetched 9; Examples.fetched 7; Examples.fetched 3 ])).
Proof.
  refine (no_loss_merge Examples.snapshot_file (Some 2) (3 # 10) 100
            Examples.w_snapshot [ Examples.fetched 3 ] {[ 3 ]}
            Examples.w_snapshot _ _ _ _).
  - vm_compute. reflexivity.
  - vm_compute. reflexivity.
Defined.

(** * Further properties of the code *)

(** ** [fetch_talk_details]: what it asks and when it gives up *)

Lemma gets_app tr1 tr2 : gets (tr1 ++ tr2) = gets tr1 ++ gets tr2.
Proof. apply omap_app. Qed.

Lemma prints_app tr1 tr2 : prints (tr1 ++ tr2) = prints tr1 ++ prints tr2.
Proof. apply omap_app. Qed.

Lemma retry_loop_bounded u max_retries attempts :
  forall w, exists v w' k,
    retry_loop u max_retries attempts w = (Ok v, w') /\
    (k <= length attempts)%nat /\ (attempts <> [] -> (1 <= k)%nat) /\
    gets (trace w') = gets (trace w) ++ replicate k u /\
    requests_made w' = (requests_made w + k)%nat.
Proof.
  induction attempts as [|attempt rest IH]; intros w.
  { exists JNull, w, 0%nat. simpl. rewrite app_nil_r, Nat.add_0_r.
    repeat split; try done; lia. }
  cbn [retry_loop].
  assert (Hnext : forall tr,
            gets tr = [] ->
            exists v w' k,
              retry_loop u max_retries rest
                (World (files w) (remote w) (S (requests_made w))
                       ((trace w ++ [EvGet u]) ++ tr)) = (Ok v, w') /\
              (k <= length (attempt :: rest))%nat /\ (1 <= k)%nat /\
              gets (trace w') = gets (trace w) ++ replicate k u /\
              requests_made w' = (requests_made w + k)%nat).
  { intros tr Htr.
    destruct (IH (World (files w) (remote w) (S (requests_made w))
                        ((trace w ++ [EvGet u]) ++ tr)))
      as (v & w' & k & Hrun & Hk & _ & Hgets & Hreq).
    exists v, w', (S k). split; [done|]. simpl in *.
    split; [lia|]. split; [lia|]. split; [|lia].
    rewrite Hgets, !gets_app, Htr, app_nil_r, <- app_assoc. done. }
  assert (Hexc : forall (e : request_error),
             exists v w' k,
               ((if Z.of_nat attempt =? max_retries - 1
                 then print (MsgFetchFailed u e) else sleep 2);;
                retry_loop u max_retries rest)
                 (World (files w) (remote w) (S (requests_made w))
                        (trace w ++ [EvGet u])) = (Ok v, w') /\
               (k <= length (attempt :: rest))%nat /\ (1 <= k)%nat /\
               gets (trace w') = gets (trace w) ++ replicate k u /\
               requests_made w' = (requests_made w + k)%nat).
  { intros e. destruct (_ =? _).
    - rewrite (bind_ok _ _ _ _ _ (print_eq _ _)). by apply Hnext.
    - rewrite (bind_ok _ _ _ _ _ (sleep_nonneg 2 _ ltac:(lia))). by apply Hnext. }
  assert (Hgoal : forall w' k,
            (k <= length (attempt :: rest))%nat /\ (1 <= k)%nat /\
            gets (trace w') = gets (trace w) ++ replicate k u /\
            requests_made w' = (requests_made w + k)%nat ->
            (k <= length (attempt :: rest))%nat /\
            (attempt :: rest <> [] -> (1 <= k)%nat) /\
            gets (trace w') = gets (trace w) ++ replicate k u /\
            requests_made w' = (requests_made w + k)%nat)
    by (intros w' k (Ha & Hb & Hc & Hd); by repeat split).
  cut (exists v w' k,
         (r ← http_get u;
          match r with
          | NetFail e =>
              (if Z.of_nat attempt =? max_retries - 1
               then print (MsgFetchFailed u e) else sleep 2);;
              retry_loop u max_retries rest
          | Http status body =>
              if status =? 429
              then print (MsgRateLimited ((Z.of_nat attempt + 1) * 5));;
                   sleep (inject_Z ((Z.of_nat attempt + 1) * 5));;
                   retry_loop u max_retries rest
              else if is_error_status status
                   then (if Z.of_nat attempt =? max_retries - 1
                         then print (MsgFetchFailed u (HTTPError status))
                         else sleep 2);;
                        retry_loop u max_retries rest
                   else match body with
                        | Some v => mret v
                        | None =>
                            (if Z.of_nat attempt =? max_retries - 1
                             then print (MsgFetchFailed u InvalidJSON)
                             else sleep 2);;
                            retry_loop u max_retries rest
                        end
          end) w = (Ok v, w') /\
         (k <= length (attempt :: rest))%nat /\ (1 <= k)%nat /\
         gets (trace w') = gets (trace w) ++ replicate k u /\
         requests_made w' = (requests_made w + k)%nat).
  { intros (v & w' & k & Hrun & H). exists v, w', k. split; [exact Hrun|].
    by apply Hgoal. }
  unfold mbind at 1, M_bind at 1, bind at 1, http_get at 1.
  destruct (remote w (requests_made w) u) as [e|status body]; [apply Hexc|].
  destruct (status =? 429).
  - rewrite (bind_ok _ _ _ _ _ (print_eq _ _)).
    rewrite (bind_ok _ _ _ _ _ (sleep_nonneg ((Z.of_nat attempt + 1) * 5) _ ltac:(lia))).
    simpl. rewrite <- app_assoc. by apply Hnext.
  - destruct (is_error_status status); [apply Hexc|].
    destruct body as [v|]; [|apply Hexc].
    exists v. eexists. exists 1%nat. split; [done|]. simpl.
    rewrite gets_app. repeat split; try done; lia.
Qed.

(** X1. [fetch_talk_details] keeps to its budget and lets no request
    exception out, whatever the remote does: it makes at most
    [max_retries] requests, all of them for the URL of that talk (at least
    one when [max_retries] is positive, none when it is not), leaves every
    file as it is and saves nothing, and what it returns is [None] or the
    JSON body of an accepted answer of the remote. *)
Theorem fetch_talk_details_bounded (talk_id max_retries : Z) (w : world)
    (r : outcome json) (w' : world) :
  fetch_talk_details talk_id max_retries w = (r, w') ->
  (forall e, r <> Raise (RequestException e)) /\
  (exists k,
     (k <= Z.to_nat max_retries)%nat /\
     (0 < max_retries -> (1 <= k)%nat) /\
     gets (trace w') = gets (trace w) ++ replicate k (TalkDetail talk_id) /\
     requests_made w' = (requests_made w + k)%nat) /\
  files w' = files w /\
  writes (trace w') = writes (trace w) /\
  (forall v, r = Ok v -> accepted_answer (remote w) (TalkDetail talk_id) v).
Proof.
  intros Hrun.
  destruct (retry_loop_bounded (TalkDetail talk_id) max_retries
              (seq 0 (Z.to_nat max_retries))
              (World (files w) (remote w) (requests_made w)
                     (trace w ++ [EvFetchDetails talk_id])))
    as (v & w1 & k & Hloop & Hk & Hpos & Hgets & Hreq).
  assert (Hall : fetch_talk_details talk_id max_retries w = (Ok v, w1)).
  { unfold fetch_talk_details. by rewrite (bind_ok _ _ _ _ _ (emit_eq _ _)). }
  rewrite Hall in Hrun. injection Hrun as <- <-.
  split; [done|]. split.
  { exists k. rewrite length_seq in Hk. split; [done|]. split.
    { intros Hmax. apply Hpos. destruct (Z.to_nat max_retries) eqn:E; [lia|done]. }
    simpl in Hgets, Hreq. rewrite gets_app in Hgets. simpl in Hgets.
    rewrite app_nil_r in Hgets. by split. }
  destruct (fetch_talk_details_inv _ _ _ _ _ Hall) as (_ & Hf & Hw & _ & v' & [= <-] & Hv).
  split; [done|]. split; [done|]. by intros v0 [= <-].
Qed.

Lemma fetch_talk_details_bounded_witness :
  (exists k,
     (k <= Z.to_nat 5)%nat /\
     (0 < 5 -> (1 <= k)%nat) /\
     gets (trace (fetch_talk_details 7 5 Examples.w_rate_limited).2)
     = gets (trace Examples.w_rate_limited) ++ replicate k (TalkDetail 7) /\
     requests_made (fetch_talk_details 7 5 Examples.w_rate_limited).2
     = (requests_made Examples.w_rate_limited + k)%nat) /\
  accepted_answer (remote Examples.w_rate_limited) (TalkDetail 7) (Examples.payload 7).
Proof.
  destruct (fetch_talk_details_bounded 7 5 Examples.w_rate_limited
              (Ok (Examples.payload 7))
              (fetch_talk_details 7 5 Examples.w_rate_limited).2)
    as (_ & Hk & _ & _ & Hv).
  - vm_compute. reflexivity.
  - split; [exact Hk|]. exact (Hv _ eq_refl).
Defined.

Lemma prints_backoff_events u a n :
  prints (backoff_events u a n)
  = map (fun k => MsgRateLimited ((Z.of_nat k + 1) * 5)) (seq a n).
Proof.
  revert a. induction n as [|n IH]; intros a; [done|].
  rewrite backoff_events_S, prints_app, IH. done.
Qed.

Lemma gets_backoff_events u a n : gets (backoff_events u a n) = replicate n u.
Proof.
  revert a. induction n as [|n IH]; intros a; [done|].
  rewrite backoff_events_S, gets_app, IH. done.
Qed.

Lemma retry_loop_all_429 u max_retries n :
  forall a w,
    (forall j, (j < n)%nat -> exists b, remote w (requests_made w + j)%nat u = Http 429 b) ->
    retry_loop u max_retries (seq a n) w
    = (Ok JNull,
       World (files w) (remote w) (requests_made w + n)%nat
             (trace w ++ backoff_events u a n)).
Proof.
  induction n as [|n IH]; intros a w H429.
  - simpl. destruct w. simpl. by rewrite Nat.add_0_r, app_nil_r.
  - change (seq a (S n)) with (a :: seq (S a) n).
    destruct (H429 0%nat ltac:(lia)) as [b Hb]. rewrite Nat.add_0_r in Hb.
    cbn [retry_loop]. unfold mbind at 1, M_bind at 1, bind at 1, http_get at 1.
    rewrite Hb. change (429 =? 429) with true. cbv iota.
    rewrite (bind_ok _ _ _ _ _ (print_eq _ _)).
    rewrite (bind_ok _ _ _ _ _ (sleep_nonneg ((Z.of_nat a + 1) * 5) _ ltac:(lia))).
    rewrite IH.
    + rewrite backoff_events_S. simpl. rewrite <- !app_assoc. simpl.
      do 2 f_equal. lia.
    + simpl. intros j Hj. destruct (H429 (S j) ltac:(lia)) as [b' Hb'].
      exists b'. rewrite <- Hb'. f_equal. lia.
Qed.

(** X2. Rate-limited to the end: when the remote answers every one of the
    [max_retries] requests with 429, [fetch_talk_details] returns [None];
    it has then slept 5, 10, ..., [5 * max_retries] seconds, the last of
    these waits after the last attempt, and it has printed the rate-limit
    notices only, no failure warning. *)
Theorem rate_limited_to_the_end (talk_id max_retries : Z) (w : world) :
  (forall j, (j < Z.to_nat max_retries)%nat ->
     exists b, remote w (requests_made w + j)%nat (TalkDetail talk_id) = Http 429 b) ->
  exists w',
    fetch_talk_details talk_id max_retries w = (Ok JNull, w') /\
    gets (trace w') = gets (trace w)
                      ++ replicate (Z.to_nat max_retries) (TalkDetail talk_id) /\
    sleeps (trace w') = sleeps (trace w) ++ backoff_waits (Z.to_nat max_retries) /\
    prints (trace w')
    = prints (trace w)
      ++ map (fun k => MsgRateLimited ((Z.of_nat k + 1) * 5))
             (seq 0 (Z.to_nat max_retries)).
Proof.
  intros H429. unfold fetch_talk_details.
  rewrite (bind_ok _ _ _ _ _ (emit_eq _ _)).
  rewrite retry_loop_all_429 by exact H429.
  eexists. split; [done|]. simpl. rewrite <- app_assoc.
  rewrite !gets_app, !sleeps_app, !prints_app, sleeps_backoff_events,
    prints_backoff_events, gets_backoff_events.
  simpl. done.
Qed.

Lemma rate_limited_to_the_end_witness :
  exists w',
    fetch_talk_details 7 3 Examples.w_rate_limited = (Ok JNull, w') /\
    gets (trace w') = gets (trace Examples.w_rate_limited)
                      ++ replicate (Z.to_nat 3) (TalkDetail 7) /\
    sleeps (trace w') = sleeps (trace Examples.w_rate_limited)
                        ++ backoff_waits (Z.to_nat 3) /\
    prints (trace w')
    = prints (trace Examples.w_rate_limited)
      ++ map (fun k => MsgRateLimited ((Z.of_nat k + 1) * 5)) (seq 0 (Z.to_nat 3)).
Proof.
  apply (rate_limited_to_the_end 7 3 Examples.w_rate_limited).
  intros j Hj. exists None.
  do 3 (destruct j as [|j]; [reflexivity|]). simpl in Hj. lia.
Defined.

Lemma retry_loop_rejected u max_retries attempt rest w e :
  rejection (remote w (requests_made w) u) = Some e ->
  retry_loop u max_retries (attempt :: rest) w
  = ((if Z.of_nat attempt =? max_retries - 1 then print (MsgFetchFailed u e) else sleep 2);;
     retry_loop u max_retries rest)
      (World (files w) (remote w) (S (requests_made w)) (trace w ++ [EvGet u])).
Proof.
  intros Hrej. cbn [retry_loop]. unfold mbind at 1, M_bind at 1, bind at 1, http_get at 1.
  destruct (remote w (requests_made w) u) as [e'|status body]; simpl in Hrej.
  - by injection Hrej as ->.
  - destruct (status =? 429); [done|].
    destruct (is_error_status status); [by injection Hrej as ->|].
    destruct body; [done|]. by injection Hrej as ->.
Qed.

Lemma retry_loop_all_rejected u max_retries e n :
  forall a w,
    (a + S n)%nat = Z.to_nat max_retries ->
    (forall j, (j <= n)%nat -> is_Some (rejection (remote w (requests_made w + j)%nat u))) ->
    rejection (remote w (requests_made w + n)%nat u) = Some e ->
    retry_loop u max_retries (seq a (S n)) w
    = (Ok JNull, World (files w) (remote w) (requests_made w + S n)%nat
                       (trace w ++ rejected_events u n e)).
Proof.
  induction n as [|n IH]; intros a w Ha Hall Hlast.
  - rewrite Nat.add_0_r in Hlast. change (seq a 1) with [a].
    rewrite (retry_loop_rejected _ _ _ _ _ _ Hlast).
    replace (Z.of_nat a =? max_retries - 1) with true by (symmetry; apply Z.eqb_eq; lia).
    rewrite (bind_ok _ _ _ _ _ (print_eq _ _)). simpl.
    rewrite <- app_assoc. do 2 f_equal. lia.
  - destruct (Hall 0%nat ltac:(lia)) as [e0 He0]. rewrite Nat.add_0_r in He0.
    change (seq a (S (S n))) with (a :: seq (S a) (S n)).
    rewrite (retry_loop_rejected _ _ _ _ _ _ He0).
    replace (Z.of_nat a =? max_retries - 1) with false by (symmetry; apply Z.eqb_neq; lia).
    rewrite (bind_ok _ _ _ _ _ (sleep_nonneg 2 _ ltac:(lia))).
    rewrite IH.
    + simpl. rewrite <- !app_assoc. simpl. do 2 f_equal. lia.
    + lia.
    + simpl. intros j Hj.
      replace (S (requests_made w + j)) with (requests_made w + S j)%nat by lia.
      apply Hall. lia.
    + simpl.
      by replace (S (requests_made w + n)) with (requests_made w + S n)%nat by lia.
Qed.

Lemma rejected_events_observed u n e :
  gets (rejected_events u n e) = replicate (S n) u /\
  sleeps (rejected_events u n e) = replicate n (inject_Z 2) /\
  prints (rejected_events u n e) = [MsgFetchFailed u e].
Proof.
  unfold rejected_events. rewrite gets_app, sleeps_app, prints_app.
  assert (H : gets (concat (replicate n [ EvGet u; EvSleep 2 ])) = replicate n u /\
              sleeps (concat (replicate n [ EvGet u; EvSleep 2 ]))
              = replicate n (inject_Z 2) /\
              prints (concat (replicate n [ EvGet u; EvSleep 2 ])) = []).
  { induction n as [|n (IHg & IHs & IHp)]; [done|].
    cbn [replicate concat]. rewrite gets_app, sleeps_app, prints_app, IHg, IHs, IHp.
    done. }
  destruct H as (-> & -> & ->). split; [|split; [apply app_nil_r|done]].
  change (gets [EvGet u; EvPrint (MsgFetchFailed u e)]) with (replicate 1 u).
  rewrite <- replicate_add. f_equal. lia.
Qed.

(** X3. Rejected to the end: when each of the [max_retries] answers is a
    failure of the transport, a 4xx or 5xx status other than 429 or a body
    that is not JSON, [fetch_talk_details] returns [None] after
    [max_retries] requests; it has slept two seconds after every attempt
    but the last and printed one warning, which carries the error of the
    last attempt only. *)
Theorem rejected_to_the_end (talk_id max_retries : Z) (w : world) (e : request_error) :
  0 < max_retries ->
  (forall j, (j < Z.to_nat max_retries)%nat ->
     is_Some (rejection (remote w (requests_made w + j)%nat (TalkDetail talk_id)))) ->
  rejection (remote w (requests_made w + (Z.to_nat max_retries - 1))%nat
                    (TalkDetail talk_id)) = Some e ->
  exists w',
    fetch_talk_details talk_id max_retries w = (Ok JNull, w') /\
    gets (trace w') = gets (trace w)
                      ++ replicate (Z.to_nat max_retries) (TalkDetail talk_id) /\
    sleeps (trace w')
    = sleeps (trace w) ++ replicate (Z.to_nat max_retries - 1) (inject_Z 2) /\
    prints (trace w') = prints (trace w) ++ [MsgFetchFailed (TalkDetail talk_id) e].
Proof.
  intros Hpos Hall Hlast. unfold fetch_talk_details.
  rewrite (bind_ok _ _ _ _ _ (emit_eq _ _)).
  destruct (Z.to_nat max_retries) as [|n] eqn:Hn; [lia|].
  replace (S n - 1)%nat with n in * by lia.
  rewrite (retry_loop_all_rejected _ _ e n).
  - eexists. split; [done|]. simpl. rewrite <- app_assoc.
    rewrite !gets_app, !sleeps_app, !prints_app.
    destruct (rejected_events_observed (TalkDetail talk_id) n e) as (-> & -> & ->).
    done.
  - lia.
  - simpl. intros j Hj. apply Hall. lia.
  - exact Hlast.
Qed.

Lemma rejected_to_the_end_witness :
  exists w',
    fetch_talk_details 7 5 Examples.w_absent = (Ok JNull, w') /\
    gets (trace w') = gets (trace Examples.w_absent)
                      ++ replicate (Z.to_nat 5) (TalkDetail 7) /\
    sleeps (trace w')
    = sleeps (trace Examples.w_absent) ++ replicate (Z.to_nat 5 - 1) (inject_Z 2) /\
    prints (trace w')
    = prints (trace Examples.w_absent) ++ [MsgFetchFailed (TalkDetail 7) ConnectionError].
Proof.
  apply (rejected_to_the_end 7 5 Examples.w_absent ConnectionError).
  - lia.
  - intros j _. by exists ConnectionError.
  - reflexivity.
Defined.

(** ** Snapshots and their order *)

(** X4. Loading a snapshot: a file that holds a JSON array of records
    which all carry an int ID is read by [load_existing_talks] as these
    records in their order, with the set of exactly their IDs, without a
    warning and without any other effect. *)
Theorem load_well_formed_snapshot (talks : list Dict) (filename : string) (w : world) :
  files w !! filename = Some (JsonText (JList (map JObj talks))) ->
  Forall int_id talks ->
  exists ids,
    load_existing_talks filename w = (Ok (talks, ids), w) /\
    (forall z, z ∈ ids <-> id_json z ∈ talk_ids talks).
Proof.
  intros Hfile Hint. destruct (all_int_ids talks Hint) as [zs Hzs].
  exists (list_to_set zs). split; [by apply load_snapshot_eq|].
  intros z. rewrite elem_of_list_to_set, Hzs, list_elem_of_fmap. split.
  - intros Hz. by exists z.
  - intros (z' & Heq & Hz'). by apply (inj id_json) in Heq as ->.
Qed.

Lemma load_well_formed_snapshot_witness :
  exists ids,
    load_existing_talks Examples.snapshot_file Examples.w_snapshot
    = (Ok ([ Examples.fetched 3 ], ids), Examples.w_snapshot) /\
    (forall z, z ∈ ids <-> id_json z ∈ talk_ids [ Examples.fetched 3 ]).
Proof.
  apply (load_well_formed_snapshot [ Examples.fetched 3 ] Examples.snapshot_file
           Examples.w_snapshot).
  - reflexivity.
  - repeat constructor. by exists 3.
Defined.

Lemma insert_desc_filter (z : Z) x l :
  filter (fun kt : Z * Dict => kt.1 = z) (insert_desc x l)
  = filter (fun kt : Z * Dict => kt.1 = z) (x :: l).
Proof.
  induction l as [|y l IH]; [done|]. simpl.
  destruct (Z.leb_spec y.1 x.1) as [Hle|Hlt]; [done|].
  rewrite filter_cons, IH, !filter_cons.
  destruct (decide (y.1 = z)), (decide (x.1 = z)); try done. lia.
Qed.

Lemma sort_desc_filter (z : Z) l :
  filter (fun kt : Z * Dict => kt.1 = z) (sort_desc l)
  = filter (fun kt : Z * Dict => kt.1 = z) l.
Proof.
  induction l as [|x l IH]; [done|].
  change (sort_desc (x :: l)) with (insert_desc x (sort_desc l)).
  by rewrite insert_desc_filter, !filter_cons, IH.
Qed.

Lemma with_id_keyed (z : Z) (l : list (Z * Dict)) :
  Forall (fun kt => talk_id_of kt.2 = Ok kt.1) l ->
  with_id z (map snd l) = map snd (filter (fun kt : Z * Dict => kt.1 = z) l).
Proof.
  induction 1 as [|[k t] l Hk _ IH]; [done|]. simpl in Hk.
  apply talk_id_of_lookup in Hk. unfold with_id in *.
  cbn [map snd]. rewrite !filter_cons, IH. cbn [fst snd].
  assert (Hz : has_id z t = bool_decide (k = z)).
  { unfold has_id. rewrite Hk. simpl. by destruct (Z.eqb_spec k z), (bool_decide_reflect (k = z)). }
  rewrite Hz. destruct (decide (k = z)) as [Heq|Hne].
  - rewrite (bool_decide_eq_true_2 _ Heq). by destruct (decide (true = true)).
  - rewrite (bool_decide_eq_false_2 _ Hne). by destruct (decide (false = true)).
Qed.

Lemma keyed_map_snd (l : list (Z * Dict)) :
  Forall (fun kt => talk_id_of kt.2 = Ok kt.1) l -> keyed (map snd l) = Ok l.
Proof.
  induction 1 as [|[k t] l Hk _ IH]; [done|]. simpl in *. by rewrite Hk, IH.
Qed.

Lemma sort_desc_sorted_id l :
  StronglySorted (fun a b : Z * Dict => b.1 <= a.1) l -> sort_desc l = l.
Proof.
  induction 1 as [|x l _ IH Hx]; [done|].
  change (sort_desc (x :: l)) with (insert_desc x (sort_desc l)). rewrite IH.
  destruct l as [|y l]; [done|]. simpl.
  apply Forall_cons in Hx as [Hy _]. by destruct (Z.leb_spec y.1 x.1); [|lia].
Qed.

(** X5. The sort of the snapshot is stable and idempotent: records with
    the same ID come out in the order they went in (so an existing record
    stays before a newly fetched one with its ID), and sorting a sorted
    list gives it back. *)
Theorem sort_by_id_desc_stable (talks sorted : list Dict) :
  sort_by_id_desc talks = Ok sorted ->
  (forall z, with_id z sorted = with_id z talks) /\
  sort_by_id_desc sorted = Ok sorted.
Proof.
  unfold sort_by_id_desc. destruct (keyed talks) as [ks| |] eqn:Hk; try done.
  simpl. intros [= <-]. apply keyed_inv in Hk as [<- Hks].
  assert (Hsorted : Forall (fun kt => talk_id_of kt.2 = Ok kt.1) (sort_desc ks)).
  { by rewrite (sort_desc_perm ks). }
  split.
  - intros z. by rewrite !with_id_keyed, sort_desc_filter.
  - rewrite (keyed_map_snd _ Hsorted). simpl.
    by rewrite (sort_desc_sorted_id _ (sort_desc_sorted ks)).
Qed.

Lemma sort_by_id_desc_stable_witness :
  (forall z,
     with_id z [ Examples.fetched 7; [ ("id", JInt 3); ("title", JStr "a") ];
                 [ ("id", JInt 3); ("title", JStr "b") ] ]
     = with_id z [ [ ("id", JInt 3); ("title", JStr "a") ]; Examples.fetched 7;
                   [ ("id", JInt 3); ("title", JStr "b") ] ]) /\
  sort_by_id_desc [ Examples.fetched 7; [ ("id", JInt 3); ("title", JStr "a") ];
                    [ ("id", JInt 3); ("title", JStr "b") ] ]
  = Ok [ Examples.fetched 7; [ ("id", JInt 3); ("title", JStr "a") ];
         [ ("id", JInt 3); ("title", JStr "b") ] ].
Proof.
  apply (sort_by_id_desc_stable
           [ [ ("id", JInt 3); ("title", JStr "a") ]; Examples.fetched 7;
             [ ("id", JInt 3); ("title", JStr "b") ] ]).
  reflexivity.
Defined.

(** ** The run, whatever its outcome *)

Lemma fetched_plus_failed_gen filename delay_s save_interval existing_talks total ids :
  forall i new_talks failed_count w N failed w',
    fetch_loop filename delay_s save_interval existing_talks total
      i ids new_talks failed_count w = (Ok (N, failed), w') ->
    (length N + failed = length new_talks + failed_count + length ids)%nat /\
    (length new_talks <= length N)%nat /\ (failed_count <= failed)%nat.
Proof.
  induction ids as [|talk_id rest IH]; intros i nt fc w N failed w' H.
  - injection H as <- <- <-. simpl. lia.
  - cbn [fetch_loop] in H.
    apply bind_Ok_inv in H as ([nt1 fc1] & w1 & Hstep & H).
    apply IH in H as (Hsum & Hn & Hf).
    apply fetch_step_inv in Hstep as (v & w0 & _ & [[Hno _]|Hstep]).
    { by destruct (Hno (nt1, fc1)). }
    destruct Hstep as (nt' & fc' & _ & _ & _ & Hres & _ & _ & _ & [[[= <- <-] _]|Hno]).
    2:{ by destruct (Hno (nt1, fc1)). }
    destruct Hres as [_|data talk _ _ Hp].
    + simpl. lia.
    + rewrite length_app in *. simpl in *. lia.
Qed.

(** X6. Every ID of the loop is accounted for once: when the loop returns,
    the records it fetched and the failures it counted add up to the
    number of IDs it was given, every fetched record is one [parse_talk]
    made, and [fetch_talk_details] was called for each ID once, in order. *)
Theorem fetched_plus_failed (filename : string) (delay_s : Q) (save_interval : Z)
    (existing_talks : list Dict) (total : nat) (ids : list Z) (w : world)
    (N : list Dict) (failed : nat) (w' : world) :
  fetch_loop filename delay_s save_interval existing_talks total 0 ids [] 0 w
  = (Ok (N, failed), w') ->
  (length N + failed)%nat = length ids /\
  Forall parsed_record N /\
  detail_calls (trace w') = detail_calls (trace w) ++ ids.
Proof.
  intros H. split; [|split].
  - by destruct (fetched_plus_failed_gen _ _ _ _ _ _ _ _ _ _ _ _ _ H) as [-> _].
  - by destruct (fetch_loop_Ok _ _ _ _ _ _ _ _ _ _ _ _ _ H) as (_ & _ & added & -> & ?).
  - by destruct (fetch_loop_Ok _ _ _ _ _ _ _ _ _ _ _ _ _ H) as (_ & ? & _).
Qed.

Lemma fetched_plus_failed_witness :
  exists N failed w',
    fetch_loop Examples.snapshot_file 0 2 [] 3 0 [1; 2; 3] [] 0 Examples.w_talk_1_gone
    = (Ok (N, failed), w') /\
    (length N + failed)%nat = length [1; 2; 3] /\
    Forall parsed_record N /\
    detail_calls (trace w') = detail_calls (trace Examples.w_talk_1_gone) ++ [1; 2; 3].
Proof.
  eexists _, _, _. split; [vm_compute; reflexivity|].
  apply (fetched_plus_failed Examples.snapshot_file 0 2 [] 3 [1; 2; 3]
           Examples.w_talk_1_gone).
  vm_compute. reflexivity.
Defined.

(** X7. Order of the result: a run of [fetch_talks_incremental] that
    fetched nothing returns the records of the snapshot as they are in the
    file, sorted or not; a run that fetched something returns a list sorted
    by ID, newest first. *)
Theorem result_order (filename : string) (limit : option Z) (delay_s : Q)
    (save_interval : Z) (w : world) (E : list Dict) (ids : gset Z) (w0 : world)
    (R : list Dict) (w' : world) :
  load_existing_talks filename w = (Ok (E, ids), w0) ->
  fetch_talks_incremental filename limit delay_s save_interval w = (Ok R, w') ->
  (detail_calls (trace w') = detail_calls (trace w) -> R = E) /\
  (detail_calls (trace w') <> detail_calls (trace w) -> sorted_by_id_desc R).
Proof.
  intros Hload H.
  apply fetch_talks_incremental_Ok_inv in H
    as (E' & ids' & w0' & all_ids & Hload' & _ & _ & Hcalls & Hcases).
  rewrite Hload in Hload'. injection Hload' as <- <- <-.
  destruct Hcases as [[Hnil ->]|[Hnew (w3 & N & failed & w4 & _ & _ & Hsort)]].
  - split; [done|]. intros Hne. destruct Hne. by rewrite Hcalls, Hnil, app_nil_r.
  - split.
    + intros Heq. rewrite Heq in Hcalls. destruct Hnew.
      apply (app_inv_head (detail_calls (trace w))). by rewrite app_nil_r.
    + intros _. by apply sort_by_id_desc_inv in Hsort as (_ & ? & _).
Qed.

Lemma result_order_witness :
  exists R w',
    (detail_calls (trace w') = detail_calls (trace Examples.w_snapshot) ->
     R = [ Examples.fetched 3 ]) /\
    (detail_calls (trace w') <> detail_calls (trace Examples.w_snapshot) ->
     sorted_by_id_desc R).
Proof.
  eexists _, _.
  refine (result_order Examples.snapshot_file None (3 # 10) 100 Examples.w_snapshot
            [ Examples.fetched 3 ] {[ 3 ]} Examples.w_snapshot _ _ _ _).
  - vm_compute. reflexivity.
  - vm_compute. reflexivity.
Defined.

Lemma bind_fail {A B} (m : M A) (f : A -> M B) w r1 w1 :
  m w = (r1, w1) -> (forall a, r1 <> Ok a) ->
  exists r, (m ≫= f) w = (r, w1) /\ (forall b, r <> Ok b) /\
            (forall e, r1 = Raise e -> r = Raise e).
Proof.
  intros Hm Hno. destruct r1 as [a|e|].
  - by destruct (Hno a).
  - exists (Raise e). rewrite (bind_raise _ _ _ _ _ Hm).
    split; [done|]. split; [done|]. by intros e' [= ->].
  - exists OutOfModel. rewrite (bind_oom _ _ _ _ Hm). by split.
Qed.

Lemma fetch_step_zero_interval filename delay_s existing_talks total
    i talk_id new_talks failed_count w :
  exists v w1 r w',
    fetch_talk_details talk_id 5 w = (Ok v, w1) /\
    fetch_step filename delay_s 0 existing_talks total i talk_id new_talks failed_count w
    = (r, w') /\
    (forall x, r <> Ok x) /\ offline w1 w' /\
    ((py_truthy v = true -> exists d talk, v = JObj d /\ parse_talk d = Ok talk) ->
     r = Raise ZeroDivisionError).
Proof.
  destruct (fetch_talk_details talk_id 5 w) as [r1 w1] eqn:Hd.
  destruct (fetch_talk_details_inv _ _ _ _ _ Hd) as (_ & _ & _ & _ & v & -> & _).
  exists v, w1. unfold fetch_step. rewrite (bind_ok _ _ _ _ _ Hd).
  assert (Hrest : forall (nt : list Dict) (fc : nat),
    exists w',
      ((if Z.of_nat (S i) mod 10 =? 0
        then print (MsgProgress (S i) total (length existing_talks + length nt))
        else mret tt);;
       checkpoint filename 0 existing_talks i nt;; sleep delay_s;; mret (nt, fc)) w1
      = (Raise ZeroDivisionError, w') /\ offline w1 w').
  { intros nt fc. destruct (_ =? _).
    - rewrite (bind_ok _ _ _ _ _ (print_eq _ _)). eexists. split; [done|].
      by eapply respects_print.
    - by exists w1. }
  destruct (py_truthy v) eqn:Htruthy.
  - destruct v as [| | | | |l|data];
      try (rewrite bind_raise_eq; eexists _, _; split; [done|]; split; [reflexivity|];
           split; [done|]; split; [reflexivity|];
           intros Hwf; by destruct (Hwf eq_refl) as (? & ? & ? & _)).
    rewrite bind_assoc, bind_lift.
    destruct (parse_talk data) as [talk|e|] eqn:Hp.
    + destruct (Hrest (new_talks ++ [asdict talk]) failed_count) as (w' & Hr & Ho).
      eexists _, _. split; [done|]. split; [exact Hr|]. by split.
    + eexists _, _. split; [done|]. split; [reflexivity|]. split; [done|].
      split; [reflexivity|].
      intros Hwf. destruct (Hwf eq_refl) as (? & ? & [= <-] & Hp'). congruence.
    + eexists _, _. split; [done|]. split; [reflexivity|]. split; [done|].
      split; [reflexivity|].
      intros Hwf. destruct (Hwf eq_refl) as (? & ? & [= <-] & Hp'). congruence.
  - destruct (Hrest new_talks (S failed_count)) as (w' & Hr & Ho).
    eexists _, _. split; [done|]. rewrite bind_mret. split; [exact Hr|]. by split.
Qed.

(** X8. A save interval of zero: when there is something to fetch,
    [fetch_talks_incremental] with [save_interval = 0] never returns; it
    fetches the first new talk and then fails on [(i + 1) % save_interval]
    (with ZeroDivisionError when the details are well formed), having
    written nothing. *)
Theorem zero_save_interval (filename : string) (limit : option Z) (delay_s : Q)
    (w : world) (E : list Dict) (ids : gset Z) (w0 : world) (all_ids : list Z)
    (tid : Z) (rest : list Z) :
  load_existing_talks filename w = (Ok (E, ids), w0) ->
  listing_at w all_ids ->
  limited limit (filter (fun tid => tid ∉ ids) all_ids) = tid :: rest ->
  exists r w',
    fetch_talks_incremental filename limit delay_s 0 w = (r, w') /\
    (forall R, r <> Ok R) /\
    detail_calls (trace w') = detail_calls (trace w) ++ [tid] /\
    writes (trace w') = writes (trace w) /\
    files w' = files w /\
    (well_formed_details (remote w) -> r = Raise ZeroDivisionError).
Proof.
  intros Hload Hlist Hnew.
  destruct (fetch_talks_incremental_prefix filename limit delay_s 0 w E ids w0 all_ids
              Hload Hlist) as (w4 & Hq4 & _ & ->).
  rewrite Hnew. rewrite (bind_ok _ _ _ _ _ (print_eq _ _)).
  set (w5 := World _ _ _ _).
  assert (Hq5 : quiet w w5).
  { etrans; [exact Hq4|]. apply offline_quiet. by eapply respects_print. }
  cbn [fetch_loop]. 
  destruct (fetch_step_zero_interval filename delay_s E (length (tid :: rest)) 0 tid [] 0 w5)
    as (v & w6 & r1 & w7 & Hd & Hstep & Hno & Ho & Hwf).
  destruct (bind_fail _ (fun '(nt, fc) =>
              fetch_loop filename delay_s 0 E (length (tid :: rest)) 1 rest nt fc)
              _ _ _ Hstep Hno) as (r2 & Hloop & Hno2 & Hr2).
  destruct (bind_fail _ (fun '(new_talks, failed_count) =>
              print (MsgCompleted (length new_talks) (length (tid :: rest)));;
              (if (0 <? failed_count)%nat then print (MsgFailed failed_count) else mret tt);;
              lift (sort_by_id_desc (E ++ new_talks)))
              _ _ _ Hloop Hno2) as (r3 & Hrun & Hno3 & Hr3).
  exists r3, w7. split; [exact Hrun|]. split; [exact Hno3|].
  destruct (fetch_talk_details_inv _ _ _ _ _ Hd) as (Hrem & Hf & Hw & Hc & v' & [= <-] & Hv).
  destruct Hq5 as (Hrem5 & Hf5 & Hw5 & Hc5).
  destruct Ho as [(Hrem7 & Hf7 & Hw7 & Hc7) _].
  split; [congruence|]. split; [congruence|]. split; [congruence|].
  intros Hwell. apply Hr3, Hr2, Hwf. intros Htruthy.
  destruct Hv as [->|(n & status & Hans & H429 & Herr)]; [done|].
  rewrite Hrem5 in Hans.
  destruct (Hwell _ _ _ _ Hans H429 Herr Htruthy) as (d & talk & z & -> & Hp & _).
  by exists d, talk.
Qed.

Lemma zero_save_interval_witness :
  exists r w',
    fetch_talks_incremental Examples.snapshot_file None (3 # 10) 0 Examples.w_snapshot
    = (r, w') /\
    (forall R, r <> Ok R) /\
    detail_calls (trace w') = detail_calls (trace Examples.w_snapshot) ++ [7] /\
    writes (trace w') = writes (trace Examples.w_snapshot) /\
    files w' = files Examples.w_snapshot /\
    (well_formed_details (remote Examples.w_snapshot) -> r = Raise ZeroDivisionError).
Proof.
  refine (zero_save_interval Examples.snapshot_file None (3 # 10) Examples.w_snapshot
            [ Examples.fetched 3 ] {[ 3 ]} Examples.w_snapshot [7; 3; 9; 5] 7 [9; 5]
            _ _ _).
  - vm_compute. reflexivity.
  - eexists _, _, _. repeat split; reflexivity.
  - vm_compute. reflexivity.
Defined.

(** ** The listing fails *)

Lemma fresh_start_files args w :
  files (fresh_start args w).2
  = if arg_fresh args then delete (arg_output args) (files w) else files w.
Proof.
  unfold fresh_start. destruct (arg_fresh args); [|done].
  rewrite (bind_ok _ _ _ _ _ (read_file_eq _ _)).
  destruct (files w !! arg_output args) as [c|] eqn:Hc; [done|].
  simpl. by rewrite delete_id.
Qed.

Lemma run_and_save_prefix args w :
  exists w2,
    remote w2 = remote w /\ requests_made w2 = requests_made w /\
    writes (trace w2) = writes (trace w) /\
    detail_calls (trace w2) = detail_calls (trace w) /\
    files w2 = (if arg_fresh args then delete (arg_output args) (files w) else files w) /\
    run_and_save args w
    = (talks ← fetch_talks_incremental (arg_output args) (cli_limit args)
                 (arg_delay args) (arg_save_interval args);
       save_talks_to_json talks (arg_output args);;
       mret talks) w2.
Proof.
  unfold run_and_save.
  destruct (fresh_start args w) as [r0 w1] eqn:Hfresh.
  destruct (fresh_start_inv _ _ _ _ Hfresh) as (-> & Hr1 & Hn1 & Hw1 & Hc1 & _).
  pose proof (fresh_start_files args w) as Hf1. rewrite Hfresh in Hf1. simpl in Hf1.
  rewrite (bind_ok _ _ _ _ _ Hfresh). cbv zeta. rewrite banner_eq.
  match goal with |- context [World ?f ?r ?n ?t] => exists (World f r n t) end.
  split; [exact Hr1|]. split; [exact Hn1|].
  cbn [trace files]. rewrite writes_app, detail_calls_app. simpl.
  rewrite !app_nil_r. by repeat split.
Qed.

Lemma load_files_only filename w w2 :
  files w2 = files w ->
  (load_existing_talks filename w2).1 = (load_existing_talks filename w).1.
Proof.
  intros Hf. unfold load_existing_talks.
  rewrite !(bind_ok _ _ _ _ _ (read_file_eq _ _)), Hf.
  destruct (files w !! filename) as [[| |v|pe]|]; try done.
  destruct (scan_snapshot v) as [|[]|]; done.
Qed.

Lemma fetch_talk_ids_fails w e :
  listing_failure (remote w (requests_made w) TalksEndpoint) = Some e ->
  fetch_talk_ids w
  = (Raise (RequestException e),
     World (files w) (remote w) (S (requests_made w))
           (trace w ++ [ EvPrint MsgFetchingIds; EvGet TalksEndpoint ])).
Proof.
  intros He. unfold fetch_talk_ids.
  rewrite (bind_ok _ _ _ _ _ (print_eq _ _)).
  unfold mbind, M_bind, bind, http_get. simpl.
  rewrite <- app_assoc. simpl.
  destruct (remote w (requests_made w) TalksEndpoint) as [e'|status body]; simpl in He.
  - by injection He as ->.
  - destruct (is_error_status status); [by injection He as ->|].
    destruct body; [done|]. by injection He as ->.
Qed.

Lemma fetch_talks_incremental_listing_fails filename limit delay_s save_interval w
    E ids e :
  (load_existing_talks filename w).1 = Ok (E, ids) ->
  listing_failure (remote w (requests_made w) TalksEndpoint) = Some e ->
  exists w',
    fetch_talks_incremental filename limit delay_s save_interval w
    = (Raise (RequestException e), w') /\
    quiet w w' /\ requests_made w' = S (requests_made w).
Proof.
  intros Hload He. unfold fetch_talks_incremental.
  destruct (load_existing_talks filename w) as [r0 w0] eqn:Hl. simpl in Hload. subst r0.
  pose proof (respects_load _ _ _ _ Hl) as Ho0.
  rewrite (bind_ok _ _ _ _ _ Hl), (bind_ok _ _ _ _ _ (print_eq _ _)).
  set (w1 := World _ _ _ _).
  assert (Ho1 : offline w w1).
  { etrans; [exact Ho0|]. by eapply respects_print. }
  assert (He1 : listing_failure (remote w1 (requests_made w1) TalksEndpoint) = Some e).
  { destruct Ho1 as [(-> & _) ->]. exact He. }
  rewrite (bind_raise _ _ _ _ _ (fetch_talk_ids_fails _ _ He1)).
  eexists. split; [done|]. split.
  - etrans; [apply offline_quiet, Ho1|].
    eapply respects_fetch_talk_ids, (fetch_talk_ids_fails _ _ He1).
  - simpl. f_equal. destruct Ho0 as [_ <-]. done.
Qed.

(** X9. The listing is asked once and its failure is fatal: when the
    answer to the listing request is a failure of the transport, a 4xx or
    5xx status (429 included) or not JSON, [main] raises that request
    exception after this one request, fetches no talk and writes no
    snapshot.  Without [--fresh] the files are as they were; with
    [--fresh] the old snapshot is already removed and nothing replaces
    it. *)
Theorem listing_failure_is_fatal (args : Args) (w : world) (e : request_error) :
  listing_failure (remote w (requests_made w) TalksEndpoint) = Some e ->
  (arg_fresh args = true \/
   exists E ids, (load_existing_talks (arg_output args) w).1 = Ok (E, ids)) ->
  exists w',
    main args w = (Raise (RequestException e), w') /\
    requests_made w' = S (requests_made w) /\
    writes (trace w') = writes (trace w) /\
    detail_calls (trace w') = detail_calls (trace w) /\
    files w' = if arg_fresh args then delete (arg_output args) (files w) else files w.
Proof.
  intros He Hload. unfold main.
  destruct (run_and_save_prefix args w) as (w2 & Hr2 & Hn2 & Hw2 & Hc2 & Hf2 & Hrs).
  assert (exists E ids, (load_existing_talks (arg_output args) w2).1 = Ok (E, ids))
    as (E & ids & Hload2).
  { destruct (arg_fresh args) eqn:Hfresh.
    - exists [], ∅. unfold load_existing_talks.
      rewrite (bind_ok _ _ _ _ _ (read_file_eq _ _)), Hf2.
      by rewrite lookup_delete_eq.
    - destruct Hload as [?|(E & ids & Hl)]; [done|].
      exists E, ids. rewrite <- Hl. by apply load_files_only. }
  assert (He2 : listing_failure (remote w2 (requests_made w2) TalksEndpoint) = Some e).
  { by rewrite Hr2, Hn2. }
  destruct (fetch_talks_incremental_listing_fails (arg_output args) (cli_limit args)
              (arg_delay args) (arg_save_interval args) w2 E ids e Hload2 He2)
    as (w' & Hrun & (Hr & Hf & Hw & Hc) & Hn).
  exists w'. split.
  { apply bind_raise. rewrite Hrs. by apply bind_raise. } split; [congruence|]. split; [congruence|]. split; [congruence|].
  congruence.
Qed.

Lemma listing_failure_is_fatal_witness :
  exists w',
    main Examples.fresh_args Examples.w_missing_id
    = (Raise (RequestException ConnectionError), w') /\
    requests_made w' = S (requests_made Examples.w_missing_id) /\
    writes (trace w') = writes (trace Examples.w_missing_id) /\
    detail_calls (trace w') = detail_calls (trace Examples.w_missing_id) /\
    files w' = delete Examples.snapshot_file (files Examples.w_missing_id).
Proof.
  apply (listing_failure_is_fatal Examples.fresh_args Examples.w_missing_id
           ConnectionError).
  - reflexivity.
  - left. reflexivity.
Defined.

(** ** Files other than the snapshot *)

#[global] Instance elsewhere_preorder out : PreOrder (elsewhere out).
Proof.
  split.
  - by intros w f _.
  - intros w1 w2 w3 H12 H23 f Hf. by rewrite (H23 f Hf), (H12 f Hf).
Qed.

Lemma quiet_elsewhere out w w' : quiet w w' -> elsewhere out w w'.
Proof. intros (_ & Hf & _) f _. by rewrite Hf. Qed.

Lemma respects_elsewhere_quiet {A} out (m : M A) :
  respects quiet m -> respects (elsewhere out) m.
Proof. apply respects_weaken, quiet_elsewhere. Qed.

Lemma respects_elsewhere_offline {A} out (m : M A) :
  respects offline m -> respects (elsewhere out) m.
Proof.
  intros H. apply respects_elsewhere_quiet.
  by apply (respects_weaken offline quiet _ offline_quiet).
Qed.

Lemma respects_write_json out v : respects (elsewhere out) (write_json out v).
Proof.
  intros w r w' [= <- <-] f Hf. simpl. by rewrite lookup_insert_ne.
Qed.

Lemma respects_remove_file out : respects (elsewhere out) (remove_file out).
Proof.
  intros w r w' [= <- <-] f Hf. simpl. by rewrite lookup_delete_ne.
Qed.

Lemma respects_fetch_talk_details out talk_id max_retries :
  respects (elsewhere out) (fetch_talk_details talk_id max_retries).
Proof.
  intros w r w' (_ & Hf & _)%fetch_talk_details_inv f _. by rewrite Hf.
Qed.

#[global] Hint Resolve respects_write_json respects_remove_file
  respects_fetch_talk_details : frame.
#[global] Hint Extern 1 (respects (elsewhere _) (print _)) =>
  apply respects_elsewhere_offline, respects_print : frame.
#[global] Hint Extern 1 (respects (elsewhere _) (sleep _)) =>
  apply respects_elsewhere_offline, respects_sleep : frame.
#[global] Hint Extern 1 (respects (elsewhere _) (read_file _)) =>
  apply respects_elsewhere_offline, respects_read_file : frame.
#[global] Hint Extern 1 (respects (elsewhere _) (load_existing_talks _)) =>
  apply respects_elsewhere_offline, respects_load : frame.
#[global] Hint Extern 1 (respects (elsewhere _) fetch_talk_ids) =>
  apply respects_elsewhere_quiet, respects_fetch_talk_ids : frame.
#[global] Hint Extern 1 (respects (elsewhere _) (print_summary _)) =>
  apply respects_elsewhere_quiet, respects_print_summary : frame.

Lemma respects_save_talks out talks :
  respects (elsewhere out) (save_talks_to_json talks out).
Proof. unfold save_talks_to_json. frame. Qed.
#[global] Hint Resolve respects_save_talks : frame.

Lemma respects_checkpoint_elsewhere out save_interval existing_talks i new_talks :
  respects (elsewhere out) (checkpoint out save_interval existing_talks i new_talks).
Proof. unfold checkpoint. frame. Qed.
#[global] Hint Resolve respects_checkpoint_elsewhere : frame.

Lemma respects_fetch_step_elsewhere out delay_s save_interval existing_talks total
    i talk_id new_talks failed_count :
  respects (elsewhere out)
    (fetch_step out delay_s save_interval existing_talks total i talk_id
       new_talks failed_count).
Proof. unfold fetch_step. frame. Qed.
#[global] Hint Resolve respects_fetch_step_elsewhere : frame.

Lemma respects_fetch_loop_elsewhere out delay_s save_interval existing_talks total ids :
  forall i new_talks failed_count,
    respects (elsewhere out)
      (fetch_loop out delay_s save_interval existing_talks total i ids
         new_talks failed_count).
Proof.
  induction ids as [|talk_id rest IH]; intros i nt fc; cbn [fetch_loop]; [frame|].
  apply respects_bind; [frame|]. intros [nt1 fc1]. apply IH.
Qed.
#[global] Hint Resolve respects_fetch_loop_elsewhere : frame.

Lemma respects_fetch_talks_incremental_elsewhere out limit delay_s save_interval :
  respects (elsewhere out) (fetch_talks_incremental out limit delay_s save_interval).
Proof. unfold fetch_talks_incremental. frame. Qed.
#[global] Hint Resolve respects_fetch_talks_incremental_elsewhere : frame.

Lemma respects_main_elsewhere args : respects (elsewhere (arg_output args)) (main args).
Proof. unfold main, run_and_save, fresh_start. frame. Qed.

(** X10. [main] touches one file: whatever the arguments, the files and
    the remote, and whether the run returns or raises, every file other
    than the output file is afterwards as it was before. *)
Theorem other_files_untouched (args : Args) (w : world) :
  elsewhere (arg_output args) w (main args w).2.
Proof.
  destruct (main args w) as [r w'] eqn:H. by eapply respects_main_elsewhere.
Qed.

(** ** The exceptions of a run *)

Section Raises.
Context (P : exn -> Prop).

Lemma raises_ret {A} (a : A) : raises_only P (mret a).
Proof. by intros w e w' [=]. Qed.

Lemma raises_raise {A} e : P e -> raises_only P (raise (A:=A) e).
Proof. by intros He w e' w' [= <- _]. Qed.

Lemma raises_lift {A} (o : outcome A) :
  (forall e, o = Raise e -> P e) -> raises_only P (lift o).
Proof. intros Ho w e w' [= -> _]. by apply Ho. Qed.

Lemma raises_bind_post {A B} (Q : A -> Prop) (m : M A) (f : A -> M B) :
  raises_only P m ->
  (forall w a w1, m w = (Ok a, w1) -> Q a) ->
  (forall a, Q a -> raises_only P (f a)) ->
  raises_only P (m ≫= f).
Proof.
  intros Hm HQ Hf w e w' H.
  apply bind_inv in H as [(a & w1 & Ha & H)|[(e' & Ha & [= ->])|[_ [=]]]].
  - eapply Hf; [|exact H]. by eapply HQ.
  - by eapply Hm.
Qed.

Lemma raises_bind {A B} (m : M A) (f : A -> M B) :
  raises_only P m -> (forall a, raises_only P (f a)) -> raises_only P (m ≫= f).
Proof.
  intros Hm Hf. apply (raises_bind_post (fun _ => True)); [done|done|].
  intros a _. apply Hf.
Qed.

Lemma raises_print m : raises_only P (print m).
Proof. by intros w e w' [=]. Qed.
Lemma raises_emit ev : raises_only P (emit ev).
Proof. by intros w e w' [=]. Qed.
Lemma raises_read_file f : raises_only P (read_file f).
Proof. by intros w e w' [=]. Qed.
Lemma raises_http_get u : raises_only P (http_get u).
Proof. by intros w e w' [=]. Qed.
Lemma raises_write_json f v : raises_only P (write_json f v).
Proof. by intros w e w' [=]. Qed.
Lemma raises_remove_file f : raises_only P (remove_file f).
Proof. by intros w e w' [=]. Qed.
Lemma raises_sleep s : P ValueError -> raises_only P (sleep s).
Proof.
  intros HP w e w'. unfold sleep. destruct (_ <? _); [|by intros [=]].
  by intros [= <- _].
Qed.
Lemma raises_retry_loop u max_retries attempts :
  raises_only P (retry_loop u max_retries attempts).
Proof.
  intros w e w' H.
  destruct (retry_loop_returns u max_retries attempts w) as (v & w1 & Hv). congruence.
Qed.
End Raises.

Create HintDb raises discriminated.
#[global] Hint Resolve raises_print raises_emit raises_read_file raises_http_get
  raises_write_json raises_remove_file raises_retry_loop : raises.

Ltac raises_step :=
  lazymatch goal with
  | |- raises_only _ (mbind _ _) => apply raises_bind; [|intros ?]
  | |- raises_only _ (mret _) => apply raises_ret
  | |- raises_only _ (match ?x with _ => _ end) => destruct x
  | |- raises_only _ _ => solve [eauto with raises]
  end.
Ltac raises := repeat raises_step.

Lemma fetch_exn_cases e :
  e ∈ [UnicodeDecodeError; TypeError; AttributeError; ZeroDivisionError; ValueError;
       RecursionError] ->
  fetch_exn e.
Proof.
  rewrite !elem_of_cons, elem_of_nil. unfold fetch_exn. tauto.
Qed.

Lemma scan_talks_raises talks e :
  scan_talks talks = Raise e -> e = TypeError \/ e = KeyError "id".
Proof.
  induction talks as [|t talks IH]; [done|]. simpl.
  destruct t as [| | | | | |d]; try (intros [= <-]; by left).
  destruct (dict_lookup "id" d) as [[| |z| | | |]|]; simpl;
    try (intros [= <-]; by left); try (intros [= <-]; by right);
    (destruct (scan_talks talks) as [[ds ids]|e'|]; [done| |done]);
    simpl; intros [= <-]; by apply IH.
Qed.

Lemma scan_snapshot_raises v e :
  scan_snapshot v = Raise e -> e = TypeError \/ e = KeyError "id".
Proof.
  destruct v as [| | | |s|l|kvs]; simpl; try (intros [= <-]; by left).
  - destruct s; [done|]. intros [= <-]. by left.
  - apply scan_talks_raises.
  - destruct kvs; [done|]. intros [= <-]. by left.
Qed.

Lemma raises_load filename : raises_only fetch_exn (load_existing_talks filename).
Proof.
  unfold load_existing_talks. apply raises_bind; [raises|]. intros [[| |v|pe]|].
  - apply raises_raise. unfold fetch_exn. tauto.
  - raises.
  - destruct (scan_snapshot v) as [x|e|] eqn:Hs; [by apply raises_lift|..|by apply raises_lift].
    destruct (scan_snapshot_raises _ _ Hs) as [->| ->].
    + apply raises_lift. intros e [= <-]. unfold fetch_exn. tauto.
    + raises.
  - apply raises_raise. unfold fetch_exn. destruct pe; simpl; tauto.
  - raises.
Qed.

Lemma int_list_raises items e : int_list items <> Raise e.
Proof.
  induction items as [|v items IH]; [done|].
  destruct v; simpl; try done. by destruct (int_list items).
Qed.

Lemma raises_fetch_talk_ids : raises_only fetch_exn fetch_talk_ids.
Proof.
  unfold fetch_talk_ids. apply raises_bind; [raises|]. intros _.
  apply raises_bind; [raises|]. intros [e|status body].
  - apply raises_raise. unfold fetch_exn. eauto 10.
  - destruct (is_error_status status).
    { apply raises_raise. unfold fetch_exn. eauto 10. }
    destruct body as [v|].
    2:{ apply raises_raise. unfold fetch_exn. eauto 10. }
    destruct v as [| | | | | |data];
      try (apply raises_raise; unfold fetch_exn; tauto).
    destruct (py_get data "items" (JList [])) as [| | | | |items|];
      try (by apply raises_lift).
    apply raises_bind.
    + apply raises_lift. intros e He. by destruct (int_list_raises items e).
    + intros ids. raises.
Qed.

Lemma keyed_raises talks e :
  Forall has_id_key talks -> keyed talks <> Raise e.
Proof.
  induction 1 as [|t talks [v Hv] _ IH]; [done|]. simpl.
  unfold talk_id_of, py_getitem. rewrite Hv. simpl.
  destruct (as_int v) as [z| |] eqn:Hz; simpl; try done.
  - destruct (keyed talks); simpl; try done.
  - by destruct v.
Qed.

Lemma sort_by_id_desc_raises talks e :
  Forall has_id_key talks -> sort_by_id_desc talks <> Raise e.
Proof.
  intros H. unfold sort_by_id_desc.
  pose proof (keyed_raises talks e H) as Hk.
  destruct (keyed talks) as [ks|e0|]; [done| |done].
  intros [= ->]. by destruct Hk.
Qed.

Lemma parse_talk_raises data e : parse_talk data <> Raise e.
Proof.
  unfold parse_talk, py_getitem, py_get.
  destruct (dict_lookup "audio_url" data) as [v|]; simpl; [|done].
  destruct (py_truthy v); simpl; [|done]. by destruct v.
Qed.

Lemma parse_talk_has_id data talk : parse_talk data = Ok talk -> has_id_key (asdict talk).
Proof. intros H. unfold has_id_key. rewrite (parse_talk_id _ _ H). by eexists. Qed.

Section RaisesLoop.
Variables (filename : string) (delay_s : Q) (save_interval : Z).
Variable existing_talks : list Dict.
Variable total : nat.
Hypothesis existing_have_ids : Forall has_id_key existing_talks.

Lemma raises_checkpoint i new_talks :
  Forall has_id_key new_talks ->
  raises_only fetch_exn (checkpoint filename save_interval existing_talks i new_talks).
Proof.
  intros Hnew. unfold checkpoint. destruct (_ =? _).
  { apply raises_raise. unfold fetch_exn. tauto. }
  destruct (_ =? _); [|raises].
  apply raises_bind.
  - apply raises_lift. intros e He.
    destruct (sort_by_id_desc_raises (existing_talks ++ new_talks) e); [|done].
    by apply Forall_app.
  - intros all_talks. unfold save_talks_to_json. raises.
Qed.

Lemma raises_fetch_step i talk_id new_talks failed_count :
  Forall has_id_key new_talks ->
  raises_only fetch_exn
    (fetch_step filename delay_s save_interval existing_talks total
       i talk_id new_talks failed_count) /\
  forall w nt fc w',
    fetch_step filename delay_s save_interval existing_talks total
      i talk_id new_talks failed_count w = (Ok (nt, fc), w') ->
    Forall has_id_key nt.
Proof.
  intros Hnew. split.
  - unfold fetch_step.
    apply raises_bind; [unfold fetch_talk_details; raises|]. intros result.
    apply (raises_bind_post _ (fun '(nt, _) => Forall has_id_key nt)).
    + destruct (py_truthy result); [|raises].
      destruct result; try (apply raises_raise; unfold fetch_exn; tauto).
      apply raises_bind; [|intros ?; raises].
      apply raises_lift. intros e He. by destruct (parse_talk_raises kvs e).
    + intros w [nt fc] w1. destruct (py_truthy result); [|by intros [= <- _ _]].
      destruct result; try done.
      rewrite bind_lift. destruct (parse_talk kvs) as [talk|e|] eqn:Hp; try done.
      intros [= <- _ _]. apply Forall_app. split; [done|].
      constructor; [|done]. by eapply parse_talk_has_id.
    + intros [nt fc] Hnt.
      apply raises_bind; [raises|]. intros _.
      apply raises_bind; [by apply raises_checkpoint|]. intros _.
      apply raises_bind; [|intros ?; raises].
      apply raises_sleep. unfold fetch_exn. tauto.
  - intros w nt fc w' H.
    apply fetch_step_inv in H as (v & w0 & _ & [[Hno _]|Hstep]).
    { by destruct (Hno (nt, fc)). }
    destruct Hstep as (nt' & fc' & _ & _ & _ & Hres & _ & _ & _ & [[[= <- <-] _]|Hno]).
    2:{ by destruct (Hno (nt, fc)). }
    destruct Hres as [_|data talk _ _ Hp]; [done|].
    apply Forall_app. split; [done|]. constructor; [|done]. by eapply parse_talk_has_id.
Qed.

Lemma raises_fetch_loop ids :
  forall i new_talks failed_count,
    Forall has_id_key new_talks ->
    raises_only fetch_exn
      (fetch_loop filename delay_s save_interval existing_talks total
         i ids new_talks failed_count) /\
    forall w N failed w',
      fetch_loop filename delay_s save_interval existing_talks total
        i ids new_talks failed_count w = (Ok (N, failed), w') ->
      Forall has_id_key N.
Proof.
  induction ids as [|talk_id rest IH]; intros i nt fc Hnt; cbn [fetch_loop].
  - split; [raises|]. by intros w N failed w' [= <- _ _].
  - destruct (raises_fetch_step i talk_id nt fc Hnt) as [Hraise Hpost]. split.
    + apply (raises_bind_post _ (fun '(nt1, _) => Forall has_id_key nt1)); [done|..].
      * intros w [nt1 fc1] w1. apply Hpost.
      * intros [nt1 fc1] Hnt1. by apply IH.
    + intros w N failed w' H.
      apply bind_Ok_inv in H as ([nt1 fc1] & w1 & Hstep & H).
      apply Hpost in Hstep. by eapply (IH _ _ _ Hstep).
Qed.
End RaisesLoop.

Lemma int_id_has_id_key t : int_id t -> has_id_key t.
Proof. intros [z Hz]. unfold has_id_key. rewrite Hz. by eexists. Qed.

Lemma raises_fetch_talks_incremental filename limit delay_s save_interval :
  raises_only fetch_exn (fetch_talks_incremental filename limit delay_s save_interval).
Proof.
  unfold fetch_talks_incremental.
  apply (raises_bind_post _ (fun '(E, _) => Forall has_id_key E)).
  { apply raises_load. }
  { intros w [E ids] w0 H%load_int_ids. eapply Forall_impl; [exact H|].
    apply int_id_has_id_key. }
  intros [E ids] HE.
  apply raises_bind; [raises|]. intros _.
  apply raises_bind; [apply raises_fetch_talk_ids|]. intros all_ids.
  apply raises_bind; [raises|]. intros _.
  apply raises_bind; [raises|]. intros new_ids.
  destruct new_ids as [|tid0 rest]; [raises|].
  apply raises_bind; [raises|]. intros _.
  destruct (raises_fetch_loop filename delay_s save_interval E
              (length (tid0 :: rest)) HE (tid0 :: rest) 0 [] 0 (Forall_nil_2 _))
    as [Hraise Hpost].
  apply (raises_bind_post _ (fun '(N, _) => Forall has_id_key N)); [done|..].
  { intros w [N failed] w1. apply Hpost. }
  intros [N failed] HN.
  apply raises_bind; [raises|]. intros _.
  apply raises_bind; [raises|]. intros _.
  apply raises_lift. intros e He.
  destruct (sort_by_id_desc_raises (E ++ N) e); [|done]. by apply Forall_app.
Qed.

Lemma raises_run_and_save args : raises_only fetch_exn (run_and_save args).
Proof.
  unfold run_and_save, fresh_start, save_talks_to_json.
  apply raises_bind; [raises|]. intros _. cbv zeta.
  do 7 (apply raises_bind; [raises|]; intros _).
  apply raises_bind; [apply raises_fetch_talks_incremental|]. intros talks. raises.
Qed.

Lemma summary_dates_raises talks e : summary_dates talks <> Raise e.
Proof.
  induction talks as [|t talks IH]; [done|]. simpl.
  destruct (py_truthy _); [|done].
  destruct (py_get t "rec_date" JNull); try done.
  by destruct (summary_dates talks).
Qed.

Lemma summary_teachers_raises talks e :
  summary_teachers talks = Raise e -> e = TypeError \/ e = KeyError "teacher_id".
Proof.
  induction talks as [|t talks IH]; [done|]. simpl. unfold py_getitem.
  destruct (dict_lookup "teacher_id" t) as [v|]; simpl; [|intros [= <-]; by right].
  destruct v; try done; try (intros [= <-]; by left).
  destruct (summary_teachers talks); simpl; [done| |done]. intros [= <-]. by apply IH.
Qed.

Lemma raises_print_summary talks :
  raises_only (fun e => e = TypeError \/ e = KeyError "teacher_id") (print_summary talks).
Proof.
  unfold print_summary. do 3 (apply raises_bind; [raises|]; intros _).
  destruct talks as [|t talks]; [raises|].
  apply raises_bind.
  - apply raises_lift. intros e He. by destruct (summary_dates_raises (t :: talks) e).
  - intros dates. apply raises_bind; [raises|]. intros _.
    apply raises_bind; [|intros ?; raises].
    apply raises_lift. intros e. apply summary_teachers_raises.
Qed.

Lemma summary_teachers_key_error talks k :
  summary_teachers talks = Raise (KeyError k) ->
  k = "teacher_id" /\ exists t, t ∈ talks /\ dict_lookup "teacher_id" t = None.
Proof.
  induction talks as [|t talks IH]; [done|]. simpl. unfold py_getitem.
  destruct (dict_lookup "teacher_id" t) as [v|] eqn:Hv; simpl.
  2:{ intros [= <-]. split; [done|]. exists t. split; [apply list_elem_of_here|done]. }
  destruct v; try done.
  destruct (summary_teachers talks); simpl; [done| |done].
  intros [= ->]. destruct (IH eq_refl) as (-> & t' & Hin & Ht').
  split; [done|]. exists t'. split; [by apply list_elem_of_further|done].
Qed.

Lemma print_summary_key_error talks w k w' :
  print_summary talks w = (Raise (KeyError k), w') ->
  k = "teacher_id" /\ exists t, t ∈ talks /\ dict_lookup "teacher_id" t = None.
Proof.
  unfold print_summary. do 3 rewrite (bind_ok _ _ _ _ _ (print_eq _ _)).
  destruct talks as [|t talks]; [done|].
  rewrite bind_lift.
  destruct (summary_dates (t :: talks)) as [dates|e|] eqn:Hd;
    [|by destruct (summary_dates_raises _ _ Hd)|done].
  intros H.
  apply bind_inv in H as [([] & w1 & _ & H)|[(e & H & _)|[_ [=]]]].
  2:{ destruct dates; [done|]. by rewrite print_eq in H. }
  rewrite bind_lift in H.
  destruct (summary_teachers (t :: talks)) as [s|e|] eqn:Hs; [by rewrite print_eq in H| |done].
  injection H as He _. subst e. by apply summary_teachers_key_error.
Qed.

(** X11. KeyError out of [main]: the one KeyError a run raises is
    KeyError('teacher_id'), from the summary of a result that holds a
    record without that key.  The key ['id'] is never missing where it is
    subscripted (a snapshot without it is set aside by the load, and
    [parse_talk] always gives one) and the dates are read with [get].
    When KeyError('teacher_id') is raised the final save is done: the
    output file holds the talks of the run. *)
Theorem main_key_error (args : Args) (w : world) (k : string) (w' : world) :
  main args w = (Raise (KeyError k), w') ->
  k = "teacher_id" /\
  exists talks w1,
    run_and_save args w = (Ok talks, w1) /\
    (exists t, t ∈ talks /\ dict_lookup "teacher_id" t = None) /\
    files w' = files w1 /\
    files w' !! arg_output args = Some (JsonText (JList (map JObj talks))).
Proof.
  unfold main. intros H.
  apply bind_inv in H as [(talks & w1 & Hrun & H)|[(e' & Hrun & [= <-])|[_ [=]]]].
  - destruct (print_summary_key_error _ _ _ _ H) as [-> Ht].
    split; [done|]. exists talks, w1. split; [done|]. split; [done|].
    destruct (respects_print_summary _ _ _ _ H) as (_ & Hf & _).
    split; [done|]. rewrite Hf. by apply run_and_save_Ok in Hrun as [? _].
  - apply raises_run_and_save in Hrun.
    destruct Hrun as [?|[?|[?|[?|[?|[?|[? ?]]]]]]]; discriminate.
Qed.

Lemma main_key_error_witness :
  exists talks w1,
    run_and_save Examples.default_args Examples.w_bare_record = (Ok talks, w1) /\
    (exists t, t ∈ talks /\ dict_lookup "teacher_id" t = None) /\
    files (main Examples.default_args Examples.w_bare_record).2 = files w1 /\
    files (main Examples.default_args Examples.w_bare_record).2
      !! arg_output Examples.default_args
    = Some (JsonText (JList (map JObj talks))).
Proof.
  refine (proj2 (main_key_error Examples.default_args Examples.w_bare_record "teacher_id"
                   (main Examples.default_args Examples.w_bare_record).2 _)).
  vm_compute. reflexivity.
Defined.

(** ** Limits, records and IDs *)

(** X12. The limit outside the capped case: from the command line a
    limit that is zero or negative means no limit and a positive one keeps
    the first [limit] new IDs (all of them when there are no more);
    [fetch_talks_incremental] called with a limit that is not smaller than
    the number of new IDs keeps them all, and called with a negative limit
    it drops the last [-limit] new IDs. *)
Theorem limit_outside_the_cap (new_ids : list Z) :
  (forall args,
     limited (cli_limit args) new_ids
     = if 0 <? arg_limit args then take (Z.to_nat (arg_limit args)) new_ids else new_ids) /\
  (forall k, Z.of_nat (length new_ids) <= k -> limited (Some k) new_ids = new_ids) /\
  (forall k, k < 0 ->
     limited (Some k) new_ids = take (length new_ids - Z.to_nat (- k)) new_ids).
Proof.
  split; [|split].
  - intros args. unfold cli_limit, limited, limit_applies, py_slice_to.
    destruct (Z.gtb_spec (arg_limit args) 0) as [Hpos|Hle].
    + destruct (Z.ltb_spec 0 (arg_limit args)); [|lia]. simpl.
      destruct (Z.eqb_spec (arg_limit args) 0); [lia|]. simpl.
      destruct (Z.ltb_spec (arg_limit args) (Z.of_nat (length new_ids))).
      * by destruct (Z.leb_spec 0 (arg_limit args)); [|lia].
      * rewrite take_ge; [done|lia].
    + by destruct (Z.ltb_spec 0 (arg_limit args)); [lia|].
  - intros k Hk. unfold limited, limit_applies.
    destruct (Z.ltb_spec k (Z.of_nat (length new_ids))); [lia|].
    by rewrite andb_false_r.
  - intros k Hk. unfold limited, limit_applies, py_slice_to. simpl.
    destruct (Z.eqb_spec k 0); [lia|]. simpl.
    destruct (Z.ltb_spec k (Z.of_nat (length new_ids))); [|lia].
    destruct (Z.leb_spec 0 k); [lia|]. f_equal. lia.
Qed.

(** X13. [parse_talk] never raises (the subscript [data['audio_url']] is
    guarded by [data.get]); the record it makes has the eleven keys of
    [Talk] in declaration order whatever keys the payload has; every field
    but the audio URL that the payload carries is copied as it is; and the
    audio URL is either empty or [BASE] followed by the non-empty path of
    the payload. *)
Theorem parse_talk_total (data : Dict) :
  (forall e, parse_talk data <> Raise e) /\
  (forall talk, parse_talk data = Ok talk ->
     map fst (asdict talk) = talk_keys /\
     (forall k v, k ∈ talk_keys -> k <> "audio_url" -> dict_lookup k data = Some v ->
        dict_lookup k (asdict talk) = Some v) /\
     (Talk.audio_url talk = JStr "" \/
      exists p, dict_lookup "audio_url" data = Some (JStr p) /\ p <> "" /\
                Talk.audio_url talk = JStr (BASE +:+ p))).
Proof.
  split.
  - intros e. unfold parse_talk, py_getitem, py_get.
    destruct (dict_lookup "audio_url" data) as [v|]; simpl; [|done].
    destruct (py_truthy v); simpl; [|done]. by destruct v.
  - intros talk H. split; [done|]. split.
    + intros k v Hk Hne Hv. unfold talk_keys in Hk.
      unfold parse_talk in H.
      destruct (if py_truthy (py_get data "audio_url" JNull) then _ else _)
        as [audio| |]; try done.
      injection H as <-.
      rewrite !elem_of_cons, elem_of_nil in Hk.
      destruct Hk as [->|[->|[->|[->|[->|[->|[->|[->|[->|[->|[->|[]]]]]]]]]]]];
        try done; unfold py_get; simpl; by rewrite Hv.
    + unfold parse_talk, py_getitem, py_get in H.
      destruct (dict_lookup "audio_url" data) as [v|]; simpl in H.
      * destruct (py_truthy v) eqn:Ht; simpl in H.
        -- destruct v as [| | | |p| |]; try done. injection H as <-. right.
           exists p. split; [done|]. split; [|done]. intros ->. done.
        -- injection H as <-. by left.
      * injection H as <-. by left.
Qed.

(** X14. Only new, listed talks are fetched: whatever the limit and the
    outcome of the run, the IDs [fetch_talk_details] is called with are
    listed IDs, taken in listing order and each listed occurrence at most
    once, and none of them is the ID of a record of the snapshot. *)
Theorem only_new_listed_ids (filename : string) (limit : option Z) (delay_s : Q)
    (save_interval : Z) (w : world) (E : list Dict) (ids : gset Z) (w0 : world)
    (all_ids : list Z) (r : outcome (list Dict)) (w' : world) :
  load_existing_talks filename w = (Ok (E, ids), w0) ->
  listing_at w all_ids ->
  fetch_talks_incremental filename limit delay_s save_interval w = (r, w') ->
  exists calls,
    detail_calls (trace w') = detail_calls (trace w) ++ calls /\
    calls `sublist_of` all_ids /\
    Forall (fun tid => id_json tid ∉ talk_ids E) calls.
Proof.
  intros Hload Hlist H.
  destruct (fetch_talks_incremental_calls _ _ _ _ _ _ _ _ _ _ _ Hload Hlist H)
    as (j & _ & Hcalls & _).
  eexists. split; [exact Hcalls|].
  assert (Hsub : take j (limited limit (filter (fun tid => tid ∉ ids) all_ids))
                 `sublist_of` filter (fun tid => tid ∉ ids) all_ids).
  { etrans; [apply sublist_take|]. apply limited_sublist. }
  split.
  - etrans; [exact Hsub|]. apply sublist_filter.
  - apply Forall_forall. intros tid Hin.
    eapply not_in_ids_not_in_snapshot; [exact Hload|].
    apply (sublist_subseteq _ _ Hsub) in Hin.
    by apply list_elem_of_filter in Hin as [? _].
Qed.

Lemma only_new_listed_ids_witness :
  exists w' calls,
    detail_calls (trace w') = detail_calls (trace Examples.w_snapshot) ++ calls /\
    calls `sublist_of` [7; 3; 9; 5] /\
    Forall (fun tid => id_json tid ∉ talk_ids [ Examples.fetched 3 ]) calls.
Proof.
  eexists.
  refine (only_new_listed_ids Examples.snapshot_file (Some 2) (3 # 10) 100
            Examples.w_snapshot [ Examples.fetched 3 ] {[ 3 ]} Examples.w_snapshot
            [7; 3; 9; 5] _ _ _ _ _).
  - vm_compute. reflexivity.
  - eexists _, _, _. repeat split; reflexivity.
  - vm_compute. reflexivity.
Defined.

Lemma load_absent filename w :
  files w !! filename = None -> load_existing_talks filename w = (Ok ([], ∅), w).
Proof.
  intros Hf. unfold load_existing_talks.
  by rewrite (bind_ok _ _ _ _ _ (read_file_eq _ _)), Hf.
Qed.

(** X15. A fresh start refetches everything: a run with [--fresh] that
    reaches the final save calls [fetch_talk_details] for the listed IDs
    (the first [limit] of them), whatever the old snapshot held, and every
    record it saves is one [parse_talk] made in this run. *)
Theorem fresh_run (args : Args) (w : world) (talks : list Dict) (w1 : world) :
  arg_fresh args = true ->
  run_and_save args w = (Ok talks, w1) ->
  Forall parsed_record talks /\
  exists all_ids,
    listing_at w all_ids /\
    detail_calls (trace w1)
    = detail_calls (trace w) ++ limited (cli_limit args) all_ids.
Proof.
  intros Hfresh H.
  destruct (run_and_save_prefix args w) as (w2 & Hr2 & Hn2 & Hw2 & Hc2 & Hf2 & Hrs).
  rewrite Hrs in H. clear Hrs. rewrite Hfresh in Hf2.
  apply bind_Ok_inv in H as (R & w3 & Hrun & H).
  rewrite (bind_ok _ _ _ _ _ (save_talks_eq _ _ _)) in H. injection H as <- <-.
  apply fetch_talks_incremental_Ok_inv in Hrun
    as (E & ids & w0 & all_ids & Hload & Hlist & _ & Hcalls & Hcases).
  rewrite load_absent in Hload by (by rewrite Hf2, lookup_delete_eq).
  injection Hload as <- <- <-.
  match type of Hcalls with
  | context [limited _ ?l] => assert (Hall : l = all_ids)
  end.
  { clear. induction all_ids as [|x l IH]; [done|].
    rewrite filter_cons, IH. destruct (decide _) as [|Hx]; [done|].
    destruct Hx. apply not_elem_of_empty. }
  rewrite Hall in Hcalls, Hcases. split.
  - destruct Hcases as [[_ ->]|[_ (w4 & N & failed & w5 & _ & Hloop & Hsort)]]; [done|].
    apply fetch_loop_Ok in Hloop as (_ & _ & added & -> & Hadded).
    apply sort_by_id_desc_inv in Hsort as (Hperm & _). by rewrite Hperm.
  - exists all_ids. split.
    + unfold listing_at in *. by rewrite <- Hr2, <- Hn2.
    + cbn [trace]. rewrite detail_calls_app, Hcalls, Hc2. simpl. by rewrite app_nil_r.
Qed.

Lemma fresh_run_witness :
  exists talks w1,
    Forall parsed_record talks /\
    exists all_ids,
      listing_at Examples.w_snapshot all_ids /\
      detail_calls (trace w1)
      = detail_calls (trace Examples.w_snapshot)
        ++ limited (cli_limit Examples.fresh_args) all_ids.
Proof.
  eexists _, _.
  refine (fresh_run Examples.fresh_args Examples.w_snapshot _ _ _ _).
  - reflexivity.
  - vm_compute. reflexivity.
Defined.

(** ** The proxy: POST, unreadable lengths and the log *)

Module ProxyFacts.
Import Server.

(** X16. Routing of POST: a POST under [/api/] is forwarded exactly as a
    GET of the same request is, to [/api/1/] on the remote origin; any
    other POST, one under [/feeds/] included, is answered 404 Not Found
    without a remote call. *)
Theorem post_routing (urlopen : upstream_request -> urlopen_result)
    (self : request) (rest : string) :
  (path self = "/api/" +:+ rest ->
     do_POST urlopen self
     = proxy_request urlopen self (DHARMASEED_BASE +:+ "/api/1/" +:+ rest) /\
     do_POST urlopen self = do_GET urlopen self) /\
  (String.prefix "/api/" (path self) = false ->
     do_POST urlopen self = (SendError 404 "Not Found", [])) /\
  (path self = "/feeds/" +:+ rest ->
     do_POST urlopen self = (SendError 404 "Not Found", [])).
Proof.
  split; [|split].
  - intros Hp. unfold do_POST, do_GET. rewrite Hp.
    change (String.prefix "/feeds/" ("/api/" +:+ rest)) with false.
    rewrite (ServerFacts.prefix_app "/api/").
    by rewrite (ServerFacts.py_slice_from_app "/api/").
  - intros Hp. unfold do_POST. by rewrite Hp.
  - intros Hp. unfold do_POST. by rewrite Hp.
Qed.

(** X17. A Content-Length that [int] rejects: every proxied request (GET
    under [/api/] or [/feeds/], POST under [/api/]) is answered
    [send_error(500, text)] with the text of the ValueError, which is also
    printed after [Proxy error: ], and the remote is not called; a GET
    served from the static files is not affected. *)
Theorem unreadable_content_length (urlopen : upstream_request -> urlopen_result)
    (self : request) (text rest : string) :
  req_content_length self = CLInvalid text ->
  let failure := (SendError 500 text, ["Proxy error: " +:+ text]) in
  (forall target, proxy_request urlopen self target = failure) /\
  (path self = "/api/" +:+ rest \/ path self = "/feeds/" +:+ rest ->
     do_GET urlopen self = failure) /\
  (path self = "/api/" +:+ rest -> do_POST urlopen self = failure) /\
  (String.prefix "/api/" (path self) = false ->
   String.prefix "/feeds/" (path self) = false ->
     do_GET urlopen self = (ServeStatic (path self), [])).
Proof.
  intros Hcl failure.
  assert (Hproxy : forall target, proxy_request urlopen self target = failure).
  { intros target. unfold proxy_request. by rewrite Hcl. }
  split; [done|]. split; [|split].
  - intros [Hp|Hp]; unfold do_GET; rewrite Hp.
    + change (String.prefix "/feeds/" ("/api/" +:+ rest)) with false.
      rewrite (ServerFacts.prefix_app "/api/"). rewrite <- Hp. apply Hproxy.
    + rewrite (ServerFacts.prefix_app "/feeds/"). rewrite <- Hp. apply Hproxy.
  - intros Hp. unfold do_POST. rewrite Hp, (ServerFacts.prefix_app "/api/").
    rewrite <- Hp. apply Hproxy.
  - intros Ha Hf. unfold do_GET. by rewrite Hf, Ha.
Qed.

Lemma unreadable_content_length_witness :
  (forall target,
     proxy_request Examples.upstream Examples.post_bad_length target
     = (SendError 500 "invalid literal for int() with base 10: 'abc'",
        ["Proxy error: invalid literal for int() with base 10: 'abc'"])) /\
  do_POST Examples.upstream Examples.post_bad_length
  = (SendError 500 "invalid literal for int() with base 10: 'abc'",
     ["Proxy error: invalid literal for int() with base 10: 'abc'"]).
Proof.
  pose proof (unreadable_content_length Examples.upstream Examples.post_bad_length
                "invalid literal for int() with base 10: 'abc'" "talks/" eq_refl)
    as (Hproxy & _ & Hpost & _).
  split; [exact Hproxy|]. by apply Hpost.
Defined.

Lemma py_in_unfold needle haystack :
  py_in needle haystack
  = String.prefix needle haystack ||
    match haystack with EmptyString => false | String _ rest => py_in needle rest end.
Proof. by destruct haystack. Qed.

Lemma py_in_app needle pre post : py_in needle (pre +:+ needle +:+ post) = true.
Proof.
  induction pre as [|c pre IH].
  - change ("" +:+ needle +:+ post) with (needle +:+ post).
    by rewrite py_in_unfold, ServerFacts.prefix_app.
  - change (String c pre +:+ needle +:+ post) with (String c (pre +:+ needle +:+ post)).
    rewrite py_in_unfold, IH. apply orb_true_r.
Qed.

Lemma prefix_inv p s : String.prefix p s = true -> exists rest, s = p +:+ rest.
Proof.
  revert s. induction p as [|c p IH]; intros s; [by exists s|].
  destruct s as [|c' s]; [done|]. simpl.
  destruct (Ascii.ascii_dec c c') as [<-|]; [|done].
  intros [rest ->]%IH. by exists rest.
Qed.

Lemma py_in_inv needle haystack :
  py_in needle haystack = true -> exists pre post, haystack = pre +:+ needle +:+ post.
Proof.
  induction haystack as [|c h IH]; rewrite py_in_unfold.
  - rewrite orb_false_r. intros [rest Hr]%prefix_inv. by exists "", rest.
  - intros [[rest Hr]%prefix_inv|(pre & post & ->)%IH]%orb_true_iff.
    + by exists "", rest.
    + by exists (String c pre), post.
Qed.

Lemma append_assoc (a b c : string) : (a +:+ b) +:+ c = a +:+ b +:+ c.
Proof.
  induction a as [|x a IH]; [done|].
  change (String x ((a +:+ b) +:+ c) = String x (a +:+ b +:+ c)). by rewrite IH.
Qed.

Lemma existsb_py_in exts line :
  existsb (fun x => py_in x line) exts = true <->
  exists ext, ext ∈ exts /\ exists a b, line = a +:+ ext +:+ b.
Proof.
  rewrite existsb_exists. split.
  - intros (ext & Hin%list_elem_of_In & Hext%py_in_inv). by exists ext.
  - intros (ext & Hin%list_elem_of_In & a & b & ->). exists ext. split; [done|].
    apply py_in_app.
Qed.

(** X18. Labels of the log: a logged line that holds a path under
    [/feeds/] is printed with [RSS]; one that holds a path under [/api/]
    is printed with [API], unless [/feeds/] occurs somewhere in the line,
    which makes it [RSS] although the request is routed as an API call;
    and a line is dropped exactly when it holds neither [/feeds/] nor
    [/api/] and holds one of the six asset extensions. *)
Theorem log_labels (pre path post : string) :
  let line := pre +:+ path +:+ post in
  (String.prefix "/feeds/" path = true -> log_message line = Some ("[RSS] " +:+ line)) /\
  (String.prefix "/api/" path = true ->
     log_message line
     = Some ((if py_in "/feeds/" line then "[RSS] " else "[API] ") +:+ line)) /\
  (log_message line = None <->
     py_in "/feeds/" line = false /\ py_in "/api/" line = false /\
     exists ext, ext ∈ [".js"; ".css"; ".json"; ".svg"; ".png"; ".ico"] /\
                 exists a b, line = a +:+ ext +:+ b).
Proof.
  intros line. split; [|split].
  - intros [rest ->]%prefix_inv. unfold log_message, line.
    by rewrite append_assoc, py_in_app.
  - intros [rest ->]%prefix_inv. unfold log_message. fold line.
    destruct (py_in "/feeds/" line); [done|].
    unfold line. by rewrite append_assoc, py_in_app.
  - unfold log_message. rewrite <- existsb_py_in.
    destruct (py_in "/feeds/" line); [by split; [|intros [? _]]|].
    destruct (py_in "/api/" line); [by split; [|intros (_ & ? & _)]|].
    destruct (existsb _ _); simpl; [done|]. by split; [|intros (_ & _ & ?)].
Qed.
End ProxyFacts.

(** ** URLs *)

Lemma to_int_nonnil z : Z.to_int z <> Decimal.Pos Decimal.Nil /\ Z.to_int z <> Decimal.Neg Decimal.Nil.
Proof.
  destruct z as [|p|p]; simpl; split; try done.
  - intros [= H]. by apply Unsigned.to_uint_nonnil in H.
  - intros [= H]. by apply Unsigned.to_uint_nonnil in H.
Qed.

Lemma py_str_int_inj a b : py_str_int a = py_str_int b -> a = b.
Proof.
  unfold py_str_int. intros H. apply to_int_inj.
  destruct (to_int_nonnil a) as [Ha1 Ha2], (to_int_nonnil b) as [Hb1 Hb2].
  pose proof (NilZero.isi _ Ha1 Ha2) as Ia. pose proof (NilZero.isi _ Hb1 Hb2) as Ib.
  rewrite H in Ia. congruence.
Qed.

Lemma append_inj_l (p s1 s2 : string) : p +:+ s1 = p +:+ s2 -> s1 = s2.
Proof.
  induction p as [|c p IH]; [done|].
  change (String c (p +:+ s1) = String c (p +:+ s2) -> s1 = s2).
  intros [= H]. by apply IH.
Qed.

Lemma append_inj_slash (s1 s2 : string) : s1 +:+ "/" = s2 +:+ "/" -> s1 = s2.
Proof.
  revert s2. induction s1 as [|c s1 IH]; intros [|c' s2].
  - done.
  - change ("/" = String c' (s2 +:+ "/") -> "" = String c' s2).
    intros [= _ H]. by destruct s2.
  - change (String c (s1 +:+ "/") = "/" -> String c s1 = "").
    intros [= _ H]. by destruct s1.
  - change (String c (s1 +:+ "/") = String c' (s2 +:+ "/") -> String c s1 = String c' s2).
    intros [= -> H]. by rewrite (IH _ H).
Qed.

(** X19. The URLs requested: the teachers scraper asks for a talk at the
    URL the talks scraper uses, whether it is given the endpoint name or
    the endpoint URL; the four named endpoints give
    [API_BASE/<name>/<id>/]; different IDs give different URLs, and no
    detail URL is the listing URL. *)
Theorem request_urls (a b : Z) (endpoint : string) :
  url_string (ItemDetail "talks" a) = url_string (TalkDetail a) /\
  (endpoint ∈ ["teachers"; "talks"; "retreats"; "venues"] ->
     url_string (ItemDetail endpoint a)
     = API_BASE +:+ "/" +:+ endpoint +:+ "/" +:+ py_str_int a +:+ "/") /\
  url_string (ItemDetail TALKS_ENDPOINT a) = url_string (TalkDetail a) /\
  (url_string (TalkDetail a) = url_string (TalkDetail b) -> a = b) /\
  (url_string (ItemDetail endpoint a) = url_string (ItemDetail endpoint b) -> a = b) /\
  url_string (TalkDetail a) <> url_string TalksEndpoint.
Proof.
  split; [reflexivity|]. split; [|split; [reflexivity|split; [|split]]].
  - rewrite !elem_of_cons, elem_of_nil.
    intros [->|[->|[->|[->|[]]]]]; reflexivity.
  - unfold url_string. by intros ?%append_inj_l%append_inj_slash%py_str_int_inj.
  - unfold url_string. cbv zeta.
    by intros ?%append_inj_l%(append_inj_l "/")%append_inj_slash%py_str_int_inj.
  - unfold url_string. intros H.
    apply (append_inj_l TALKS_ENDPOINT _ "") in H. by destruct (py_str_int a).
Qed.

(** ** The teachers scraper *)

(** X20. [fetch_item_details] keeps to its budget and lets no request
    exception out: it makes at most [max_retries] requests, all to the URL
    of the item, changes no file, and what it returns is [None] or the
    JSON body of an accepted answer; when every answer is 429 it returns
    [None] after the waits 5, 10, ... seconds. *)
Theorem fetch_item_details_bounded (endpoint : string) (item_id max_retries : Z)
    (w : world) (r : outcome json) (w' : world) :
  fetch_item_details endpoint item_id max_retries w = (r, w') ->
  (forall e, r <> Raise (RequestException e)) /\
  (exists k,
     (k <= Z.to_nat max_retries)%nat /\
     (0 < max_retries -> (1 <= k)%nat) /\
     gets (trace w') = gets (trace w) ++ replicate k (ItemDetail endpoint item_id) /\
     requests_made w' = (requests_made w + k)%nat) /\
  files w' = files w /\
  writes (trace w') = writes (trace w) /\
  (forall v, r = Ok v -> accepted_answer (remote w) (ItemDetail endpoint item_id) v) /\
  ((forall j, (j < Z.to_nat max_retries)%nat ->
      exists b, remote w (requests_made w + j)%nat (ItemDetail endpoint item_id)
                = Http 429 b) ->
   r = Ok JNull /\
   sleeps (trace w') = sleeps (trace w) ++ backoff_waits (Z.to_nat max_retries)).
Proof.
  unfold fetch_item_details. intros Hrun.
  destruct (retry_loop_bounded (ItemDetail endpoint item_id) max_retries
              (seq 0 (Z.to_nat max_retries)) w)
    as (v & w1 & k & Hloop & Hk & Hpos & Hgets & Hreq).
  rewrite Hloop in Hrun. injection Hrun as <- <-.
  destruct (respects_retry_loop _ _ _ _ _ _ Hloop) as (_ & Hf & Hw & _).
  split; [done|]. split.
  { exists k. rewrite length_seq in Hk. split; [done|]. split; [|done].
    intros Hmax. apply Hpos. destruct (Z.to_nat max_retries) eqn:E; [lia|done]. }
  split; [done|]. split; [done|]. split.
  { intros v0 [= <-]. by eapply retry_loop_result. }
  intros H429. rewrite retry_loop_all_429 in Hloop by exact H429.
  injection Hloop as <- <-. split; [done|]. simpl.
  by rewrite sleeps_app, sleeps_backoff_events.
Qed.

Lemma fetch_item_details_bounded_witness :
  fetch_item_details "talks" 7 3 Examples.w_rate_limited
  = (Ok JNull, (fetch_item_details "talks" 7 3 Examples.w_rate_limited).2) /\
  sleeps (trace (fetch_item_details "talks" 7 3 Examples.w_rate_limited).2)
  = sleeps (trace Examples.w_rate_limited) ++ backoff_waits (Z.to_nat 3).
Proof.
  destruct (fetch_item_details_bounded "talks" 7 3 Examples.w_rate_limited
              (fetch_item_details "talks" 7 3 Examples.w_rate_limited).1
              (fetch_item_details "talks" 7 3 Examples.w_rate_limited).2)
    as (_ & _ & _ & _ & _ & H429).
  - vm_compute. reflexivity.
  - destruct H429 as [Hr Hs].
    + intros j Hj. exists None.
      do 3 (destruct j as [|j]; [reflexivity|]). simpl in Hj. lia.
    + split; [|exact Hs]. vm_compute. reflexivity.
Defined.

Module TeacherFacts.
Import Teachers.

Lemma after_last_dot_no_dot s :
  string_forallb (fun c => negb (Ascii.eqb c ".")) s = true -> after_last_dot s = None.
Proof.
  induction s as [|c s IH]; [done|]. simpl.
  intros [Hc Hs]%andb_true_iff. rewrite (IH Hs).
  by destruct (Ascii.eqb c ".").
Qed.

Lemma after_last_dot_app stem ext :
  string_forallb (fun c => negb (Ascii.eqb c ".")) ext = true ->
  after_last_dot (stem +:+ "." +:+ ext) = Some ext.
Proof.
  intros Hext. induction stem as [|c stem IH].
  - change ("" +:+ "." +:+ ext) with (String "." ext). simpl.
    by rewrite (after_last_dot_no_dot _ Hext).
  - change (String c stem +:+ "." +:+ ext) with (String c (stem +:+ "." +:+ ext)).
    simpl. by rewrite IH.
Qed.

(** X21. The photo URL is built from the teacher ID and the extension of
    the photo field only: for a field [stem.ext] it is
    [MEDIA_BASE/uploads/photos/teacher_<id>_125_0.<ext>] whatever the stem
    is, a field without a dot is taken as the extension itself, and
    [parse_teacher] stores this URL together with the page URL
    [BASE/teacher/<id>/] and the talk count it was given. *)
Theorem photo_url_extension (teacher_id : Z) (stem ext : string) :
  string_forallb (fun c => negb (Ascii.eqb c ".")) ext = true ->
  let photo_url :=
    MEDIA_BASE +:+ "/uploads/photos/teacher_" +:+ py_str_int teacher_id +:+ "_125_0."
    +:+ ext in
  build_photo_url (JInt teacher_id) (JStr (stem +:+ "." +:+ ext)) = Ok photo_url /\
  (ext <> "" -> build_photo_url (JInt teacher_id) (JStr ext) = Ok photo_url) /\
  (forall data talk_count last_talk_date,
     dict_lookup "id" data = Some (JInt teacher_id) ->
     dict_lookup "photo" data = Some (JStr (stem +:+ "." +:+ ext)) ->
     exists teacher,
       parse_teacher data talk_count last_talk_date = Ok teacher /\
       Teacher.photo_url teacher = JStr photo_url /\
       Teacher.url teacher
       = JStr (BASE +:+ "/teacher/" +:+ py_str_int teacher_id +:+ "/") /\
       Teacher.talk_count teacher = talk_count).
Proof.
  intros Hext photo_url.
  assert (Hfull : build_photo_url (JInt teacher_id) (JStr (stem +:+ "." +:+ ext))
                  = Ok photo_url).
  { unfold build_photo_url.
    assert (Htruthy : py_truthy (JStr (stem +:+ "." +:+ ext)) = true).
    { simpl. by destruct stem. }
    rewrite Htruthy. simpl. unfold py_split_dot_last.
    by rewrite (after_last_dot_app _ _ Hext). }
  split; [done|]. split.
  - intros Hne. unfold build_photo_url.
    assert (Htruthy : py_truthy (JStr ext) = true) by (simpl; by destruct ext).
    rewrite Htruthy. simpl. unfold py_split_dot_last.
    by rewrite (after_last_dot_no_dot _ Hext).
  - intros data talk_count last_talk_date Hid Hphoto.
    unfold parse_teacher, py_get. rewrite Hid, Hphoto. simpl. rewrite Hfull. simpl.
    by eexists.
Qed.

Lemma photo_url_extension_witness :
  build_photo_url (JInt 96) (JStr ("joseph.goldstein" +:+ "." +:+ "png"))
  = Ok "https://media.dharmaseed.org/uploads/photos/teacher_96_125_0.png" /\
  build_photo_url (JInt 96) (JStr "png")
  = Ok "https://media.dharmaseed.org/uploads/photos/teacher_96_125_0.png".
Proof.
  destruct (photo_url_extension 96 "joseph.goldstein" "png" eq_refl) as (H1 & H2 & _).
  split; [exact H1|]. by apply H2.
Defined.

Lemma py_setitem_lookup d k v : dict_lookup k (py_setitem d k v) = Some v.
Proof.
  induction d as [|[k' x] d IH]; cbn [py_setitem dict_lookup].
  - by rewrite String.eqb_refl.
  - destruct (String.eqb k' k) eqn:Hk; cbn [dict_lookup]; by rewrite Hk.
Qed.

Lemma py_setitem_lookup_ne d k k' v :
  k <> k' -> dict_lookup k' (py_setitem d k v) = dict_lookup k' d.
Proof.
  intros Hne. induction d as [|[k0 x] d IH]; cbn [py_setitem dict_lookup].
  - by destruct (String.eqb_spec k k').
  - destruct (String.eqb_spec k0 k) as [->|]; cbn [dict_lookup].
    + by destruct (String.eqb_spec k k').
    + by rewrite IH.
Qed.

Lemma py_setitem_keys d k v :
  map fst (py_setitem d k v)
  = if bool_decide (k ∈ map fst d) then map fst d else map fst d ++ [k].
Proof.
  induction d as [|[k0 x] d IH]; cbn [py_setitem map fst].
  - rewrite bool_decide_eq_false_2; [done|]. apply not_elem_of_nil.
  - destruct (String.eqb_spec k0 k) as [->|Hne]; cbn [map fst].
    + rewrite bool_decide_eq_true_2; [done|]. apply list_elem_of_here.
    + rewrite IH. destruct (decide (k ∈ map fst d)) as [Hin|Hnot].
      * rewrite !bool_decide_eq_true_2; [done| |done]. by apply list_elem_of_further.
      * rewrite !bool_decide_eq_false_2; [done| |done].
        by intros [->|?]%elem_of_cons.
Qed.

(** X22. What [save_to_json] writes: the file holds a dict with the keys
    [source], [api] and the source type, in this order, the last one
    holding the records in order; when the source type is itself [source]
    or [api] the dict has the two keys only and the records replace that
    entry. *)
Theorem save_to_json_db {T} (asdict_item : T -> Dict) (data : list T)
    (filename source_type : string) (w : world) :
  let items := map asdict_item data in
  exists line w',
    save_to_json asdict_item data filename source_type w = (Ok line, w') /\
    files w' = <[filename := JsonText (JObj (db items source_type))]> (files w) /\
    py_get (db items source_type) source_type (JList []) = JList (map JObj items) /\
    map fst (db items source_type)
    = (if bool_decide (source_type ∈ ["source"; "api"]) then ["source"; "api"]
       else ["source"; "api"; source_type]) /\
    (source_type <> "source" ->
     dict_lookup "source" (db items source_type) = Some (JStr BASE)) /\
    (source_type <> "api" ->
     dict_lookup "api" (db items source_type)
     = Some (JStr (endpoints_get ENDPOINTS source_type ""))).
Proof.
  intros items. eexists _, _. split; [reflexivity|]. split; [done|].
  unfold db, py_get. rewrite py_setitem_lookup. split; [done|].
  rewrite py_setitem_keys. split.
  { change (map fst (py_setitem [("source", JStr BASE)] "api"
                       (JStr (endpoints_get ENDPOINTS source_type ""))))
      with ["source"; "api"].
    by destruct (bool_decide _). }
  split; intros Hne.
  - by rewrite py_setitem_lookup_ne.
  - rewrite py_setitem_lookup_ne by done. apply py_setitem_lookup.
Qed.

End TeacherFacts.

Module ItemFacts.
Import Teachers.

Lemma fetch_item_details_answer endpoint item_id w :
  exists v w1 k,
    fetch_item_details endpoint item_id 5 w = (Ok v, w1) /\
    quiet w w1 /\ (1 <= k <= 5)%nat /\ requests_made w1 = (requests_made w + k)%nat /\
    accepted_answer (remote w) (ItemDetail endpoint item_id) v.
Proof.
  unfold fetch_item_details.
  destruct (retry_loop_bounded (ItemDetail endpoint item_id) 5 (seq 0 (Z.to_nat 5)) w)
    as (v & w1 & k & Hrun & Hk & Hpos & _ & Hreq).
  exists v, w1, k. split; [done|]. split; [by eapply respects_retry_loop|].
  split; [|split; [done|by eapply retry_loop_result]].
  split; [by apply Hpos|]. by rewrite length_seq in Hk.
Qed.

Lemma fetch_all_items_loop_collects endpoint delay_s total ids :
  forall i items out w r w',
    fetch_all_items_loop endpoint delay_s total i ids items out w = (r, w') ->
    let answers := item_results endpoint (remote w) (requests_made w) ids in
    quiet w w' /\
    (requests_made w' <= requests_made w + 5 * length ids)%nat /\
    (forall e, r <> Raise (RequestException e)) /\
    (forall items' out', r = Ok (items', out') ->
       Forall2 (fun id v => accepted_answer (remote w) (ItemDetail endpoint id) v)
               ids answers /\
       items' = items ++ filter (fun v => py_truthy v = true) answers /\
       (requests_made w + length ids <= requests_made w')%nat /\
       exists more, out' = out ++ more).
Proof.
  induction ids as [|item_id rest IH]; intros i items out w r w' H.
  - injection H as <- <-. simpl. split; [reflexivity|]. split; [lia|]. split; [done|].
    intros items' out' [= <- <-]. split; [constructor|]. rewrite app_nil_r.
    split; [done|]. split; [lia|]. exists []. by rewrite app_nil_r.
  - cbn [fetch_all_items_loop] in H.
    destruct (fetch_item_details_answer endpoint item_id w)
      as (v & w1 & k & Hdet & Hq1 & Hk & Hreq1 & Hv).
    rewrite (bind_ok _ _ _ _ _ Hdet) in H. cbv zeta in H.
    cbv zeta. unfold item_results in *.
    rewrite (results_in_turn_cons (fun x => fetch_item_details endpoint x 5)
               item_id rest w v w1 (remote_only_fetch_item_details _ _ _) Hdet).
    destruct (sleep delay_s w1) as [rs w2] eqn:Hsleep.
    pose proof (respects_sleep _ _ _ _ Hsleep) as [Hq2 Hreq2].
    assert (Hq12 : quiet w w2) by (by etrans).
    destruct rs as [[]|e|].
    + rewrite (bind_ok _ _ _ _ _ Hsleep) in H.
      apply IH in H as (Hq & Hle & Hno & Hok). cbv zeta in Hok.
      pose proof Hq12 as (Hr12 & _). rewrite Hr12, Hreq2 in Hok.
      split; [by etrans; [|exact Hq]|]. split; [simpl; lia|]. split; [done|].
      intros items' out' Hr. destruct (Hok _ _ Hr) as (Hacc & -> & Hge & more & ->).
      split; [by constructor|]. split.
      { rewrite filter_cons. destruct (py_truthy v) eqn:Htruthy.
        - rewrite decide_True by done. by rewrite <- app_assoc.
        - rewrite decide_False by done. done. }
      split; [simpl; lia|].
      destruct (_ =? _); [|by exists more].
      eexists. by rewrite <- app_assoc.
    + rewrite (bind_raise _ _ _ _ _ Hsleep) in H. injection H as <- <-.
      split; [done|]. split; [simpl; lia|]. split.
      { intros e' [= ->]. revert Hsleep. unfold sleep. by destruct (_ <? _). }
      done.
    + rewrite (bind_oom _ _ _ _ Hsleep) in H. injection H as <- <-.
      split; [done|]. split; [simpl; lia|]. done.
Qed.

(** X23. [fetch_all_items], once the IDs are listed: whatever its
    outcome it changes no file, makes at most five requests per wanted ID
    and lets no request exception out; when it returns, the items are the
    truthy answers that [fetch_item_details] gave for the wanted IDs taken
    in turn, in that order, each the body of an accepted answer for its
    ID, at least one request was made per wanted ID, its first line
    announces the number of wanted IDs and its last line reports the
    number of items; the wanted IDs are all of them for no limit or a
    limit of zero, and the first [limit] for a positive limit. *)
Theorem fetch_all_items_collects (endpoint : string) (ids : list Z) (limit : option Z)
    (delay_s : Q) (w : world) (r : outcome (list json * list string)) (w' : world) :
  fetch_all_items endpoint ids limit delay_s w = (r, w') ->
  let wanted := limit_ids limit ids in
  let answers := item_results endpoint (remote w) (requests_made w) wanted in
  files w' = files w /\ writes (trace w') = writes (trace w) /\
  (requests_made w' <= requests_made w + 5 * length wanted)%nat /\
  (forall e, r <> Raise (RequestException e)) /\
  (forall items out, r = Ok (items, out) ->
     Forall2 (fun id v => accepted_answer (remote w) (ItemDetail endpoint id) v)
             wanted answers /\
     items = filter (fun v => py_truthy v = true) answers /\
     (requests_made w + length wanted <= requests_made w')%nat /\
     head out
     = Some ("Fetching " +:+ py_str_int (Z.of_nat (length wanted)) +:+ " " +:+ endpoint
             +:+ "...") /\
     last out
     = Some ("  Completed: " +:+ py_str_int (Z.of_nat (length items)) +:+ "/"
             +:+ py_str_int (Z.of_nat (length wanted)) +:+ " fetched successfully")) /\
  (limit = None \/ limit = Some 0 -> wanted = ids) /\
  (forall k, limit = Some k -> 0 < k -> wanted = take (Z.to_nat k) ids).
Proof.
  intros H wanted answers. unfold fetch_all_items in H. cbv zeta in H. fold wanted in H.
  assert (Hwanted : (limit = None \/ limit = Some 0 -> wanted = ids) /\
                    (forall k, limit = Some k -> 0 < k -> wanted = take (Z.to_nat k) ids)).
  { unfold wanted, limit_ids, py_slice_to. split.
    - by intros [->| ->].
    - intros k -> Hk. destruct (Z.eqb_spec k 0); [lia|].
      by destruct (Z.leb_spec 0 k); [|lia]. }
  apply bind_inv in H as [([items out] & w1 & Hloop & H)|[(e & Hloop & ->)|[Hloop ->]]];
    apply fetch_all_items_loop_collects in Hloop as ((_ & Hf & Hw & _) & Hle & Hno & Hok).
  - injection H as <- <-. do 3 (split; [done|]). split; [done|]. split; [|done].
    intros items' out' [= <- <-].
    destruct (Hok _ _ eq_refl) as (Hacc & -> & Hge & more & ->).
    split; [done|]. split; [done|]. split; [done|].
    split; [done|]. by rewrite last_snoc.
  - do 3 (split; [done|]). split; [done|]. split; [|done]. intros; discriminate.
  - do 3 (split; [done|]). split; [done|]. split; [|done]. intros; discriminate.
Qed.

Lemma fetch_all_items_collects_witness :
  let r := (fetch_all_items "talks" [7; 3; 9; 5] (Some 2) (3 # 10) Examples.w_rate_limited).1 in
  let w' := (fetch_all_items "talks" [7; 3; 9; 5] (Some 2) (3 # 10) Examples.w_rate_limited).2 in
  exists out,
    r = Ok ([ Examples.payload 7; Examples.payload 3 ], out) /\
    files w' = files Examples.w_rate_limited /\
    le (requests_made w') (requests_made Examples.w_rate_limited + 5 * 2) /\
    [ Examples.payload 7; Examples.payload 3 ]
    = filter (fun v => py_truthy v = true)
        (item_results "talks" (remote Examples.w_rate_limited)
           (requests_made Examples.w_rate_limited) (limit_ids (Some 2) [7; 3; 9; 5])).
Proof.
  intros r w'.
  destruct (fetch_all_items_collects "talks" [7; 3; 9; 5] (Some 2) (3 # 10)
              Examples.w_rate_limited r w')
    as (Hf & _ & Hle & _ & Hok & _).
  - vm_compute. reflexivity.
  - eexists. split; [vm_compute; reflexivity|]. split; [exact Hf|]. split; [exact Hle|].
    refine (proj1 (proj2 (Hok _ _ _))). vm_compute. reflexivity.
Defined.

End ItemFacts.

(** ** Redirects *)

Module RedirectFacts.
Import Teachers Redirects.

Lemma string_filter_filter p q s :
  string_filter q (string_filter p s) = string_filter (fun c => p c && q c) s.
Proof.
  induction s as [|c s IH]; [done|]. simpl.
  destruct (p c); simpl; [|done]. destruct (q c); by rewrite IH.
Qed.

Lemma string_filter_ext p q s :
  (forall c, p c = q c) -> string_filter p s = string_filter q s.
Proof. intros H. induction s as [|c s IH]; [done|]. simpl. by rewrite H, IH. Qed.

Lemma string_filter_forallb p s : string_forallb p (string_filter p s) = true.
Proof.
  induction s as [|c s IH]; [done|]. simpl.
  destruct (p c) eqn:Hc; [|done]. simpl. by rewrite Hc.
Qed.

Lemma string_filter_id p s : string_forallb p s = true -> string_filter p s = s.
Proof.
  induction s as [|c s IH]; [done|]. simpl.
  intros [-> Hs]%andb_true_iff. by rewrite IH.
Qed.

Lemma string_map_id f p s :
  (forall c, p c = true -> f c = c) -> string_forallb p s = true -> string_map f s = s.
Proof.
  intros Hf. induction s as [|c s IH]; [done|]. simpl.
  intros [Hc Hs]%andb_true_iff. by rewrite (Hf c Hc), IH.
Qed.

Lemma string_forallb_impl (p q : ascii -> bool) s :
  (forall c, p c = true -> q c = true) ->
  string_forallb p s = true -> string_forallb q s = true.
Proof.
  intros H. induction s as [|c s IH]; [done|]. simpl.
  intros [Hc Hs]%andb_true_iff. by rewrite (H c Hc), IH.
Qed.

Lemma string_map_app f a b : string_map f (a +:+ b) = string_map f a +:+ string_map f b.
Proof.
  induction a as [|c a IH]; [done|].
  change (String c a +:+ b) with (String c (a +:+ b)). simpl. by rewrite IH.
Qed.

Lemma string_filter_app p a b :
  string_filter p (a +:+ b) = string_filter p a +:+ string_filter p b.
Proof.
  induction a as [|c a IH]; [done|].
  change (String c a +:+ b) with (String c (a +:+ b)). simpl. rewrite IH.
  by destruct (p c).
Qed.

Lemma string_forallb_app p a b :
  string_forallb p (a +:+ b) = string_forallb p a && string_forallb p b.
Proof.
  induction a as [|c a IH]; [done|].
  change (String c a +:+ b) with (String c (a +:+ b)). simpl. rewrite IH.
  by rewrite andb_assoc.
Qed.

Lemma alnum_not_space c : is_lower_alnum c = true -> is_space c = false.
Proof.
  unfold is_lower_alnum, is_space. generalize (nat_of_ascii c). intros n.
  rewrite !orb_true_iff, !andb_true_iff, !Nat.leb_le. intros H.
  apply orb_false_iff. split; apply andb_false_iff; rewrite !Nat.leb_gt; lia.
Qed.

Lemma alnum_ascii c : is_lower_alnum c = true -> is_ascii c = true.
Proof.
  unfold is_lower_alnum, is_ascii. generalize (nat_of_ascii c). intros n.
  rewrite !orb_true_iff, !andb_true_iff, !Nat.leb_le, Nat.ltb_lt. lia.
Qed.

Lemma alnum_lower c : is_lower_alnum c = true -> lower c = c.
Proof.
  unfold is_lower_alnum, lower, is_upper. generalize (nat_of_ascii c). intros n.
  rewrite !orb_true_iff, !andb_true_iff, !Nat.leb_le. intros H.
  destruct (Nat.leb_spec 65 n), (Nat.leb_spec n 90); simpl; try done. lia.
Qed.

Lemma slugify_eq name slug :
  slugify name = Ok slug ->
  string_forallb is_ascii name = true /\
  slug = string_filter is_lower_alnum (string_map lower name).
Proof.
  unfold slugify. destruct (string_forallb is_ascii name); [|done].
  intros [= <-]. split; [done|]. rewrite string_filter_filter.
  apply string_filter_ext. intros c.
  destruct (is_lower_alnum c) eqn:Hc; simpl.
  - by rewrite (alnum_not_space c Hc).
  - by destruct (is_space c).
Qed.

(** X24. The slug of an ASCII name is its letters and digits, lowered,
    in order: the two substitutions together drop every other character
    (the white space the first one keeps is dropped by the second); a slug
    is made of [a-z0-9] only, is its own slug, and the slug of a
    concatenation is the concatenation of the slugs. *)
Theorem slugify_alnum (name slug : string) :
  slugify name = Ok slug ->
  slug = string_filter is_lower_alnum (string_map lower name) /\
  string_forallb is_lower_alnum slug = true /\
  slugify slug = Ok slug /\
  (forall other slug', slugify other = Ok slug' ->
     slugify (name +:+ other) = Ok (slug +:+ slug')).
Proof.
  intros H. destruct (slugify_eq _ _ H) as [Hascii Hslug].
  assert (Halnum : string_forallb is_lower_alnum slug = true).
  { rewrite Hslug. apply string_filter_forallb. }
  split; [done|]. split; [done|]. split.
  - unfold slugify.
    rewrite (string_forallb_impl _ _ _ alnum_ascii Halnum).
    rewrite (string_map_id _ _ _ alnum_lower Halnum).
    rewrite (string_filter_id (fun c => is_lower_alnum c || is_space c) slug).
    + rewrite string_filter_id; [done|].
      eapply string_forallb_impl; [|exact Halnum].
      intros c Hc. by rewrite (alnum_not_space c Hc).
    + eapply string_forallb_impl; [|exact Halnum]. by intros c ->.
  - intros other slug' H'. unfold slugify in *.
    rewrite string_forallb_app.
    destruct (string_forallb is_ascii name); [|done].
    destruct (string_forallb is_ascii other); [|done]. simpl.
    injection H as <-. injection H' as <-.
    by rewrite string_map_app, !string_filter_app.
Qed.

Lemma slugify_alnum_witness :
  "jamesbaraz" = string_filter is_lower_alnum (string_map lower "James Baraz") /\
  string_forallb is_lower_alnum "jamesbaraz" = true /\
  slugify "jamesbaraz" = Ok "jamesbaraz" /\
  (forall other slug', slugify other = Ok slug' ->
     slugify ("James Baraz" +:+ other) = Ok ("jamesbaraz" +:+ slug')).
Proof. apply (slugify_alnum "James Baraz" "jamesbaraz"). reflexivity. Defined.

Lemma insert_str_perm x l : insert_str x l ≡ₚ x :: l.
Proof.
  induction l as [|y l IH]; [done|]. simpl.
  destruct (String.leb x y); [done|]. by rewrite IH, Permutation_swap.
Qed.

Lemma sort_str_perm l : sort_str l ≡ₚ l.
Proof.
  induction l as [|x l IH]; [done|].
  change (sort_str (x :: l)) with (insert_str x (sort_str l)).
  by rewrite insert_str_perm, IH.
Qed.

Lemma insert_str_sorted x l :
  Sorted (fun a b => String.leb a b = true) l ->
  Sorted (fun a b => String.leb a b = true) (insert_str x l).
Proof.
  induction 1 as [|y l Hl IH Hy]; simpl.
  - by repeat constructor.
  - destruct (String.leb x y) eqn:Hxy.
    + constructor; [by constructor|]. by constructor.
    + constructor; [done|].
      destruct (String.leb_total x y) as [Hle|Hle]; [congruence|].
      destruct Hy as [|z l Hz]; simpl.
      * by constructor.
      * destruct (String.leb x z); by constructor.
Qed.

Lemma sort_str_sorted l : Sorted (fun a b => String.leb a b = true) (sort_str l).
Proof.
  induction l as [|x l IH]; [constructor|].
  change (sort_str (x :: l)) with (insert_str x (sort_str l)).
  by apply insert_str_sorted.
Qed.

Lemma redirect_step_inv t used redirects used' redirects' :
  redirect_step t used redirects = Ok (used', redirects') ->
  exists o, teacher_outcome t o /\ redirects' = redirects ++ option_list o.
Proof.
  unfold redirect_step. destruct t as [| | | | | |d]; try done.
  destruct (py_eq_zero (py_get d "talk_count" (JInt 0))) eqn:Hcount.
  { intros [= <- <-]. exists None. rewrite app_nil_r. split; [|done].
    exists d. split; [done|]. by left. }
  destruct (py_truthy (py_get d "name" (JStr ""))) eqn:Hname; simpl.
  2:{ intros [= <- <-]. exists None. rewrite app_nil_r. split; [|done].
      exists d. split; [done|]. right. by left. }
  destruct (py_truthy (py_get d "id" JNull)) eqn:Hid; simpl.
  2:{ intros [= <- <-]. exists None. rewrite app_nil_r. split; [|done].
      exists d. split; [done|]. right. right. by left. }
  destruct (py_get d "name" (JStr "")) as [| | | |n| |] eqn:Hn; try done.
  destruct (slugify n) as [slug| |] eqn:Hslug; try done. simpl.
  destruct (String.eqb_spec slug "") as [->|Hne].
  { intros [= <- <-]. exists None. rewrite app_nil_r. split; [|done].
    exists d. split; [done|]. right. right. right. by exists n. }
  destruct (py_format (py_get d "id" JNull)) as [tid_text| |] eqn:Htid; try done. simpl.
  intros [= <- <-]. eexists (Some _). split; [|done].
  exists d. split; [done|]. split; [done|]. split; [done|].
  exists n, slug, tid_text. do 4 (split; [done|]).
  destruct (bool_decide _); [by right|by left].
Qed.

Lemma redirect_loop_inv teachers :
  forall used redirects used' redirects',
    redirect_loop teachers used redirects = Ok (used', redirects') ->
    exists outs,
      Forall2 teacher_outcome teachers outs /\
      redirects' = redirects ++ omap id outs.
Proof.
  induction teachers as [|t teachers IH]; intros used redirects used' redirects'; simpl.
  - intros [= <- <-]. exists []. by rewrite app_nil_r.
  - destruct (redirect_step t used redirects) as [[used1 redirects1]| |] eqn:Hstep;
      try done.
    simpl. intros (outs & Houts & ->)%IH.
    apply redirect_step_inv in Hstep as (o & Ho & ->).
    exists (o :: outs). split; [by constructor|].
    rewrite <- app_assoc. by destruct o.
Qed.

(** X25. One redirect per teacher with talks: when [generate_redirects]
    returns, every element of [teachers] is a dict that was either passed
    over (no talks, no name, no ID, or an empty slug) or gave exactly one
    line, which redirects its slug, or its slug followed by its ID, to its
    own page; the lines written are these lines sorted, each followed by a
    newline after the two header lines, and the first line printed gives
    their number. *)
Theorem one_redirect_per_teacher (redirects_path : string) (d : Dict)
    (teachers : list json) (lines : list string) (text : string)
    (printed : list string) :
  py_get d "teachers" (JList []) = JList teachers ->
  generate_redirects redirects_path (JObj d) = Ok (lines, text, printed) ->
  (exists outs,
     Forall2 teacher_outcome teachers outs /\ lines ≡ₚ omap id outs) /\
  Sorted (fun a b => String.leb a b = true) lines /\
  (length lines <= length teachers)%nat /\
  text = redirects_text lines /\
  head printed
  = Some ("Generated " +:+ py_str_int (Z.of_nat (length lines)) +:+ " redirects -> "
          +:+ redirects_path).
Proof.
  intros Hteachers. unfold generate_redirects. rewrite Hteachers. simpl.
  destruct (redirect_loop teachers ∅ []) as [[used raw]| |] eqn:Hloop; try done.
  simpl. intros [= <- <- <-].
  apply redirect_loop_inv in Hloop as (outs & Houts & ->). simpl.
  split; [|split; [|split]].
  - exists outs. split; [done|]. apply sort_str_perm.
  - apply sort_str_sorted.
  - rewrite (sort_str_perm _), (Forall2_length _ _ _ Houts).
    clear. induction outs as [|[o|] outs IH]; [done|..].
    + change (S (length (omap id outs)) <= S (length outs))%nat. lia.
    + change (length (omap id outs) <= S (length outs))%nat. lia.
  - done.
Qed.

Lemma one_redirect_per_teacher_witness :
  exists lines text printed,
    (exists outs,
       Forall2 teacher_outcome (map JObj (map Teachers.asdict Examples.teachers)) outs /\
       lines ≡ₚ omap id outs) /\
    Sorted (fun a b => String.leb a b = true) lines /\
    (length lines <= length (map JObj (map Teachers.asdict Examples.teachers)))%nat /\
    text = redirects_text lines /\
    head printed
    = Some ("Generated " +:+ py_str_int (Z.of_nat (length lines)) +:+ " redirects -> "
            +:+ "../_redirects").
Proof.
  eexists _, _, _.
  refine (one_redirect_per_teacher "../_redirects" Examples.teachers_file _ _ _ _ _ _).
  - reflexivity.
  - vm_compute. reflexivity.
Defined.

End RedirectFacts.

(** ** The cached talk counts *)

Module CacheFacts.
Import Teachers TeachersCache.

Lemma py_int_str z :
  (String.length (py_str_int z) <= 4300)%nat -> py_int (py_str_int z) = Ok z.
Proof.
  intros Hlen. unfold py_int.
  destruct (Nat.ltb_spec 4300 (String.length (py_str_int z))); [lia|].
  unfold py_str_int. destruct (to_int_nonnil z) as [H1 H2].
  rewrite (NilZero.isi _ H1 H2), of_to.
  destruct (Z.to_int z) as [[]|[]] eqn:Hz; try done.
Qed.

Lemma int_keys_results results :
  Forall (fun kv => (String.length (py_str_int kv.1) <= 4300)%nat) results ->
  forall acc,
    int_keys (map (fun kv : Z * json => (py_str_int kv.1, kv.2)) results) acc
    = Ok (foldl (fun m kv => <[kv.1 := kv.2]> m) acc results).
Proof.
  induction 1 as [|[z v] results Hz _ IH]; intros acc; [done|].
  cbn [map int_keys foldl fst snd]. rewrite (py_int_str z Hz). apply IH.
Qed.

Lemma foldl_insert_lookup (results : list (Z * json)) :
  forall (acc : gmap Z json) z,
    z ∉ map fst results ->
    foldl (fun m kv => <[kv.1 := kv.2]> m) acc results !! z = acc !! z.
Proof.
  induction results as [|[z' v] results IH]; intros acc z Hz; [done|].
  cbn [foldl fst snd]. rewrite IH.
  - apply lookup_insert_ne. intros ->. apply Hz. apply list_elem_of_here.
  - intros Hin. apply Hz. by apply list_elem_of_further.
Qed.

Lemma foldl_insert_lookup_in (results : list (Z * json)) :
  forall (acc : gmap Z json) z v,
    NoDup (map fst results) -> (z, v) ∈ results ->
    foldl (fun m kv => <[kv.1 := kv.2]> m) acc results !! z = Some v.
Proof.
  induction results as [|[z' v'] results IH]; intros acc z v Hnd Hin.
  - by apply elem_of_nil in Hin.
  - cbn [map fst] in Hnd. apply NoDup_cons in Hnd as [Hnot Hnd].
    cbn [foldl fst snd]. apply elem_of_cons in Hin as [[= -> ->]|Hin].
    + rewrite foldl_insert_lookup by done. apply lookup_insert_eq.
    + by apply IH.
Qed.

(** X26. With cached counts the talk count of a teacher is the cached
    entry as a whole: [load_talk_counts] returns, for each ID of the cache
    file, the value stored under it, and [fetch_teachers] hands that value
    to [parse_teacher] unchanged; for a cache written by
    [count_talks_per_teacher] the [talk_count] of the teacher is therefore
    the dict with [count] and [last_talk_date], not the count, and its
    [last_talk_date] stays empty. *)
Theorem cached_count_is_stored_whole (results : list (Z * json)) (total_talks : Z)
    (teacher_id : Z) (entry : json) (data : Dict) (w : world) :
  files w !! "dharmaseed_talk_counts.json"
  = Some (JsonText (JObj (talk_counts_data results total_talks))) ->
  Forall (fun kv => (String.length (py_str_int kv.1) <= 4300)%nat) results ->
  NoDup (map fst results) ->
  (teacher_id, entry) ∈ results ->
  dict_lookup "id" data = Some (JInt teacher_id) ->
  dict_lookup "photo" data = None ->
  exists counts teacher,
    load_talk_counts w = (Ok (counts, []), w) /\
    counts !! teacher_id = Some entry /\
    parse_teachers [JObj data] counts = Ok [teacher] /\
    Teacher.talk_count teacher = entry /\
    Teacher.last_talk_date teacher = JStr "" /\
    (forall count date, entry = count_entry count date ->
       dict_lookup "talk_count" (asdict teacher)
       = Some (JObj [ ("count", JInt count); ("last_talk_date", JStr date) ])).
Proof.
  intros Hfile Hlen Hnd Hin Hid Hphoto.
  eexists _, _. split.
  { unfold load_talk_counts.
    rewrite (bind_ok _ _ _ _ _ (read_file_eq _ _)), Hfile.
    change (py_get (talk_counts_data results total_talks) "talk_counts" (JObj []))
      with (JObj (map (fun kv : Z * json => (py_str_int kv.1, kv.2)) results)).
    cbv iota. rewrite bind_lift, (int_keys_results _ Hlen). reflexivity. }
  split; [by apply foldl_insert_lookup_in|].
  cbn [parse_teachers]. unfold py_get at 1. rewrite Hid. cbn [counts_get].
  rewrite (foldl_insert_lookup_in _ _ _ _ Hnd Hin). cbn [default].
  unfold parse_teacher, py_get. rewrite Hid, Hphoto. simpl.
  split; [reflexivity|]. split; [done|]. split; [done|].
  by intros count date ->.
Qed.

Lemma cached_count_is_stored_whole_witness :
  exists counts teacher,
    load_talk_counts Examples.w_counts_cached = (Ok (counts, []), Examples.w_counts_cached) /\
    counts !! 86 = Some (count_entry 3 "2019-10-27") /\
    parse_teachers [JObj [ ("id", JInt 86); ("name", JStr "James Baraz") ]] counts
    = Ok [teacher] /\
    Teacher.talk_count teacher = count_entry 3 "2019-10-27" /\
    Teacher.last_talk_date teacher = JStr "" /\
    (forall count date, count_entry 3 "2019-10-27" = count_entry count date ->
       dict_lookup "talk_count" (asdict teacher)
       = Some (JObj [ ("count", JInt count); ("last_talk_date", JStr date) ])).
Proof.
  refine (cached_count_is_stored_whole
            [ (86, count_entry 3 "2019-10-27") ] 3 86 (count_entry 3 "2019-10-27")
            [ ("id", JInt 86); ("name", JStr "James Baraz") ] Examples.w_counts_cached
            _ _ _ _ _ _).
  - reflexivity.
  - constructor; [apply Nat.leb_le; reflexivity|constructor].
  - apply NoDup_singleton.
  - apply list_elem_of_here.
  - reflexivity.
  - reflexivity.
Defined.
End CacheFacts.

(** ** Records of the snapshot in every write *)

Section Keeps.
Variables (filename : string) (delay_s : Q) (save_interval : Z).
Variable existing_talks : list Dict.
Variable total : nat.

#[local] Abbreviation kept := (writes_only (keeps_snapshot filename existing_talks)).

Lemma fetch_step_keeps i talk_id new_talks failed_count w r w' :
  Forall parsed_record new_talks ->
  fetch_step filename delay_s save_interval existing_talks total
    i talk_id new_talks failed_count w = (r, w') ->
  kept w w' /\ forall nt fc, r = Ok (nt, fc) -> Forall parsed_record nt.
Proof.
  intros Hnew (v & w1 & Hd & H)%fetch_step_inv.
  apply fetch_talk_details_inv in Hd as (Hr1 & Hf1 & Hw1 & _).
  assert (Hww1 : kept w w1).
  { split; [done|]. exists []. by rewrite app_nil_r. }
  destruct H as [[Hno ->]|(nt' & fc' & w2 & rc & w3 & Hres & Ho12 & Hc & Ho3 & Hr)].
  { split; [done|]. intros nt fc ->. by destruct (Hno (nt, fc)). }
  assert (Hnew' : Forall parsed_record nt').
  { destruct Hres as [_|data talk _ _ Hp]; [done|].
    apply Forall_app. split; [done|]. constructor; [|done]. by exists data, talk. }
  split.
  - etrans; [exact Hww1|].
    etrans; [apply quiet_writes_only, offline_quiet, Ho12|].
    etrans; [|apply quiet_writes_only, offline_quiet, Ho3].
    apply checkpoint_inv in Hc as [[_ ->]|(_ & _ & [[_ ->]|(_ & all & Hs & ->)])];
      try reflexivity.
    split; [done|]. exists [(filename, JList (map JObj all))]. split.
    { simpl. by rewrite writes_app. }
    constructor; [|done]. split; [done|]. exists all, nt'. split; [done|].
    split; [|done]. by apply sort_by_id_desc_inv in Hs as (? & _).
  - intros nt fc ->. destruct Hr as [[[= <- <-] _]|Hno]; [done|].
    by destruct (Hno (nt, fc)).
Qed.

Lemma fetch_loop_keeps ids :
  forall i new_talks failed_count w r w',
    Forall parsed_record new_talks ->
    fetch_loop filename delay_s save_interval existing_talks total
      i ids new_talks failed_count w = (r, w') ->
    kept w w' /\ forall N fc, r = Ok (N, fc) -> Forall parsed_record N.
Proof.
  induction ids as [|talk_id rest IH]; intros i nt fc w r w' Hnew H.
  - injection H as <- <-. split; [reflexivity|]. by intros N fc' [= <- <-].
  - cbn [fetch_loop] in H.
    apply bind_inv in H as [([nt1 fc1] & w1 & Hstep & H)|[(e & Hstep & ->)|[Hstep ->]]];
      destruct (fetch_step_keeps _ _ _ _ _ _ _ Hnew Hstep) as [Hw Hs].
    + apply IH in H as [Hw2 HN]; [|by eapply Hs]. split; [by etrans|done].
    + split; [done|]. intros; discriminate.
    + split; [done|]. intros; discriminate.
Qed.
End Keeps.

Lemma fetch_talks_incremental_keeps filename limit delay_s save_interval w E ids w0 r w' :
  load_existing_talks filename w = (Ok (E, ids), w0) ->
  fetch_talks_incremental filename limit delay_s save_interval w = (r, w') ->
  writes_only (keeps_snapshot filename E) w w' /\
  forall R, r = Ok R -> exists N, R ≡ₚ E ++ N /\ Forall parsed_record N.
Proof.
  intros Hload H. unfold fetch_talks_incremental in H.
  pose proof (respects_load _ _ _ _ Hload) as Ho0.
  rewrite (bind_ok _ _ _ _ _ Hload) in H.
  assert (Hacc : writes_only (keeps_snapshot filename E) w w0).
  { by apply quiet_writes_only, offline_quiet. }
  stage H from Hacc by (apply good_of_offline, respects_print).
  intros [] w2 _ Hacc H.
  stage H from Hacc by (apply good_of_quiet, respects_fetch_talk_ids).
  intros all_ids w3 _ Hacc H.
  stage H from Hacc by (apply good_of_offline, respects_print).
  intros [] w4 _ Hacc H.
  stage H from Hacc by (apply good_of_offline, respects_limit_print).
  intros new_ids w5 _ Hacc H.
  destruct new_ids as [|tid0 new_ids].
  - stage H from Hacc by (apply good_of_offline, respects_print).
    intros [] w6 _ Hacc [= <- <-]. split; [done|]. intros R [= <-].
    exists []. by rewrite app_nil_r.
  - stage H from Hacc by (apply good_of_offline, respects_print).
    intros [] w6 _ Hacc H.
    assert (Hloop : forall r1 w7,
      fetch_loop filename delay_s save_interval E (length (tid0 :: new_ids)) 0
        (tid0 :: new_ids) [] 0 w6 = (r1, w7) ->
      writes_only (keeps_snapshot filename E) w6 w7 /\
      forall N fc, r1 = Ok (N, fc) -> Forall parsed_record N).
    { intros r1 w7 Hrun. by eapply fetch_loop_keeps in Hrun. }
    stage H from Hacc by (intros r1 w7 Hrun; by apply Hloop in Hrun as [? _]).
    intros [N failed] w7 Hrun Hacc H. apply Hloop in Hrun as [_ HN].
    specialize (HN _ _ eq_refl).
    stage H from Hacc by (apply good_of_offline, respects_print).
    intros [] w8 _ Hacc H.
    stage H from Hacc by (apply good_of_offline, respects_failed_print).
    intros [] w9 _ Hacc [= <- <-]. split; [done|].
    intros R (Hperm & _)%sort_by_id_desc_inv. by exists N.
Qed.

(** X27. Every list a run saves holds the loaded snapshot: in a run
    without [--fresh] whose snapshot loads, each list handed to
    [save_talks_to_json], by a checkpoint or by the final save, and
    whether the run returns or raises later, holds every record of the
    loaded snapshot, and besides them only records [parse_talk] made in
    this run.  (What the file holds after a save depends on the dump
    completing; this is about the lists saved.) *)
Theorem every_save_holds_the_snapshot (args : Args) (w : world) (E : list Dict)
    (ids : gset Z) (w0 : world) (r : outcome unit) (w' : world) :
  arg_fresh args = false ->
  load_existing_talks (arg_output args) w = (Ok (E, ids), w0) ->
  main args w = (r, w') ->
  exists ws,
    writes (trace w') = writes (trace w) ++ ws /\
    Forall (keeps_snapshot (arg_output args) E) ws.
Proof.
  intros Hfresh Hload H.
  cut (writes_only (keeps_snapshot (arg_output args) E) w w'); [by intros [_ ?]|].
  unfold main in H.
  destruct (run_and_save_prefix args w) as (w2 & Hr2 & Hn2 & Hw2 & Hc2 & Hf2 & Hrs).
  rewrite Hfresh in Hf2.
  assert (Hacc : writes_only (keeps_snapshot (arg_output args) E) w w2).
  { split; [done|]. exists []. by rewrite app_nil_r. }
  destruct (load_existing_talks (arg_output args) w2) as [r2 w2'] eqn:Hload2.
  pose proof (load_files_only (arg_output args) w w2 Hf2) as Hsame.
  rewrite Hload, Hload2 in Hsame. simpl in Hsame. subst r2.
  assert (Hrun : forall r1 w3,
    run_and_save args w = (r1, w3) ->
    writes_only (keeps_snapshot (arg_output args) E) w w3).
  { intros r1 w3 Hr1. rewrite Hrs in Hr1. clear Hrs H.
    enough (writes_only (keeps_snapshot (arg_output args) E) w w3 /\
            forall x : list Dict, r1 = Ok x -> True) as [? _]; [done|].
    stage Hr1 from Hacc by
      (intros r3 w4 Hr3;
       by apply (fetch_talks_incremental_keeps _ _ _ _ _ _ _ _ _ _ Hload2) in Hr3
         as [? _]).
    intros R w4 Hr3 Hacc Hsave.
    apply (fetch_talks_incremental_keeps _ _ _ _ _ _ _ _ _ _ Hload2) in Hr3
      as [_ HR]. destruct (HR R eq_refl) as (N & Hperm & HN).
    rewrite (bind_ok _ _ _ _ _ (save_talks_eq _ _ _)) in Hsave.
    injection Hsave as <- <-. split; [|done].
    etrans; [exact Hacc|]. split; [done|].
    exists [(arg_output args, JList (map JObj R))]. split.
    { simpl. by rewrite writes_app. }
    constructor; [|done]. split; [done|]. by exists R, N. }
  apply bind_inv in H as [(talks & w3 & Hr1 & H)|[(e & Hr1 & ->)|[Hr1 ->]]].
  - etrans; [by eapply Hrun|].
    by eapply quiet_writes_only, respects_print_summary.
  - by eapply Hrun.
  - by eapply Hrun.
Qed.

Lemma every_save_holds_the_snapshot_witness :
  exists w' ws,
    writes (trace w') = writes (trace Examples.w_snapshot) ++ ws /\
    Forall (keeps_snapshot Examples.snapshot_file [ Examples.fetched 3 ]) ws.
Proof.
  eexists.
  refine (every_save_holds_the_snapshot
            {| arg_limit := 0; arg_delay := 0; arg_output := Examples.snapshot_file;
               arg_save_interval := 2; arg_fresh := false |}
            Examples.w_snapshot [ Examples.fetched 3 ] {[ 3 ]} Examples.w_snapshot
            _ _ _ _ _).
  - reflexivity.
  - vm_compute. reflexivity.
  - vm_compute. reflexivity.
Defined.

(** ** The next run *)

(** X28. The next run fetches what is missing: after a run that reached
    its final save, a run on the same file without [--fresh] calls
    [fetch_talk_details] for the listed IDs that no saved record has
    (those that failed or were beyond the limit before), in listing order
    and up to its own limit: for all of them when it reaches its final
    save, for a prefix of them when it raises; and what it then saves is
    the saved records together with one record for every truthy answer
    that [fetch_talk_details] gave for these IDs. *)
Theorem next_run_fetches_what_is_missing (args1 args2 : Args) (w0 w1 : world)
    (talks : list Dict) (all_ids : list Z) (r2 : outcome (list Dict)) (w2 : world) :
  run_and_save args1 w0 = (Ok talks, w1) ->
  arg_output args2 = arg_output args1 ->
  arg_fresh args2 = false ->
  listing_at w1 all_ids ->
  run_and_save args2 w1 = (r2, w2) ->
  exists (saved : gset Z) (j : nat),
    (forall z, z ∈ saved <-> id_json z ∈ talk_ids talks) /\
    let missing := limited (cli_limit args2) (filter (fun tid => tid ∉ saved) all_ids) in
    (j <= length missing)%nat /\
    detail_calls (trace w2) = detail_calls (trace w1) ++ take j missing /\
    (forall R, r2 = Ok R ->
       j = length missing /\
       R ≡ₚ talks ++ omap record_of
                       (detail_results (remote w1) (S (requests_made w1)) missing)).
Proof.
  intros Hrun1 Hout Hfresh Hlist Hrun2.
  destruct (run_and_save_Ok _ _ _ _ Hrun1) as (Hfile & zs & Hzs).
  rewrite <- Hout in Hfile.
  exists (list_to_set zs).
  destruct (run_and_save_prefix args2 w1) as (w1' & Hr & Hn & Hw & Hc & Hf & Hrs).
  rewrite Hfresh in Hf. rewrite Hrs in Hrun2. clear Hrs.
  assert (Hload : load_existing_talks (arg_output args2) w1'
                  = (Ok (talks, list_to_set zs), w1')).
  { apply load_snapshot_eq; [by rewrite Hf|done]. }
  assert (Hlist' : listing_at w1' all_ids).
  { unfold listing_at in *. by rewrite Hr, Hn. }
  assert (Hsaved : forall z, z ∈ (list_to_set zs : gset Z) <-> id_json z ∈ talk_ids talks).
  { intros z. rewrite elem_of_list_to_set, Hzs, list_elem_of_fmap. split.
    - intros Hz. by exists z.
    - intros (z' & Heq & Hz'). by apply (inj id_json) in Heq as ->. }
  apply bind_inv in Hrun2 as [(R & w3 & Hfetch & H)|[(e & Hfetch & ->)|[Hfetch ->]]].
  - destruct (fetch_talks_incremental_calls _ _ _ _ _ _ _ _ _ _ _ Hload Hlist' Hfetch)
      as (j & Hj & Hcalls & Hok).
    destruct (fetch_talks_incremental_merge _ _ _ _ _ _ _ _ _ _ Hload Hfetch)
      as (all_ids' & Hlist'' & _ & _ & HR).
    rewrite <- (listing_at_functional _ _ _ Hlist' Hlist''), Hr, Hn in HR.
    rewrite (bind_ok _ _ _ _ _ (save_talks_eq _ _ _)) in H. injection H as <- <-.
    exists j. split; [done|]. cbv zeta. split; [done|]. split.
    + cbn [trace]. rewrite detail_calls_app, Hcalls, Hc. simpl. by rewrite app_nil_r.
    + intros R' [= <-]. split; [by eapply Hok|]. exact HR.
  - destruct (fetch_talks_incremental_calls _ _ _ _ _ _ _ _ _ _ _ Hload Hlist' Hfetch)
      as (j & Hj & Hcalls & _).
    exists j. split; [done|]. cbv zeta. split; [done|]. split; [by rewrite Hcalls, Hc|].
    intros; discriminate.
  - destruct (fetch_talks_incremental_calls _ _ _ _ _ _ _ _ _ _ _ Hload Hlist' Hfetch)
      as (j & Hj & Hcalls & _).
    exists j. split; [done|]. cbv zeta. split; [done|]. split; [by rewrite Hcalls, Hc|].
    intros; discriminate.
Qed.

Lemma next_run_fetches_what_is_missing_witness :
  exists talks w1 r2 w2 (saved : gset Z) (j : nat),
    (forall z, z ∈ saved <-> id_json z ∈ talk_ids talks) /\
    let missing :=
      limited (cli_limit Examples.default_args)
              (filter (fun tid => tid ∉ saved) [1; 2; 3]) in
    (j <= length missing)%nat /\
    detail_calls (trace w2) = detail_calls (trace w1) ++ take j missing /\
    (forall R, r2 = Ok R ->
       j = length missing /\
       R ≡ₚ talks ++ omap record_of
                       (detail_results (remote w1) (S (requests_made w1)) missing)).
Proof.
  eexists _, _, _, _.
  refine (next_run_fetches_what_is_missing Examples.default_args Examples.default_args
            Examples.w_talk_1_gone _ _ [1; 2; 3] _ _ _ _ _ _ _).
  - vm_compute. reflexivity.
  - reflexivity.
  - reflexivity.
  - eexists _, _, _. repeat split; reflexivity.
  - vm_compute. reflexivity.
Defined.

(** ** The summary *)

Lemma string_leb_trans a b c :
  String.leb a b = true -> String.leb b c = true -> String.leb a c = true.
Proof.
  unfold String.leb. revert b c.
  induction a as [|x a IH]; intros [|y b] [|z c]; simpl; try done.
  unfold Ascii.compare.
  destruct (N.compare_spec (N_of_ascii x) (N_of_ascii y)) as [Hxy|Hxy|Hxy];
    destruct (N.compare_spec (N_of_ascii y) (N_of_ascii z)) as [Hyz|Hyz|Hyz];
    try done.
  - rewrite Hxy, Hyz, N.compare_refl. apply IH.
  - rewrite Hxy. intros _ _. by apply N.compare_lt_iff in Hyz as ->.
  - rewrite <- Hyz. intros _ _. by apply N.compare_lt_iff in Hxy as ->.
  - intros _ _. assert (H : (N_of_ascii x < N_of_ascii z)%N) by lia.
    by apply N.compare_lt_iff in H as ->.
Qed.

Lemma string_ltb_leb a b : String.ltb a b = false -> String.leb b a = true.
Proof.
  unfold String.ltb, String.leb. rewrite (String.compare_antisym b a).
  by destruct (String.compare a b).
Qed.

Lemma string_ltb_true_leb a b : String.ltb a b = true -> String.leb a b = true.
Proof. unfold String.ltb, String.leb. by destruct (String.compare a b). Qed.

Lemma string_leb_refl a : String.leb a a = true.
Proof. by destruct (String.leb_total a a). Qed.

Lemma str_min_spec ds : forall d,
  str_min d ds ∈ d :: ds /\
  Forall (fun x => String.leb (str_min d ds) x = true) (d :: ds).
Proof.
  unfold str_min. induction ds as [|s ds IH]; intros d; simpl.
  - split; [apply list_elem_of_here|]. constructor; [apply string_leb_refl|done].
  - destruct (String.ltb s d) eqn:Hlt.
    + destruct (IH s) as [Hin Hall]. split.
      * by apply list_elem_of_further.
      * apply Forall_cons in Hall as [Hs Hall]. constructor; [|by constructor].
        eapply string_leb_trans; [exact Hs|]. by apply string_ltb_true_leb.
    + destruct (IH d) as [Hin Hall]. split.
      * apply elem_of_cons in Hin as [->|Hin]; [apply list_elem_of_here|].
        by do 2 apply list_elem_of_further.
      * apply Forall_cons in Hall as [Hd Hall]. constructor; [done|].
        constructor; [|done]. eapply string_leb_trans; [exact Hd|].
        by apply string_ltb_leb.
Qed.

Lemma str_max_spec ds : forall d,
  str_max d ds ∈ d :: ds /\
  Forall (fun x => String.leb x (str_max d ds) = true) (d :: ds).
Proof.
  unfold str_max. induction ds as [|s ds IH]; intros d; simpl.
  - split; [apply list_elem_of_here|]. constructor; [apply string_leb_refl|done].
  - destruct (String.ltb d s) eqn:Hlt.
    + destruct (IH s) as [Hin Hall]. split.
      * by apply list_elem_of_further.
      * apply Forall_cons in Hall as [Hs Hall]. constructor; [|by constructor].
        eapply string_leb_trans; [|exact Hs]. by apply string_ltb_true_leb.
    + destruct (IH d) as [Hin Hall]. split.
      * apply elem_of_cons in Hin as [->|Hin]; [apply list_elem_of_here|].
        by do 2 apply list_elem_of_further.
      * apply Forall_cons in Hall as [Hd Hall]. constructor; [done|].
        constructor; [|done]. eapply string_leb_trans; [|exact Hd].
        by apply string_ltb_leb.
Qed.

Lemma summary_teachers_spec talks teachers :
  summary_teachers talks = Ok teachers ->
  forall z, z ∈ teachers <->
            exists t, t ∈ talks /\ dict_lookup "teacher_id" t = Some (JInt z).
Proof.
  revert teachers. induction talks as [|t talks IH]; intros teachers; simpl.
  - intros [= <-] z. split; [set_solver|]. by intros (t & ?%elem_of_nil & _).
  - unfold py_getitem. destruct (dict_lookup "teacher_id" t) as [v|] eqn:Hv; [|done].
    simpl. destruct v as [| |z0| | | |]; try done.
    destruct (summary_teachers talks) as [s| |]; try done. simpl.
    intros [= <-] z. rewrite elem_of_union, elem_of_singleton, (IH s eq_refl z). split.
    + intros [->|(t' & Hin & Ht')].
      * exists t. split; [apply list_elem_of_here|done].
      * exists t'. split; [by apply list_elem_of_further|done].
    + intros (t' & [->|Hin]%elem_of_cons & Ht').
      * left. congruence.
      * right. by exists t'.
Qed.

Lemma summary_dates_spec talks dates :
  summary_dates talks = Ok dates ->
  forall d, d ∈ dates <->
            exists t, t ∈ talks /\ dict_lookup "rec_date" t = Some (JStr d) /\ d <> "".
Proof.
  revert dates. induction talks as [|t talks IH]; intros dates; simpl.
  - intros [= <-] d. split; [by intros ?%elem_of_nil|]. by intros (t & ?%elem_of_nil & _).
  - unfold py_get. destruct (dict_lookup "rec_date" t) as [v|] eqn:Hv.
    + destruct (py_truthy v) eqn:Htruthy.
      * destruct v as [| | | |s| |]; try done.
        destruct (summary_dates talks) as [ds| |]; try done. simpl.
        intros [= <-] d. rewrite elem_of_cons, (IH ds eq_refl d). split.
        -- intros [->|(t' & Hin & Ht')].
           ++ exists t. split; [apply list_elem_of_here|]. split; [done|].
              intros ->. done.
           ++ exists t'. split; [by apply list_elem_of_further|done].
        -- intros (t' & [->|Hin]%elem_of_cons & Ht' & Hne).
           ++ left. congruence.
           ++ right. by exists t'.
      * intros Hd d. rewrite (IH dates Hd d). split.
        -- intros (t' & Hin & Ht'). exists t'. split; [by apply list_elem_of_further|done].
        -- intros (t' & [->|Hin]%elem_of_cons & Ht' & Hne).
           ++ rewrite Hv in Ht'. injection Ht' as ->. simpl in Htruthy.
              by destruct d.
           ++ by exists t'.
    + simpl. intros Hd d. rewrite (IH dates Hd d). split.
      * intros (t' & Hin & Ht'). exists t'. split; [by apply list_elem_of_further|done].
      * intros (t' & [->|Hin]%elem_of_cons & Ht' & Hne); [congruence|by exists t'].
Qed.

(** X29. The summary of a non-empty result: after the blank line, the
    heading and the total, [main] prints the date range, if some record
    has a non-empty date, and the number of teachers; the range goes from
    the least to the greatest non-empty [rec_date] in string order, both
    taken from the records, and the number counts the distinct
    [teacher_id] of the records.  No file changes. *)
Theorem summary_lines (talks : list Dict) (dates : list string) (teachers : gset Z)
    (w : world) :
  talks <> [] ->
  summary_dates talks = Ok dates ->
  summary_teachers talks = Ok teachers ->
  exists w',
    print_summary talks w = (Ok tt, w') /\
    files w' = files w /\
    prints (trace w')
    = prints (trace w)
      ++ [ MsgBlank; MsgSummary; MsgTotal (length talks) ]
      ++ match dates with
         | [] => []
         | d :: ds => [ MsgDateRange (str_min d ds) (str_max d ds) ]
         end
      ++ [ MsgUniqueTeachers (size teachers) ] /\
    (forall d ds, dates = d :: ds ->
       str_min d ds ∈ dates /\ str_max d ds ∈ dates /\
       Forall (fun x => String.leb (str_min d ds) x = true /\
                        String.leb x (str_max d ds) = true) dates) /\
    (forall d, d ∈ dates <->
       exists t, t ∈ talks /\ dict_lookup "rec_date" t = Some (JStr d) /\ d <> "") /\
    (forall z, z ∈ teachers <->
       exists t, t ∈ talks /\ dict_lookup "teacher_id" t = Some (JInt z)).
Proof.
  intros Hne Hdates Hteachers.
  destruct talks as [|t talks]; [done|].
  unfold print_summary.
  do 3 rewrite (bind_ok _ _ _ _ _ (print_eq _ _)).
  rewrite bind_lift, Hdates.
  assert (Hrest : forall w1,
    exists w',
      (teachers0 ← lift (summary_teachers (t :: talks));
       print (MsgUniqueTeachers (size teachers0))) w1 = (Ok tt, w') /\
      files w' = files w1 /\
      prints (trace w') = prints (trace w1) ++ [ MsgUniqueTeachers (size teachers) ]).
  { intros w1. rewrite bind_lift, Hteachers. eexists. split; [reflexivity|].
    split; [done|]. simpl. by rewrite prints_app. }
  assert (Hrun : exists w',
    ((match dates with
      | [] => mret tt
      | d :: ds => print (MsgDateRange (str_min d ds) (str_max d ds))
      end);;
     teachers0 ← lift (summary_teachers (t :: talks));
     print (MsgUniqueTeachers (size teachers0)))
      (World (files w) (remote w) (requests_made w)
             (((trace w ++ [EvPrint MsgBlank]) ++ [EvPrint MsgSummary])
              ++ [EvPrint (MsgTotal (length (t :: talks)))])) = (Ok tt, w') /\
    files w' = files w /\
    prints (trace w')
    = prints (trace w)
      ++ [ MsgBlank; MsgSummary; MsgTotal (length (t :: talks)) ]
      ++ match dates with
         | [] => []
         | d :: ds => [ MsgDateRange (str_min d ds) (str_max d ds) ]
         end
      ++ [ MsgUniqueTeachers (size teachers) ]).
  { destruct dates as [|d ds].
    - rewrite bind_mret. edestruct Hrest as (w' & -> & Hf & Hp).
      exists w'. split; [done|]. split; [done|]. rewrite Hp. simpl.
      rewrite !prints_app, <- !app_assoc. done.
    - rewrite (bind_ok _ _ _ _ _ (print_eq _ _)).
      edestruct Hrest as (w' & -> & Hf & Hp).
      exists w'. split; [done|]. split; [done|]. rewrite Hp. simpl.
      rewrite !prints_app, <- !app_assoc. done. }
  destruct Hrun as (w' & Hrun & Hf & Hp).
  exists w'. split; [exact Hrun|]. split; [done|]. split; [done|]. split; [|split].
  - intros d ds ->. destruct (str_min_spec ds d) as [Hmin Hle].
    destruct (str_max_spec ds d) as [Hmax Hge].
    split; [done|]. split; [done|].
    apply Forall_forall. intros x Hx.
    rewrite Forall_forall in Hle, Hge. split; [by apply Hle|by apply Hge].
  - by apply summary_dates_spec.
  - by apply summary_teachers_spec.
Qed.

Lemma summary_lines_witness :
  exists w',
    print_summary [ Examples.fetched 7; Examples.fetched 3 ] Examples.w_absent
    = (Ok tt, w') /\
    files w' = files Examples.w_absent /\
    prints (trace w')
    = prints (trace Examples.w_absent)
      ++ [ MsgBlank; MsgSummary;
           MsgTotal (length [ Examples.fetched 7; Examples.fetched 3 ]) ]
      ++ [ MsgDateRange (str_min "2019-10-27" [ "2019-10-27" ])
                        (str_max "2019-10-27" [ "2019-10-27" ]) ]
      ++ [ MsgUniqueTeachers (size ({[ 96 ]} : gset Z)) ].
Proof.
  destruct (summary_lines [ Examples.fetched 7; Examples.fetched 3 ]
              [ "2019-10-27"; "2019-10-27" ] {[ 96 ]} Examples.w_absent)
    as (w' & Hrun & Hf & Hp & _).
  - discriminate.
  - reflexivity.
  - vm_compute. reflexivity.
  - exists w'. split; [exact Hrun|]. split; [exact Hf|exact Hp].
Defined.
